(** * GLIF2NEST: the point-neuron update engines of [glif_lif] and [glif_lif_psc]

    A shallow embedding of [GlifModel/glif_lif.cpp] and
    [GlifModel/glif_lif_psc.cpp] and the properties of their parameter
    handling, calibration and per-step update.

    Numbers.  The C++ [double] is modelled by the real numbers [R]: [+], [-],
    [*], [/] and [std::exp] are the exact operations, comparisons are the
    order of [R].  Rounding and overflow are outside the model: an equality
    between numbers below is that of exact arithmetic, which the code's
    doubles follow up to rounding.  Where a theorem says which branch the
    code takes, or that a bound is never passed, it does so for one
    evaluation of the code's comparison, or by an argument on signs and
    order that rounding to nearest keeps.  The one quotient whose divisor a
    step of the code can make zero, [(th - v_old) / (v_new - v_old)] of the
    spike offset, is modelled with what IEEE 754 arithmetic makes of it: the
    division does not trap and its result is not a finite number
    ([nest.Double]).  The other quotients have parameters as divisors
    ([C_m_], [G_], [tau_syn_]); they are written as the code writes them,
    and no theorem below evaluates one at a zero divisor.

    Integers.  [long] lags and step counts are [Z]; the host keeps them far
    from the ends of the 64-bit range, and the only arithmetic on them is
    [lag + 1], [origin + lag] and [origin + lag + 1]. *)

From Stdlib Require Import Reals Lra ZArith.
From stdpp Require Import gmap strings list fin_maps.

Open Scope R_scope.

(** ** The host library (NEST kernel and SLI), as far as the models use it *)

Module nest.

(** Exceptions thrown through the models. *)
Inductive Exception :=
| TypeMismatch
| BadProperty (msg : string)
| IncompatibleReceptorType (receptor_type : Z).

(** [throw] and sequencing of fallible statements. *)
Definition except (A : Type) : Type := Exception + A.
Definition ret {A} (a : A) : except A := inr a.
Definition throw {A} (e : Exception) : except A := inl e.
Definition bind {A B} (m : except A) (k : A -> except B) : except B :=
  match m with
  | inl e => inl e
  | inr a => k a
  end.

(** The values a status dictionary holds. *)
Inductive Datum :=
| DoubleDatum (x : R)
| StringDatum (s : string)
| DoubleVectorDatum (v : list R)
| BoolDatum (b : bool).

Abbreviation DictionaryDatum := (gmap string Datum).

Definition getValue_double (t : Datum) : except R :=
  match t with DoubleDatum x => ret x | _ => throw TypeMismatch end.
Definition getValue_string (t : Datum) : except string :=
  match t with StringDatum s => ret s | _ => throw TypeMismatch end.
Definition getValue_vector (t : Datum) : except (list R) :=
  match t with DoubleVectorDatum v => ret v | _ => throw TypeMismatch end.

(** [updateValue< T >( d, n, value )]: when [d] has an entry [n], [value]
    is overwritten with it and the call returns [true]; otherwise [value]
    is kept and the call returns [false].  An entry of another type
    throws. *)
Definition updateValue {T} (getValue : Datum -> except T)
    (d : DictionaryDatum) (n : string) (value : T) : except (T * bool) :=
  match d !! n with
  | None => ret (value, false)
  | Some t => bind (getValue t) (fun v => ret (v, true))
  end.

(** Keys of [nest::names] used by the models. *)
Module names.
Definition V_th : string := "V_th".
Definition g : string := "g".
Definition E_L : string := "E_L".
Definition C_m : string := "C_m".
Definition t_ref : string := "t_ref".
Definition V_reset : string := "V_reset".
Definition V_m : string := "V_m".
Definition tau_syn : string := "tau_syn".
Definition has_connections : string := "has_connections".
End names.

(** [RingBuffer]: one slot per lag of the current slice.  [get_value]
    returns the slot and clears it, [add_value] accumulates into it.  The
    host guarantees offsets within the buffer; outside it the model reads
    [0] and changes nothing. *)
Definition RingBuffer : Type := list R.

Definition get_value (b : RingBuffer) (offs : Z) : R * RingBuffer :=
  if (0 <=? offs)%Z
  then (default 0 (b !! Z.to_nat offs), <[Z.to_nat offs := 0]> b)
  else (0, b).

Definition add_value (b : RingBuffer) (offs : Z) (v : R) : RingBuffer :=
  if (0 <=? offs)%Z
  then <[Z.to_nat offs := default 0 (b !! Z.to_nat offs) + v]> b
  else b.

Definition clear (b : RingBuffer) : RingBuffer := replicate (length b) 0.

(** [RingBuffer::resize()]: the buffer takes the size the kernel asks for
    ([slots], its minimal plus maximal delay) and is zeroed when that
    changes its size. *)
Definition RingBuffer_resize (slots : nat) (b : RingBuffer) : RingBuffer :=
  if decide (length b = slots) then b else replicate slots 0.

(** [std::vector< T >]: [v[ i ]] and [v.resize( n )], new cells holding
    [dflt].  An index outside the vector, which the models never use, reads
    [dflt]. *)
Definition at_ {T} (dflt : T) (v : list T) (i : nat) : T :=
  default dflt (v !! i).
Definition resize {T} (dflt : T) (n : nat) (v : list T) : list T :=
  take n v ++ replicate (n - length v) dflt.

(** [numerics::e] *)
Definition numerics_e : R := exp 1.

(** A [double] that comes out of a quotient whose divisor is not tested.
    IEEE 754 arithmetic does not trap on a zero divisor: the quotient is an
    infinity or a NaN, and the difference and the product the code takes of
    it afterwards are an infinity or a NaN again.  [non_finite] stands for
    any of them, [finite x] for the number [x]. *)
Inductive Double :=
| finite (x : R)
| non_finite.

(** What [update] hands to the host on a threshold crossing:
    [set_spiketime( Time::step( t_sp ), offset )] and
    [send( *this, se, lag )] with [se.set_offset( offset )]. *)
Record SpikeEvent := mkSpikeEvent {
  t_sp : Z;
  offset : Double;
  sent_lag : Z
}.

(** [def< T >( d, n, value )]: the entry [n] of [d] becomes [value],
    whatever it was. *)
Definition def (d : DictionaryDatum) (n : string) (t : Datum)
    : DictionaryDatum :=
  <[n := t]> d.

End nest.

Notation "'let*' p ':=' m 'in' k" := (nest.bind m (fun p => k))
  (at level 10, p pattern, m at level 100, k at level 200).

(** ** [glif_lif]: the plain model (SI units, seconds) *)

Module glif_lif.
Import nest.

Record Parameters_ := mkParameters {
  th_inf_ : R;
  G_ : R;
  E_l_ : R;
  C_m_ : R;
  t_ref_ : R;
  V_reset_ : R;
  V_dynamics_method_ : string
}.

Record State_ := mkState {
  V_m_ : R;
  I_ : R
}.

Record Variables_ := mkVariables {
  t_ref_remaining_ : R;
  t_ref_total_ : R
}.

(** [logger_] keeps what [record_data] samples: the step and the only
    recordable, [V_m]. *)
Record Buffers_ := mkBuffers {
  spikes_ : RingBuffer;
  currents_ : RingBuffer;
  logger_ : list (Z * R)
}.

Record Node := mkNode {
  P_ : Parameters_;
  S_ : State_;
  V_ : Variables_;
  B_ : Buffers_
}.

Definition Parameters_default : Parameters_ :=
  {| th_inf_ := 0.0265;
     G_ := 4.6951e-09;
     E_l_ := -0.0774;
     C_m_ := 9.9182e-11;
     t_ref_ := 1.0;
     V_reset_ := 0.0;
     V_dynamics_method_ := "linear_forward_euler" |}.

Definition State_default (p : Parameters_) : State_ :=
  {| V_m_ := 0.0; I_ := 0.0 |}.

(** [Parameters_::set] *)
Definition Parameters_set (p : Parameters_) (d : DictionaryDatum)
    : except Parameters_ :=
  let* (th_inf, _) := updateValue getValue_double d names.V_th (th_inf_ p) in
  let* (G, _) := updateValue getValue_double d names.g (G_ p) in
  let* (E_l, _) := updateValue getValue_double d names.E_L (E_l_ p) in
  let* (C_m, _) := updateValue getValue_double d names.C_m (C_m_ p) in
  let* (t_ref, _) := updateValue getValue_double d names.t_ref (t_ref_ p) in
  let* (V_reset, _) := updateValue getValue_double d names.V_reset (V_reset_ p) in
  let* (method, _) := updateValue getValue_string d "V_dynamics_method"
                    (V_dynamics_method_ p) in
  ret {| th_inf_ := th_inf; G_ := G; E_l_ := E_l; C_m_ := C_m;
         t_ref_ := t_ref; V_reset_ := V_reset;
         V_dynamics_method_ := method |}.

(** [State_::set] *)
Definition State_set (s : State_) (d : DictionaryDatum) (p : Parameters_)
    : except State_ :=
  let* (V_m, _) := updateValue getValue_double d names.V_m (V_m_ s) in
  ret {| V_m_ := V_m; I_ := I_ s |}.

(** [init_buffers_] *)
Definition init_buffers_ (n : Node) : Node :=
  {| P_ := P_ n; S_ := S_ n; V_ := V_ n;
     B_ := {| spikes_ := clear (spikes_ (B_ n));
              currents_ := clear (currents_ (B_ n));
              logger_ := [] |} |}.

(** [calibrate] *)
Definition calibrate (n : Node) : Node :=
  {| P_ := P_ n; S_ := S_ n;
     V_ := {| t_ref_remaining_ := 0.0;
              t_ref_total_ := t_ref_ (P_ n) * 1.0e-03 |};
     B_ := B_ n |}.

(** Field assignments used by [update]. *)
Definition set_V_m (n : Node) (v : R) : Node :=
  {| P_ := P_ n; S_ := {| V_m_ := v; I_ := I_ (S_ n) |};
     V_ := V_ n; B_ := B_ n |}.
Definition set_I (n : Node) (i : R) : Node :=
  {| P_ := P_ n; S_ := {| V_m_ := V_m_ (S_ n); I_ := i |};
     V_ := V_ n; B_ := B_ n |}.
Definition set_t_ref_remaining (n : Node) (t : R) : Node :=
  {| P_ := P_ n; S_ := S_ n;
     V_ := {| t_ref_remaining_ := t; t_ref_total_ := t_ref_total_ (V_ n) |};
     B_ := B_ n |}.
Definition set_currents (n : Node) (b : RingBuffer) : Node :=
  {| P_ := P_ n; S_ := S_ n; V_ := V_ n;
     B_ := {| spikes_ := spikes_ (B_ n); currents_ := b;
              logger_ := logger_ (B_ n) |} |}.
Definition record_data (n : Node) (step : Z) : Node :=
  {| P_ := P_ n; S_ := S_ n; V_ := V_ n;
     B_ := {| spikes_ := spikes_ (B_ n); currents_ := currents_ (B_ n);
              logger_ := logger_ (B_ n) ++ [(step, V_m_ (S_ n))] |} |}.

(** The interpolated sub-step offset of a crossing, as [update] writes it;
    [h] is [Time::get_resolution().get_ms()]. *)
Definition spike_offset (th v_old v_new h : R) : R :=
  (1 - (th - v_old) / (v_new - v_old)) * h.

(** The [double] that [update] computes by this formula: the number the
    formula gives when the divisor [v_new - v_old] is not zero, and no
    finite number when it is. *)
Definition computed_offset (th v_old v_new h : R) : Double :=
  if Req_EM_T (v_new - v_old) 0 then non_finite
  else finite (spike_offset th v_old v_new h).

(** The refractory branch of the loop body. *)
Definition refractory_branch (dt : R) (n : Node) (v_old : R) : Node :=
  let n := set_t_ref_remaining n (t_ref_remaining_ (V_ n) - dt) in
  if Rle_dec (t_ref_remaining_ (V_ n)) 0.0
  then set_V_m n (V_reset_ (P_ n))
  else set_V_m n v_old.

(** The voltage dynamics: one of the two schemes, or neither when the
    method string is neither name. *)
Definition voltage_dynamics (dt : R) (n : Node) (v_old : R) : Node :=
  let p := P_ n in
  if String.eqb (V_dynamics_method_ p) "linear_forward_euler"
  then set_V_m n (v_old + dt * (I_ (S_ n) - G_ p * (v_old - E_l_ p)) / C_m_ p)
  else if String.eqb (V_dynamics_method_ p) "linear_exact"
  then
    let tau := G_ p / C_m_ p in
    set_V_m n (v_old * exp (- dt * tau)
               + ((I_ (S_ n) + G_ p * E_l_ p) / C_m_ p)
                 * (1 - exp (- tau * dt)) / tau)
  else n.

(** The threshold test and what it emits. *)
Definition threshold_test (h : R) (origin : Z) (n : Node) (v_old : R)
    (lag : Z) : Node * list SpikeEvent :=
  if Rgt_dec (V_m_ (S_ n)) (th_inf_ (P_ n))
  then
    let n' := set_t_ref_remaining n (t_ref_total_ (V_ n)) in
    let spike_offset :=
      computed_offset (th_inf_ (P_ n)) v_old (V_m_ (S_ n)) h in
    (n', [ {| t_sp := origin + lag + 1; offset := spike_offset;
              sent_lag := lag |} ])
  else (n, []).

(** The tail of the loop body: the next value of the current buffer goes
    to [I_], and the logger samples the node. *)
Definition drain_and_record (origin : Z) (n : Node) (lag : Z) : Node :=
  let '(i, currents) := get_value (currents_ (B_ n)) lag in
  let n := set_I (set_currents n currents) i in
  record_data n (origin + lag).

(** One iteration of the loop of [update]: the node, the local [v_old]
    and the spikes handed to the host. *)
Definition update_step (h : R) (origin : Z) (n : Node) (v_old : R)
    (lag : Z) : Node * R * list SpikeEvent :=
  let dt := h * 1.0e-03 in
  let '(n, sent) :=
    if Rgt_dec (t_ref_remaining_ (V_ n)) 0.0
    then (refractory_branch dt n v_old, [])
    else threshold_test h origin (voltage_dynamics dt n v_old) v_old lag in
  let n := drain_and_record origin n lag in
  (n, V_m_ (S_ n), sent).

(** The loop [for ( lag = from; lag < to; ++lag )], [count] iterations
    starting at [lag]. *)
Fixpoint update_loop (h : R) (origin : Z) (count : nat) (n : Node)
    (v_old : R) (lag : Z) : Node * list SpikeEvent :=
  match count with
  | O => (n, [])
  | S count' =>
      let '(n', v_old', sent) := update_step h origin n v_old lag in
      let '(n'', sent') := update_loop h origin count' n' v_old' (lag + 1) in
      (n'', sent ++ sent')
  end.

(** [update( origin, from, to )] *)
Definition update (h : R) (origin : Z) (n : Node) (from to : Z)
    : Node * list SpikeEvent :=
  update_loop h origin (Z.to_nat (to - from)) n (V_m_ (S_ n)) from.

(** [handle( SpikeEvent& )] and [handle( CurrentEvent& )]: the delivery
    step relative to the slice origin and the amount. *)
Definition handle_spike (n : Node) (rel_delivery_steps : Z) (weight : R)
    : Node :=
  {| P_ := P_ n; S_ := S_ n; V_ := V_ n;
     B_ := {| spikes_ := add_value (spikes_ (B_ n)) rel_delivery_steps weight;
              currents_ := currents_ (B_ n);
              logger_ := logger_ (B_ n) |} |}.

Definition handle_current (n : Node) (rel_delivery_steps : Z)
    (weight current : R) : Node :=
  set_currents n
    (add_value (currents_ (B_ n)) rel_delivery_steps (weight * current)).

(** [Parameters_::get] and [State_::get] *)
Definition Parameters_get (p : Parameters_) (d : DictionaryDatum)
    : DictionaryDatum :=
  let d := def d names.V_th (DoubleDatum (th_inf_ p)) in
  let d := def d names.g (DoubleDatum (G_ p)) in
  let d := def d names.E_L (DoubleDatum (E_l_ p)) in
  let d := def d names.C_m (DoubleDatum (C_m_ p)) in
  let d := def d names.t_ref (DoubleDatum (t_ref_ p)) in
  let d := def d names.V_reset (DoubleDatum (V_reset_ p)) in
  def d "V_dynamics_method" (StringDatum (V_dynamics_method_ p)).

Definition State_get (s : State_) (d : DictionaryDatum) : DictionaryDatum :=
  def d names.V_m (DoubleDatum (V_m_ s)).

(** The nodes of a run at resolution [h]: a calibrated node, advanced by
    [update] over any slices, with events delivered in between. *)
Inductive running (h : R) : Node -> Prop :=
| running_calibrate n :
    running h (calibrate n)
| running_update n origin from to :
    running h n -> running h (update h origin n from to).1
| running_handle_spike n steps w :
    running h n -> running h (handle_spike n steps w)
| running_handle_current n steps w c :
    running h n -> running h (handle_current n steps w c).

End glif_lif.

(** ** [glif_lif_psc]: the model with alpha-shaped synaptic currents
       (mV, pA, ms) *)

Module glif_lif_psc.
Import nest.

Record Parameters_ := mkParameters {
  th_inf_ : R;
  G_ : R;
  E_l_ : R;
  C_m_ : R;
  t_ref_ : R;
  V_reset_ : R;
  tau_syn_ : list R;
  V_dynamics_method_ : string;
  has_connections_ : bool
}.

(** Modelled from the spec: [n_receptors_()] is declared in
    [glif_lif_psc.h]; the length of [synaptic_time_constants] defines the
    receptor count. *)
Definition n_receptors_ (p : Parameters_) : nat := length (tau_syn_ p).

Record State_ := mkState {
  V_m_ : R;
  I_ : R;
  y1_ : list R;
  y2_ : list R
}.

Record Variables_ := mkVariables {
  t_ref_remaining_ : R;
  t_ref_total_ : R;
  method_ : Z;
  P11_ : list R;
  P21_ : list R;
  P22_ : list R;
  P31_ : list R;
  P32_ : list R;
  P30_ : R;
  P33_ : R;
  PSCInitialValues_ : list R
}.

Record Buffers_ := mkBuffers {
  spikes_ : list RingBuffer;
  currents_ : RingBuffer;
  logger_ : list (Z * R)
}.

Record Node := mkNode {
  P_ : Parameters_;
  S_ : State_;
  V_ : Variables_;
  B_ : Buffers_
}.

Definition Parameters_default : Parameters_ :=
  {| th_inf_ := 0.0265 * 1.0e03;
     G_ := 4.6951;
     E_l_ := -0.0774 * 1.0e03;
     C_m_ := 99.182;
     t_ref_ := 0.5;
     V_reset_ := 0.0;
     tau_syn_ := replicate 1 2.0;
     V_dynamics_method_ := "linear_forward_euler";
     has_connections_ := false |}.

Definition State_default (p : Parameters_) : State_ :=
  {| V_m_ := 0.0; I_ := 0.0; y1_ := []; y2_ := [] |}.

(** The loop of [Parameters_::set] over the time constants. *)
Fixpoint check_tau_syn (tau_syn : list R) : except unit :=
  match tau_syn with
  | [] => ret tt
  | t :: rest =>
      if Rle_dec t 0
      then throw (BadProperty
                    "All synaptic time constants must be strictly positive.")
      else check_tau_syn rest
  end.

(** [Parameters_::set].  The object is written field by field, as in the
    source: [tau_syn_] is first updated together with the scalar fields,
    [old_n_receptors] is read after that, and [tau_syn_] is then updated a
    second time inside the condition. *)
Definition Parameters_set (p : Parameters_) (d : DictionaryDatum)
    : except Parameters_ :=
  let* (th_inf, _) := updateValue getValue_double d names.V_th (th_inf_ p) in
  let* (G, _) := updateValue getValue_double d names.g (G_ p) in
  let* (E_l, _) := updateValue getValue_double d names.E_L (E_l_ p) in
  let* (C_m, _) := updateValue getValue_double d names.C_m (C_m_ p) in
  let* (t_ref, _) := updateValue getValue_double d names.t_ref (t_ref_ p) in
  let* (V_reset, _) := updateValue getValue_double d names.V_reset (V_reset_ p) in
  let* (tau_syn, _) := updateValue getValue_vector d "tau_syn" (tau_syn_ p) in
  let* (method, _) := updateValue getValue_string d "V_dynamics_method"
                        (V_dynamics_method_ p) in
  let this :=
    {| th_inf_ := th_inf; G_ := G; E_l_ := E_l; C_m_ := C_m;
       t_ref_ := t_ref; V_reset_ := V_reset; tau_syn_ := tau_syn;
       V_dynamics_method_ := method;
       has_connections_ := has_connections_ p |} in
  let old_n_receptors := n_receptors_ this in
  let* (tau_syn, updated) := updateValue getValue_vector d "tau_syn"
                               (tau_syn_ this) in
  let this :=
    {| th_inf_ := th_inf; G_ := G; E_l_ := E_l; C_m_ := C_m;
       t_ref_ := t_ref; V_reset_ := V_reset; tau_syn_ := tau_syn;
       V_dynamics_method_ := method;
       has_connections_ := has_connections_ p |} in
  if updated
  then
    if negb (bool_decide (n_receptors_ this = old_n_receptors))
       && bool_decide (has_connections_ this = true)
    then throw (BadProperty
      "The neuron has connections, therefore the number of ports cannot be reduced.")
    else let* _ := check_tau_syn (tau_syn_ this) in ret this
  else ret this.

(** [State_::set] *)
Definition State_set (s : State_) (d : DictionaryDatum) (p : Parameters_)
    : except State_ :=
  let* (V_m, _) := updateValue getValue_double d names.V_m (V_m_ s) in
  ret {| V_m_ := V_m; I_ := I_ s; y1_ := y1_ s; y2_ := y2_ s |}.

(** [handles_test_event( SpikeEvent&, receptor_type )] *)
Definition handles_test_event (n : Node) (receptor_type : Z)
    : except (Node * Z) :=
  if bool_decide (receptor_type <= 0)%Z
     || bool_decide (receptor_type > Z.of_nat (n_receptors_ (P_ n)))%Z
  then throw (IncompatibleReceptorType receptor_type)
  else
    let p := P_ n in
    ret ({| P_ := {| th_inf_ := th_inf_ p; G_ := G_ p; E_l_ := E_l_ p;
                     C_m_ := C_m_ p; t_ref_ := t_ref_ p;
                     V_reset_ := V_reset_ p; tau_syn_ := tau_syn_ p;
                     V_dynamics_method_ := V_dynamics_method_ p;
                     has_connections_ := true |};
            S_ := S_ n; V_ := V_ n; B_ := B_ n |}, receptor_type).

(** Field assignments used by [calibrate] and [update]. *)
Definition set_S (n : Node) (s : State_) : Node :=
  {| P_ := P_ n; S_ := s; V_ := V_ n; B_ := B_ n |}.
Definition set_V (n : Node) (v : Variables_) : Node :=
  {| P_ := P_ n; S_ := S_ n; V_ := v; B_ := B_ n |}.
Definition set_B (n : Node) (b : Buffers_) : Node :=
  {| P_ := P_ n; S_ := S_ n; V_ := V_ n; B_ := b |}.

Definition set_V_m (n : Node) (v : R) : Node :=
  set_S n {| V_m_ := v; I_ := I_ (S_ n); y1_ := y1_ (S_ n);
             y2_ := y2_ (S_ n) |}.
Definition set_I (n : Node) (i : R) : Node :=
  set_S n {| V_m_ := V_m_ (S_ n); I_ := i; y1_ := y1_ (S_ n);
             y2_ := y2_ (S_ n) |}.
Definition set_y1 (n : Node) (y : list R) : Node :=
  set_S n {| V_m_ := V_m_ (S_ n); I_ := I_ (S_ n); y1_ := y;
             y2_ := y2_ (S_ n) |}.
Definition set_y2 (n : Node) (y : list R) : Node :=
  set_S n {| V_m_ := V_m_ (S_ n); I_ := I_ (S_ n); y1_ := y1_ (S_ n);
             y2_ := y |}.
Definition set_t_ref_remaining (n : Node) (t : R) : Node :=
  let v := V_ n in
  set_V n {| t_ref_remaining_ := t; t_ref_total_ := t_ref_total_ v;
             method_ := method_ v; P11_ := P11_ v; P21_ := P21_ v;
             P22_ := P22_ v; P31_ := P31_ v; P32_ := P32_ v;
             P30_ := P30_ v; P33_ := P33_ v;
             PSCInitialValues_ := PSCInitialValues_ v |}.
Definition set_spikes (n : Node) (b : list RingBuffer) : Node :=
  set_B n {| spikes_ := b; currents_ := currents_ (B_ n);
             logger_ := logger_ (B_ n) |}.
Definition set_currents (n : Node) (b : RingBuffer) : Node :=
  set_B n {| spikes_ := spikes_ (B_ n); currents_ := b;
             logger_ := logger_ (B_ n) |}.
Definition record_data (n : Node) (step : Z) : Node :=
  set_B n {| spikes_ := spikes_ (B_ n); currents_ := currents_ (B_ n);
             logger_ := logger_ (B_ n) ++ [(step, V_m_ (S_ n))] |}.

(** [init_buffers_] *)
Definition init_buffers_ (n : Node) : Node :=
  set_B n {| spikes_ := [];
             currents_ := clear (currents_ (B_ n));
             logger_ := [] |}.

Section Calibrate.
(** [propagator_31] and [propagator_32] of the host's
    [propagator_stability.h], and the size the kernel gives a ring
    buffer. *)
Variables propagator_31 propagator_32 : R -> R -> R -> R -> R.
Variable slots : nat.

(** The body of the loop of [calibrate] for receptor [i]. *)
Definition calibrate_receptor (h Tau_ : R) (n : Node) (i : nat) : Node :=
  let p := P_ n in
  let v := V_ n in
  let Tau_syn_s_ := at_ 0 (tau_syn_ p) i in
  let P11_i := exp (- h / Tau_syn_s_) in
  let P21_i := h * P11_i in
  let n :=
    set_V n {| t_ref_remaining_ := t_ref_remaining_ v;
               t_ref_total_ := t_ref_total_ v;
               method_ := method_ v;
               P11_ := <[i := P11_i]> (P11_ v);
               P21_ := <[i := P21_i]> (P21_ v);
               P22_ := <[i := P11_i]> (P22_ v);
               P31_ := <[i := propagator_31 (at_ 0 (tau_syn_ p) i) Tau_
                                (C_m_ p) h]> (P31_ v);
               P32_ := <[i := propagator_32 (at_ 0 (tau_syn_ p) i) Tau_
                                (C_m_ p) h]> (P32_ v);
               P30_ := P30_ v; P33_ := P33_ v;
               PSCInitialValues_ :=
                 <[i := 1.0 * numerics_e / Tau_syn_s_]>
                   (PSCInitialValues_ v) |} in
  set_spikes n
    (<[i := RingBuffer_resize slots (at_ [] (spikes_ (B_ n)) i)]>
       (spikes_ (B_ n))).

(** [for ( i = 0; i < P_.n_receptors_(); i++ )], [count] iterations
    starting at [i]. *)
Fixpoint calibrate_loop (h Tau_ : R) (count : nat) (n : Node) (i : nat)
    : Node :=
  match count with
  | O => n
  | S count' =>
      calibrate_loop h Tau_ count' (calibrate_receptor h Tau_ n i) (S i)
  end.

(** [calibrate]; [h] is [Time::get_resolution().get_ms()]. *)
Definition calibrate (h : R) (n : Node) : Node :=
  let p := P_ n in
  let v := V_ n in
  let nr := n_receptors_ p in
  let method :=
    if String.eqb (V_dynamics_method_ p) "linear_exact" then 1%Z else 0%Z in
  let Tau_ := C_m_ p / G_ p in
  let P33 := exp (- h / Tau_) in
  let P30 := 1 / C_m_ p * (1 - P33) * Tau_ in
  let n :=
    {| P_ := p;
       S_ := {| V_m_ := V_m_ (S_ n); I_ := I_ (S_ n);
                y1_ := resize 0 nr (y1_ (S_ n));
                y2_ := resize 0 nr (y2_ (S_ n)) |};
       V_ := {| t_ref_remaining_ := 0.0;
                t_ref_total_ := t_ref_ p;
                method_ := method;
                P11_ := resize 0 nr (P11_ v);
                P21_ := resize 0 nr (P21_ v);
                P22_ := resize 0 nr (P22_ v);
                P31_ := resize 0 nr (P31_ v);
                P32_ := resize 0 nr (P32_ v);
                P30_ := P30; P33_ := P33;
                PSCInitialValues_ := resize 0 nr (PSCInitialValues_ v) |};
       B_ := {| spikes_ := resize (replicate slots 0) nr (spikes_ (B_ n));
                currents_ := currents_ (B_ n);
                logger_ := logger_ (B_ n) |} |} in
  calibrate_loop h Tau_ nr n 0.
End Calibrate.

Definition spike_offset (th v_old v_new h : R) : R :=
  (1 - (th - v_old) / (v_new - v_old)) * h.

Definition computed_offset (th v_old v_new h : R) : Double :=
  if Req_EM_T (v_new - v_old) 0 then non_finite
  else finite (spike_offset th v_old v_new h).

(** The refractory branch of the loop body. *)
Definition refractory_branch (dt : R) (n : Node) (v_old : R) : Node :=
  let n := set_t_ref_remaining n (t_ref_remaining_ (V_ n) - dt) in
  if Rle_dec (t_ref_remaining_ (V_ n)) 0.0
  then set_V_m n (V_reset_ (P_ n))
  else set_V_m n v_old.

(** [switch( V_.method_ )] *)
Definition voltage_dynamics (dt : R) (n : Node) (v_old : R) : Node :=
  let p := P_ n in
  match method_ (V_ n) with
  | 0%Z => set_V_m n (v_old + dt * (I_ (S_ n) - G_ p * (v_old - E_l_ p))
                              / C_m_ p)
  | 1%Z => set_V_m n (v_old * P33_ (V_ n)
                      + (I_ (S_ n) + G_ p * E_l_ p) * P30_ (V_ n))
  | _ => n
  end.

(** The loop that adds the synaptic component to the voltage. *)
Definition add_synapse (n : Node) (i : nat) : Node :=
  set_V_m n (V_m_ (S_ n)
             + (at_ 0 (P31_ (V_ n)) i * at_ 0 (y1_ (S_ n)) i
                + at_ 0 (P32_ (V_ n)) i * at_ 0 (y2_ (S_ n)) i)).

Fixpoint synapse_loop (count : nat) (n : Node) (i : nat) : Node :=
  match count with
  | O => n
  | S count' => synapse_loop count' (add_synapse n i) (S i)
  end.

(** The threshold test and what it emits.  The [printf] that reports
    offsets above [0.005] on the standard output is left out. *)
Definition threshold_test (h : R) (origin : Z) (n : Node) (v_old : R)
    (lag : Z) : Node * list SpikeEvent :=
  if Rgt_dec (V_m_ (S_ n)) (th_inf_ (P_ n))
  then
    let n' := set_t_ref_remaining n (t_ref_total_ (V_ n)) in
    let spike_offset :=
      computed_offset (th_inf_ (P_ n)) v_old (V_m_ (S_ n)) h in
    (n', [ {| t_sp := origin + lag + 1; offset := spike_offset;
              sent_lag := lag |} ])
  else (n, []).

(** The body of the alpha-shape loop for receptor [i]: three assignments,
    the last one draining the receptor's spike buffer at [lag]. *)
Definition psc_receptor (n : Node) (lag : Z) (i : nat) : Node :=
  let n := set_y2 n (<[i := at_ 0 (P21_ (V_ n)) i * at_ 0 (y1_ (S_ n)) i
                            + at_ 0 (P22_ (V_ n)) i * at_ 0 (y2_ (S_ n)) i]>
                       (y2_ (S_ n))) in
  let n := set_y1 n (<[i := at_ 0 (y1_ (S_ n)) i * at_ 0 (P11_ (V_ n)) i]>
                       (y1_ (S_ n))) in
  let '(s, b) := get_value (at_ [] (spikes_ (B_ n)) i) lag in
  let n := set_spikes n (<[i := b]> (spikes_ (B_ n))) in
  set_y1 n (<[i := at_ 0 (y1_ (S_ n)) i
                   + at_ 0 (PSCInitialValues_ (V_ n)) i * s]>
              (y1_ (S_ n))).

Fixpoint psc_loop (count : nat) (n : Node) (lag : Z) (i : nat) : Node :=
  match count with
  | O => n
  | S count' => psc_loop count' (psc_receptor n lag i) lag (S i)
  end.

(** The tail of the loop body: the next value of the current buffer goes
    to [I_], and the logger samples the node. *)
Definition drain_and_record (origin : Z) (n : Node) (lag : Z) : Node :=
  let '(i, currents) := get_value (currents_ (B_ n)) lag in
  let n := set_I (set_currents n currents) i in
  record_data n (origin + lag).

(** One iteration of the loop of [update]. *)
Definition update_step (h : R) (origin : Z) (n : Node) (v_old : R)
    (lag : Z) : Node * R * list SpikeEvent :=
  let dt := h in
  let '(n, sent) :=
    if Rgt_dec (t_ref_remaining_ (V_ n)) 0.0
    then (refractory_branch dt n v_old, [])
    else
      let n := voltage_dynamics dt n v_old in
      let n := synapse_loop (n_receptors_ (P_ n)) n 0 in
      threshold_test h origin n v_old lag in
  let n := psc_loop (n_receptors_ (P_ n)) n lag 0 in
  let n := drain_and_record origin n lag in
  (n, V_m_ (S_ n), sent).

Fixpoint update_loop (h : R) (origin : Z) (count : nat) (n : Node)
    (v_old : R) (lag : Z) : Node * list SpikeEvent :=
  match count with
  | O => (n, [])
  | S count' =>
      let '(n', v_old', sent) := update_step h origin n v_old lag in
      let '(n'', sent') := update_loop h origin count' n' v_old' (lag + 1) in
      (n'', sent ++ sent')
  end.

(** [update( origin, from, to )] *)
Definition update (h : R) (origin : Z) (n : Node) (from to : Z)
    : Node * list SpikeEvent :=
  update_loop h origin (Z.to_nat (to - from)) n (V_m_ (S_ n)) from.

(** [handle( SpikeEvent& )]: the event's receptor port, its delivery
    step relative to the slice origin, weight and multiplicity. *)
Definition handle_spike (n : Node) (rport : Z) (rel_delivery_steps : Z)
    (weight : R) (multiplicity : Z) : Node :=
  let i := Z.to_nat (rport - 1) in
  set_spikes n
    (<[i := add_value (at_ [] (spikes_ (B_ n)) i) rel_delivery_steps
              (weight * IZR multiplicity)]> (spikes_ (B_ n))).

(** [handle( CurrentEvent& )] *)
Definition handle_current (n : Node) (rel_delivery_steps : Z)
    (weight current : R) : Node :=
  set_currents n
    (add_value (currents_ (B_ n)) rel_delivery_steps (weight * current)).

(** [Parameters_::get] and [State_::get].  The array datum that carries
    [tau_syn_] is the vector datum of the model, which is what
    [updateValue< std::vector< double > >] reads back. *)
Definition Parameters_get (p : Parameters_) (d : DictionaryDatum)
    : DictionaryDatum :=
  let d := def d names.V_th (DoubleDatum (th_inf_ p)) in
  let d := def d names.g (DoubleDatum (G_ p)) in
  let d := def d names.E_L (DoubleDatum (E_l_ p)) in
  let d := def d names.C_m (DoubleDatum (C_m_ p)) in
  let d := def d names.t_ref (DoubleDatum (t_ref_ p)) in
  let d := def d names.V_reset (DoubleDatum (V_reset_ p)) in
  let d := def d names.tau_syn (DoubleVectorDatum (tau_syn_ p)) in
  let d := def d "V_dynamics_method" (StringDatum (V_dynamics_method_ p)) in
  def d names.has_connections (BoolDatum (has_connections_ p)).

Definition State_get (s : State_) (d : DictionaryDatum) : DictionaryDatum :=
  def d names.V_m (DoubleDatum (V_m_ s)).

(** The nodes of a run at resolution [h]. *)
Inductive running (p31 p32 : R -> R -> R -> R -> R) (slots : nat) (h : R)
    : Node -> Prop :=
| running_calibrate n :
    running p31 p32 slots h (calibrate p31 p32 slots h n)
| running_update n origin from to :
    running p31 p32 slots h n ->
    running p31 p32 slots h (update h origin n from to).1
| running_handle_spike n rport steps w m :
    running p31 p32 slots h n ->
    running p31 p32 slots h (handle_spike n rport steps w m)
| running_handle_current n steps w c :
    running p31 p32 slots h n ->
    running p31 p32 slots h (handle_current n steps w c).

End glif_lif_psc.

(** ** Vocabulary of the properties *)

(** The synaptic drive that [synapse_loop] adds to the voltage: the terms
    of receptors [i], ..., [i + count - 1]. *)
Fixpoint syn_sum (P31 y1 P32 y2 : list R) (count i : nat) : R :=
  match count with
  | O => 0
  | S count' =>
      (nest.at_ 0 P31 i * nest.at_ 0 y1 i + nest.at_ 0 P32 i * nest.at_ 0 y2 i)
      + syn_sum P31 y1 P32 y2 count' (S i)
  end.

(** All per-receptor vectors of a [glif_lif_psc] node have one cell per
    receptor, as [calibrate] leaves them. *)
Definition psc_sized (n : glif_lif_psc.Node) : Prop :=
  let nr := glif_lif_psc.n_receptors_ (glif_lif_psc.P_ n) in
  length (glif_lif_psc.y1_ (glif_lif_psc.S_ n)) = nr
  /\ length (glif_lif_psc.y2_ (glif_lif_psc.S_ n)) = nr
  /\ length (glif_lif_psc.P11_ (glif_lif_psc.V_ n)) = nr
  /\ length (glif_lif_psc.P21_ (glif_lif_psc.V_ n)) = nr
  /\ length (glif_lif_psc.P22_ (glif_lif_psc.V_ n)) = nr
  /\ length (glif_lif_psc.P31_ (glif_lif_psc.V_ n)) = nr
  /\ length (glif_lif_psc.P32_ (glif_lif_psc.V_ n)) = nr
  /\ length (glif_lif_psc.PSCInitialValues_ (glif_lif_psc.V_ n)) = nr
  /\ length (glif_lif_psc.spikes_ (glif_lif_psc.B_ n)) = nr.

Section Coefficients.
Import nest glif_lif_psc.
Variables propagator_31 propagator_32 : R -> R -> R -> R -> R.
Variables h Tau_ : R.

(** What the coefficient loop keeps. *)
Definition calibrate_kept (n n' : Node) : Prop :=
  P_ n' = P_ n /\ S_ n' = S_ n
  /\ t_ref_remaining_ (V_ n') = t_ref_remaining_ (V_ n)
  /\ t_ref_total_ (V_ n') = t_ref_total_ (V_ n)
  /\ method_ (V_ n') = method_ (V_ n)
  /\ P30_ (V_ n') = P30_ (V_ n) /\ P33_ (V_ n') = P33_ (V_ n)
  /\ currents_ (B_ n') = currents_ (B_ n)
  /\ logger_ (B_ n') = logger_ (B_ n)
  /\ length (P11_ (V_ n')) = length (P11_ (V_ n))
  /\ length (P21_ (V_ n')) = length (P21_ (V_ n))
  /\ length (P22_ (V_ n')) = length (P22_ (V_ n))
  /\ length (P31_ (V_ n')) = length (P31_ (V_ n))
  /\ length (P32_ (V_ n')) = length (P32_ (V_ n))
  /\ length (PSCInitialValues_ (V_ n'))
     = length (PSCInitialValues_ (V_ n))
  /\ length (spikes_ (B_ n')) = length (spikes_ (B_ n)).

(** The coefficients of receptor [j], as the loop body computes them. *)
Definition coefficients_at (p : Parameters_) (v : Variables_) (j : nat)
    : Prop :=
  let tau := at_ 0 (tau_syn_ p) j in
  at_ 0 (P11_ v) j = exp (- h / tau)
  /\ at_ 0 (P22_ v) j = exp (- h / tau)
  /\ at_ 0 (P21_ v) j = h * exp (- h / tau)
  /\ at_ 0 (P31_ v) j = propagator_31 tau Tau_ (C_m_ p) h
  /\ at_ 0 (P32_ v) j = propagator_32 tau Tau_ (C_m_ p) h
  /\ at_ 0 (PSCInitialValues_ v) j = 1.0 * numerics_e / tau.

Definition coefficients_same (v v' : Variables_) (j : nat) : Prop :=
  P11_ v' !! j = P11_ v !! j /\ P22_ v' !! j = P22_ v !! j
  /\ P21_ v' !! j = P21_ v !! j /\ P31_ v' !! j = P31_ v !! j
  /\ P32_ v' !! j = P32_ v !! j
  /\ PSCInitialValues_ v' !! j = PSCInitialValues_ v !! j.

Definition coefficient_cells (v : Variables_) (j : nat) : Prop :=
  (j < length (P11_ v))%nat /\ (j < length (P21_ v))%nat
  /\ (j < length (P22_ v))%nat /\ (j < length (P31_ v))%nat
  /\ (j < length (P32_ v))%nat
  /\ (j < length (PSCInitialValues_ v))%nat.
End Coefficients.

(** Reading a status dictionary: the number an update leaves in a field,
    and the dictionaries whose entry [k], if any, is a number. *)
Definition dict_double (d : nest.DictionaryDatum) (k : string) (dflt : R) : R :=
  match d !! k with
  | Some (nest.DoubleDatum x) => x
  | _ => dflt
  end.

Definition double_entry_ok (d : nest.DictionaryDatum) (k : string) : Prop :=
  match d !! k with
  | None | Some (nest.DoubleDatum _) => True
  | Some _ => False
  end.

(** The message of the receptor-count check of [glif_lif_psc]. *)
Definition ports_message : string :=
  "The neuron has connections, therefore the number of ports cannot be reduced.".

(** A psc node with two receptors, both bound by a connection, and the
    update that takes the second one away. *)
Definition psc_two_receptors : glif_lif_psc.Parameters_ :=
  {| glif_lif_psc.th_inf_ := 0.0265 * 1.0e03;
     glif_lif_psc.G_ := 4.6951;
     glif_lif_psc.E_l_ := -0.0774 * 1.0e03;
     glif_lif_psc.C_m_ := 99.182;
     glif_lif_psc.t_ref_ := 0.5;
     glif_lif_psc.V_reset_ := 0.0;
     glif_lif_psc.tau_syn_ := [2.0; 3.0];
     glif_lif_psc.V_dynamics_method_ := "linear_forward_euler";
     glif_lif_psc.has_connections_ := true |}.

Definition drop_second_receptor : nest.DictionaryDatum :=
  {[ "tau_syn"%string := nest.DoubleVectorDatum [2.0] ]}.

(** An update naming a method that is neither of the two. *)
Definition bogus_method : nest.DictionaryDatum :=
  {[ "V_dynamics_method"%string := nest.StringDatum "bogus" ]}.

(** The variables of a psc node that only [calibrate] writes. *)
Definition psc_coefficients_kept (v v' : glif_lif_psc.Variables_) : Prop :=
  glif_lif_psc.t_ref_total_ v' = glif_lif_psc.t_ref_total_ v
  /\ glif_lif_psc.method_ v' = glif_lif_psc.method_ v
  /\ glif_lif_psc.P11_ v' = glif_lif_psc.P11_ v
  /\ glif_lif_psc.P21_ v' = glif_lif_psc.P21_ v
  /\ glif_lif_psc.P22_ v' = glif_lif_psc.P22_ v
  /\ glif_lif_psc.P31_ v' = glif_lif_psc.P31_ v
  /\ glif_lif_psc.P32_ v' = glif_lif_psc.P32_ v
  /\ glif_lif_psc.P30_ v' = glif_lif_psc.P30_ v
  /\ glif_lif_psc.P33_ v' = glif_lif_psc.P33_ v
  /\ glif_lif_psc.PSCInitialValues_ v' = glif_lif_psc.PSCInitialValues_ v.

(** The node as the voltage part of the loop body leaves it, before the
    alpha-shape loop runs. *)
Definition psc_voltage_part (h : R) (origin : Z) (n : glif_lif_psc.Node)
    (v_old : R) (lag : Z) : glif_lif_psc.Node * list nest.SpikeEvent :=
  if Rgt_dec (glif_lif_psc.t_ref_remaining_ (glif_lif_psc.V_ n)) 0.0
  then (glif_lif_psc.refractory_branch h n v_old, [])
  else
    glif_lif_psc.threshold_test h origin
      (glif_lif_psc.synapse_loop
         (glif_lif_psc.n_receptors_ (glif_lif_psc.P_ n))
         (glif_lif_psc.voltage_dynamics h n v_old) 0)
      v_old lag.

(** Sample nodes for the concrete instances below: threshold [0], unit
    conductance and capacitance, leak potential [1], refractory period
    [1.5] ms, reset to [0], forward Euler. *)
Definition lif_sample_parameters : glif_lif.Parameters_ :=
  {| glif_lif.th_inf_ := 0;
     glif_lif.G_ := 1;
     glif_lif.E_l_ := 1;
     glif_lif.C_m_ := 1;
     glif_lif.t_ref_ := 1.5;
     glif_lif.V_reset_ := 0;
     glif_lif.V_dynamics_method_ := "linear_forward_euler" |}.

Definition lif_sample (V_m I t_ref_remaining : R) : glif_lif.Node :=
  {| glif_lif.P_ := lif_sample_parameters;
     glif_lif.S_ := {| glif_lif.V_m_ := V_m; glif_lif.I_ := I |};
     glif_lif.V_ := {| glif_lif.t_ref_remaining_ := t_ref_remaining;
                       glif_lif.t_ref_total_ := 1.5 * 1.0e-03 |};
     glif_lif.B_ := {| glif_lif.spikes_ := [0; 0; 0; 0];
                       glif_lif.currents_ := [0; 0; 0; 0];
                       glif_lif.logger_ := [] |} |}.

Definition psc_sample_parameters : glif_lif_psc.Parameters_ :=
  {| glif_lif_psc.th_inf_ := 0;
     glif_lif_psc.G_ := 1;
     glif_lif_psc.E_l_ := 1;
     glif_lif_psc.C_m_ := 1;
     glif_lif_psc.t_ref_ := 1.5;
     glif_lif_psc.V_reset_ := 0;
     glif_lif_psc.tau_syn_ := [2];
     glif_lif_psc.V_dynamics_method_ := "linear_forward_euler";
     glif_lif_psc.has_connections_ := false |}.

Definition psc_sample (V_m I t_ref_remaining : R) : glif_lif_psc.Node :=
  {| glif_lif_psc.P_ := psc_sample_parameters;
     glif_lif_psc.S_ := {| glif_lif_psc.V_m_ := V_m; glif_lif_psc.I_ := I;
                           glif_lif_psc.y1_ := [0];
                           glif_lif_psc.y2_ := [0] |};
     glif_lif_psc.V_ :=
       {| glif_lif_psc.t_ref_remaining_ := t_ref_remaining;
          glif_lif_psc.t_ref_total_ := 1.5;
          glif_lif_psc.method_ := 0;
          glif_lif_psc.P11_ := [exp (- 1 / 2)];
          glif_lif_psc.P21_ := [1 * exp (- 1 / 2)];
          glif_lif_psc.P22_ := [exp (- 1 / 2)];
          glif_lif_psc.P31_ := [0];
          glif_lif_psc.P32_ := [0];
          glif_lif_psc.P30_ := 1 / 1 * (1 - exp (- 1 / (1 / 1))) * (1 / 1);
          glif_lif_psc.P33_ := exp (- 1 / (1 / 1));
          glif_lif_psc.PSCInitialValues_ := [1.0 * nest.numerics_e / 2] |};
     glif_lif_psc.B_ := {| glif_lif_psc.spikes_ := [[0; 0; 0; 0]];
                           glif_lif_psc.currents_ := [0; 0; 0; 0];
                           glif_lif_psc.logger_ := [] |} |}.

(** Following the words of the specification: the time, counted from the
    start of a step of length [h], at which the straight line from [v_old]
    to [v_new] reaches the threshold. *)
Definition crossing_time (th v_old v_new h : R) : R :=
  (th - v_old) / (v_new - v_old) * h.

(** Following the words of the specification: the offset tends to the step
    size as the crossing occurs arbitrarily late within the step. *)
Definition offset_tends_to_step_when_late (h : R) : Prop :=
  forall eps, 0 < eps ->
  exists delta, 0 < delta /\
    forall th v_old v_new,
      v_old <= th -> v_new > th ->
      h - crossing_time th v_old v_new h < delta ->
      Rabs (glif_lif.spike_offset th v_old v_new h - h) < eps.

(** What the code does instead: the offset tends to the step size as the
    crossing occurs arbitrarily early within the step. *)
Definition offset_tends_to_step_when_early (h : R) : Prop :=
  forall eps, 0 < eps ->
  exists delta, 0 < delta /\
    forall th v_old v_new,
      v_old <= th -> v_new > th ->
      crossing_time th v_old v_new h < delta ->
      Rabs (glif_lif.spike_offset th v_old v_new h - h) < eps.

(** A plain node whose next step rises from [0] to [1] through the
    threshold [0.9]: a crossing after nine tenths of the step. *)
Definition lif_late_crossing : glif_lif.Node :=
  {| glif_lif.P_ :=
       {| glif_lif.th_inf_ := 0.9;
          glif_lif.G_ := 1;
          glif_lif.E_l_ := 0;
          glif_lif.C_m_ := 1;
          glif_lif.t_ref_ := 1.5;
          glif_lif.V_reset_ := 0;
          glif_lif.V_dynamics_method_ := "linear_forward_euler" |};
     glif_lif.S_ := {| glif_lif.V_m_ := 0; glif_lif.I_ := 1000 |};
     glif_lif.V_ := {| glif_lif.t_ref_remaining_ := 0;
                       glif_lif.t_ref_total_ := 1.5 * 1.0e-03 |};
     glif_lif.B_ := {| glif_lif.spikes_ := [0; 0; 0; 0];
                       glif_lif.currents_ := [0; 0; 0; 0];
                       glif_lif.logger_ := [] |} |}.

(** What holds of the refractory timer of a plain node during a run at
    resolution [h], and of a psc node. *)
Definition lif_timer_ok (h : R) (n : glif_lif.Node) : Prop :=
  glif_lif.t_ref_total_ (glif_lif.V_ n)
  = glif_lif.t_ref_ (glif_lif.P_ n) * 1.0e-03
  /\ (0 <= glif_lif.t_ref_ (glif_lif.P_ n) ->
      - (h * 1.0e-03) <= glif_lif.t_ref_remaining_ (glif_lif.V_ n)).

Definition psc_timer_ok (h : R) (n : glif_lif_psc.Node) : Prop :=
  glif_lif_psc.t_ref_total_ (glif_lif_psc.V_ n)
  = glif_lif_psc.t_ref_ (glif_lif_psc.P_ n)
  /\ (0 <= glif_lif_psc.t_ref_ (glif_lif_psc.P_ n) ->
      - h <= glif_lif_psc.t_ref_remaining_ (glif_lif_psc.V_ n)).

(** What holds of a psc node during a run at resolution [h]: one cell per
    receptor everywhere, and in the coefficient vectors the values
    [calibrate] computed from the time constants. *)
Definition psc_calibrated (p31 p32 : R -> R -> R -> R -> R) (h : R)
    (n : glif_lif_psc.Node) : Prop :=
  psc_sized n
  /\ forall j, (j < glif_lif_psc.n_receptors_ (glif_lif_psc.P_ n))%nat ->
       coefficients_at p31 p32 h
         (glif_lif_psc.C_m_ (glif_lif_psc.P_ n)
          / glif_lif_psc.G_ (glif_lif_psc.P_ n))
         (glif_lif_psc.P_ n) (glif_lif_psc.V_ n) j.

(** The plain node [n] with another value [c] waiting in slot [k] of its
    current buffer, and with another value in [I_]. *)
Definition with_current (n : glif_lif.Node) (k : nat) (c : R) : glif_lif.Node :=
  glif_lif.set_currents n (<[k := c]> (glif_lif.currents_ (glif_lif.B_ n))).

(** The string an update leaves in a field, and the dictionaries whose
    entry [k], if any, is a string or a vector. *)
Definition dict_string (d : nest.DictionaryDatum) (k : string) (dflt : string)
    : string :=
  match d !! k with
  | Some (nest.StringDatum x) => x
  | _ => dflt
  end.

Definition string_entry_ok (d : nest.DictionaryDatum) (k : string) : Prop :=
  match d !! k with
  | None | Some (nest.StringDatum _) => True
  | Some _ => False
  end.

(** The dictionaries [glif_lif::Parameters_::set] can read: each of its
    seven keys is absent or holds a datum of the field's type. *)
Definition lif_dict_ok (d : nest.DictionaryDatum) : Prop :=
  double_entry_ok d nest.names.V_th
  /\ double_entry_ok d nest.names.g
  /\ double_entry_ok d nest.names.E_L
  /\ double_entry_ok d nest.names.C_m
  /\ double_entry_ok d nest.names.t_ref
  /\ double_entry_ok d nest.names.V_reset
  /\ string_entry_ok d "V_dynamics_method".

(** The parameters with the entries of such a dictionary written over
    them. *)
Definition lif_merge (p : glif_lif.Parameters_) (d : nest.DictionaryDatum)
    : glif_lif.Parameters_ :=
  {| glif_lif.th_inf_ := dict_double d nest.names.V_th (glif_lif.th_inf_ p);
     glif_lif.G_ := dict_double d nest.names.g (glif_lif.G_ p);
     glif_lif.E_l_ := dict_double d nest.names.E_L (glif_lif.E_l_ p);
     glif_lif.C_m_ := dict_double d nest.names.C_m (glif_lif.C_m_ p);
     glif_lif.t_ref_ := dict_double d nest.names.t_ref (glif_lif.t_ref_ p);
     glif_lif.V_reset_ :=
       dict_double d nest.names.V_reset (glif_lif.V_reset_ p);
     glif_lif.V_dynamics_method_ :=
       dict_string d "V_dynamics_method" (glif_lif.V_dynamics_method_ p) |}.

(** The message of the time-constant check of [glif_lif_psc]. *)
Definition positive_message : string :=
  "All synaptic time constants must be strictly positive.".

(** The scalar part of an update of the psc parameters. *)
Definition psc_scalars_ok (d : nest.DictionaryDatum) : Prop :=
  double_entry_ok d nest.names.V_th
  /\ double_entry_ok d nest.names.g
  /\ double_entry_ok d nest.names.E_L
  /\ double_entry_ok d nest.names.C_m
  /\ double_entry_ok d nest.names.t_ref
  /\ double_entry_ok d nest.names.V_reset
  /\ string_entry_ok d "V_dynamics_method".

Definition psc_merge (p : glif_lif_psc.Parameters_) (d : nest.DictionaryDatum)
    (tau_syn : list R) : glif_lif_psc.Parameters_ :=
  {| glif_lif_psc.th_inf_ :=
       dict_double d nest.names.V_th (glif_lif_psc.th_inf_ p);
     glif_lif_psc.G_ := dict_double d nest.names.g (glif_lif_psc.G_ p);
     glif_lif_psc.E_l_ := dict_double d nest.names.E_L (glif_lif_psc.E_l_ p);
     glif_lif_psc.C_m_ := dict_double d nest.names.C_m (glif_lif_psc.C_m_ p);
     glif_lif_psc.t_ref_ :=
       dict_double d nest.names.t_ref (glif_lif_psc.t_ref_ p);
     glif_lif_psc.V_reset_ :=
       dict_double d nest.names.V_reset (glif_lif_psc.V_reset_ p);
     glif_lif_psc.tau_syn_ := tau_syn;
     glif_lif_psc.V_dynamics_method_ :=
       dict_string d "V_dynamics_method" (glif_lif_psc.V_dynamics_method_ p);
     glif_lif_psc.has_connections_ := glif_lif_psc.has_connections_ p |}.

(** Updates of the psc default parameters with two time constants, and
    with one that is not positive. *)
Definition two_time_constants : nest.DictionaryDatum :=
  {[ "tau_syn"%string := nest.DoubleVectorDatum [2; 5] ]}.

Definition zero_time_constant : nest.DictionaryDatum :=
  {[ "tau_syn"%string := nest.DoubleVectorDatum [2; 0] ]}.

(** The psc sample node once a connection to its receptor is accepted. *)
Definition psc_sample_bound : glif_lif_psc.Node :=
  let n := psc_sample 0 0 0 in
  let p := glif_lif_psc.P_ n in
  {| glif_lif_psc.P_ :=
       {| glif_lif_psc.th_inf_ := glif_lif_psc.th_inf_ p;
          glif_lif_psc.G_ := glif_lif_psc.G_ p;
          glif_lif_psc.E_l_ := glif_lif_psc.E_l_ p;
          glif_lif_psc.C_m_ := glif_lif_psc.C_m_ p;
          glif_lif_psc.t_ref_ := glif_lif_psc.t_ref_ p;
          glif_lif_psc.V_reset_ := glif_lif_psc.V_reset_ p;
          glif_lif_psc.tau_syn_ := glif_lif_psc.tau_syn_ p;
          glif_lif_psc.V_dynamics_method_ :=
            glif_lif_psc.V_dynamics_method_ p;
          glif_lif_psc.has_connections_ := true |};
     glif_lif_psc.S_ := glif_lif_psc.S_ n;
     glif_lif_psc.V_ := glif_lif_psc.V_ n;
     glif_lif_psc.B_ := glif_lif_psc.B_ n |}.

(** A ring buffer whose slots [from], ..., [to - 1] have been read: they
    hold [0], the other slots what they held. *)
Definition read_slots (b : nest.RingBuffer) (from to : Z) : nest.RingBuffer :=
  imap (fun j x => if bool_decide (from <= Z.of_nat j < to)%Z then 0 else x) b.

(** The plain node with the membrane parameters, the voltage, the current
    and the refractory timer of a psc node. *)
Definition plain_of (m : glif_lif_psc.Node) : glif_lif.Node :=
  let p := glif_lif_psc.P_ m in
  {| glif_lif.P_ :=
       {| glif_lif.th_inf_ := glif_lif_psc.th_inf_ p;
          glif_lif.G_ := glif_lif_psc.G_ p;
          glif_lif.E_l_ := glif_lif_psc.E_l_ p;
          glif_lif.C_m_ := glif_lif_psc.C_m_ p;
          glif_lif.t_ref_ := glif_lif_psc.t_ref_ p;
          glif_lif.V_reset_ := glif_lif_psc.V_reset_ p;
          glif_lif.V_dynamics_method_ := glif_lif_psc.V_dynamics_method_ p |};
     glif_lif.S_ :=
       {| glif_lif.V_m_ := glif_lif_psc.V_m_ (glif_lif_psc.S_ m);
          glif_lif.I_ := glif_lif_psc.I_ (glif_lif_psc.S_ m) |};
     glif_lif.V_ :=
       {| glif_lif.t_ref_remaining_ :=
            glif_lif_psc.t_ref_remaining_ (glif_lif_psc.V_ m);
          glif_lif.t_ref_total_ :=
            glif_lif_psc.t_ref_total_ (glif_lif_psc.V_ m) |};
     glif_lif.B_ :=
       {| glif_lif.spikes_ := [];
          glif_lif.currents_ := glif_lif_psc.currents_ (glif_lif_psc.B_ m);
          glif_lif.logger_ := [] |} |}.

(** Every receptor of a psc node has a spike buffer of the size the kernel
    asks for. *)
Definition psc_buffers_sized (slots : nat) (n : glif_lif_psc.Node) : Prop :=
  forall j, (j < glif_lif_psc.n_receptors_ (glif_lif_psc.P_ n))%nat ->
    length (nest.at_ [] (glif_lif_psc.spikes_ (glif_lif_psc.B_ n)) j) = slots.

(** ** Properties *)

(** *** The interpolation formula *)

Section Interpolation.
Variables th v_old v_new h : R.
Hypothesis below : v_old <= th.
Hypothesis above : v_new > th.

Lemma crossing_fraction_bounds :
  0 <= (th - v_old) / (v_new - v_old) < 1.
Proof.
  assert (Hd : 0 < v_new - v_old) by lra.
  split.
  - apply Rmult_le_pos; [lra | left; apply Rinv_0_lt_compat; lra].
  - apply Rmult_lt_reg_r with (v_new - v_old); [lra |].
    unfold Rdiv. rewrite Rmult_assoc, Rinv_l by lra. lra.
Qed.

Lemma interpolation_bounds :
  0 <= h -> 0 <= (1 - (th - v_old) / (v_new - v_old)) * h <= h.
Proof.
  intros Hh. pose proof crossing_fraction_bounds as [H0 H1].
  split; [apply Rmult_le_pos; lra | nra].
Qed.

Lemma interpolation_positive :
  0 < h -> 0 < (1 - (th - v_old) / (v_new - v_old)) * h.
Proof.
  intros Hh. pose proof crossing_fraction_bounds as [H0 H1].
  apply Rmult_lt_0_compat; lra.
Qed.
End Interpolation.

(** *** One step of [glif_lif::update] *)

Section glif_lif_step.
Import nest glif_lif.
Variables (h : R) (origin : Z).

Lemma lif_drain_and_record_eq n lag :
  drain_and_record origin n lag =
  record_data
    (set_I (set_currents n (get_value (currents_ (B_ n)) lag).2)
           (get_value (currents_ (B_ n)) lag).1)
    (origin + lag).
Proof. unfold drain_and_record. destruct (get_value _ _); reflexivity. Qed.

Lemma lif_drain_and_record_frame n lag :
  P_ (drain_and_record origin n lag) = P_ n
  /\ V_ (drain_and_record origin n lag) = V_ n
  /\ V_m_ (S_ (drain_and_record origin n lag)) = V_m_ (S_ n).
Proof. rewrite lif_drain_and_record_eq. auto. Qed.

Lemma lif_update_step_unfold n v_old lag :
  update_step h origin n v_old lag =
  let r :=
    if Rgt_dec (t_ref_remaining_ (V_ n)) 0.0
    then (refractory_branch (h * 1.0e-03) n v_old, [])
    else threshold_test h origin
           (voltage_dynamics (h * 1.0e-03) n v_old) v_old lag in
  (drain_and_record origin r.1 lag, V_m_ (S_ r.1), r.2).
Proof.
  unfold update_step.
  destruct (Rgt_dec _ _); [| destruct (threshold_test _ _ _ _ _)];
    simpl; f_equal; f_equal; apply lif_drain_and_record_frame.
Qed.

Lemma lif_update_step_v_old n v_old lag :
  (update_step h origin n v_old lag).1.2
  = V_m_ (S_ (update_step h origin n v_old lag).1.1).
Proof. unfold update_step. destruct (if Rgt_dec _ _ then _ else _). reflexivity. Qed.

Lemma lif_step_refractory n v_old lag :
  t_ref_remaining_ (V_ n) > 0 ->
  update_step h origin n v_old lag =
  (drain_and_record origin (refractory_branch (h * 1.0e-03) n v_old) lag,
   V_m_ (S_ (refractory_branch (h * 1.0e-03) n v_old)), []).
Proof.
  intros Href. rewrite lif_update_step_unfold.
  destruct (Rgt_dec _ _); [reflexivity | lra].
Qed.

Lemma lif_step_integrating n v_old lag :
  t_ref_remaining_ (V_ n) <= 0 ->
  update_step h origin n v_old lag =
  let r := threshold_test h origin
             (voltage_dynamics (h * 1.0e-03) n v_old) v_old lag in
  (drain_and_record origin r.1 lag, V_m_ (S_ r.1), r.2).
Proof.
  intros Href. rewrite lif_update_step_unfold.
  destruct (Rgt_dec _ _); [lra | reflexivity].
Qed.

Lemma lif_refractory_branch_spec dt n v_old :
  let n' := refractory_branch dt n v_old in
  t_ref_remaining_ (V_ n') = t_ref_remaining_ (V_ n) - dt
  /\ t_ref_total_ (V_ n') = t_ref_total_ (V_ n)
  /\ P_ n' = P_ n
  /\ B_ n' = B_ n
  /\ (t_ref_remaining_ (V_ n) - dt > 0 -> V_m_ (S_ n') = v_old)
  /\ (t_ref_remaining_ (V_ n) - dt <= 0 -> V_m_ (S_ n') = V_reset_ (P_ n)).
Proof.
  unfold refractory_branch. simpl.
  destruct (Rle_dec _ _); simpl; repeat split; auto; intros; lra.
Qed.

Lemma lif_voltage_dynamics_frame dt n v_old :
  P_ (voltage_dynamics dt n v_old) = P_ n
  /\ V_ (voltage_dynamics dt n v_old) = V_ n
  /\ B_ (voltage_dynamics dt n v_old) = B_ n
  /\ I_ (S_ (voltage_dynamics dt n v_old)) = I_ (S_ n).
Proof.
  unfold voltage_dynamics.
  repeat destruct (String.eqb _ _); simpl; auto.
Qed.

Lemma lif_threshold_test_crossing n v_old lag :
  V_m_ (S_ n) > th_inf_ (P_ n) ->
  threshold_test h origin n v_old lag =
  (set_t_ref_remaining n (t_ref_total_ (V_ n)),
   [ {| t_sp := origin + lag + 1;
        offset := computed_offset (th_inf_ (P_ n)) v_old (V_m_ (S_ n)) h;
        sent_lag := lag |} ]).
Proof.
  intros Hc. unfold threshold_test.
  destruct (Rgt_dec _ _); [reflexivity | lra].
Qed.

End glif_lif_step.

(** *** Vectors *)

Lemma at_insert_eq {T} (d x : T) (v : list T) (i : nat) :
  (i < length v)%nat -> nest.at_ d (<[i := x]> v) i = x.
Proof. intros Hi. unfold nest.at_. by rewrite list_lookup_insert_eq. Qed.

Lemma at_insert_ne {T} (d x : T) (v : list T) (i j : nat) :
  i <> j -> nest.at_ d (<[i := x]> v) j = nest.at_ d v j.
Proof. intros Hij. unfold nest.at_. by rewrite list_lookup_insert_ne. Qed.

Lemma at_ext {T} (d : T) (v w : list T) (i : nat) :
  v !! i = w !! i -> nest.at_ d v i = nest.at_ d w i.
Proof. intros E. unfold nest.at_. by rewrite E. Qed.

Lemma length_resize {T} (d : T) (n : nat) (v : list T) :
  length (nest.resize d n v) = n.
Proof.
  unfold nest.resize. rewrite length_app, length_take, length_replicate. lia.
Qed.

(** *** One step of [glif_lif_psc::update] *)

Section glif_lif_psc_step.
Import nest glif_lif_psc.
Variables (h : R) (origin : Z).

Lemma psc_drain_and_record_eq n lag :
  drain_and_record origin n lag =
  record_data
    (set_I (set_currents n (get_value (currents_ (B_ n)) lag).2)
           (get_value (currents_ (B_ n)) lag).1)
    (origin + lag).
Proof. unfold drain_and_record. destruct (get_value _ _); reflexivity. Qed.

Lemma psc_drain_and_record_frame n lag :
  let n' := drain_and_record origin n lag in
  P_ n' = P_ n /\ V_ n' = V_ n
  /\ V_m_ (S_ n') = V_m_ (S_ n)
  /\ y1_ (S_ n') = y1_ (S_ n) /\ y2_ (S_ n') = y2_ (S_ n)
  /\ spikes_ (B_ n') = spikes_ (B_ n).
Proof. simpl. rewrite psc_drain_and_record_eq. simpl. auto 10. Qed.

(** The alpha-shape loop body at receptor [i]. *)
Lemma psc_receptor_spec n lag i :
  let n' := psc_receptor n lag i in
  let s := get_value (at_ [] (spikes_ (B_ n)) i) lag in
  P_ n' = P_ n /\ V_ n' = V_ n
  /\ V_m_ (S_ n') = V_m_ (S_ n) /\ I_ (S_ n') = I_ (S_ n)
  /\ currents_ (B_ n') = currents_ (B_ n)
  /\ logger_ (B_ n') = logger_ (B_ n)
  /\ y2_ (S_ n') =
       <[i := at_ 0 (P21_ (V_ n)) i * at_ 0 (y1_ (S_ n)) i
              + at_ 0 (P22_ (V_ n)) i * at_ 0 (y2_ (S_ n)) i]> (y2_ (S_ n))
  /\ y1_ (S_ n') =
       <[i := at_ 0 (y1_ (S_ n)) i * at_ 0 (P11_ (V_ n)) i
              + at_ 0 (PSCInitialValues_ (V_ n)) i * s.1]> (y1_ (S_ n))
  /\ spikes_ (B_ n') = <[i := s.2]> (spikes_ (B_ n)).
Proof.
  unfold psc_receptor. simpl.
  destruct (get_value _ _) as [s b]. simpl.
  repeat split; try reflexivity.
  destruct (decide (i < length (y1_ (S_ n)))%nat) as [Hi | Hi].
  - rewrite at_insert_eq by done. by rewrite list_insert_insert_eq.
  - rewrite !list_insert_ge by (rewrite ?length_insert; lia). done.
Qed.
End glif_lif_psc_step.

(** *** The alpha-shape loop *)

Section glif_lif_psc_loops.
Import nest glif_lif_psc.

Lemma psc_loop_frame count : forall n lag i,
  let n' := psc_loop count n lag i in
  P_ n' = P_ n /\ V_ n' = V_ n
  /\ V_m_ (S_ n') = V_m_ (S_ n) /\ I_ (S_ n') = I_ (S_ n)
  /\ currents_ (B_ n') = currents_ (B_ n)
  /\ logger_ (B_ n') = logger_ (B_ n)
  /\ length (y1_ (S_ n')) = length (y1_ (S_ n))
  /\ length (y2_ (S_ n')) = length (y2_ (S_ n))
  /\ length (spikes_ (B_ n')) = length (spikes_ (B_ n)).
Proof.
  induction count as [| count IH]; intros n lag i; simpl; [auto 10 |].
  specialize (IH (psc_receptor n lag i) lag (S i)). simpl in IH.
  destruct IH as (-> & -> & -> & -> & -> & -> & -> & -> & ->).
  destruct (psc_receptor_spec n lag i)
    as (-> & -> & -> & -> & -> & -> & -> & -> & ->).
  rewrite !length_insert. auto 10.
Qed.

(** Receptors outside the range of the loop are left alone. *)
Lemma psc_loop_other count : forall n lag i j,
  (j < i \/ i + count <= j)%nat ->
  let n' := psc_loop count n lag i in
  y1_ (S_ n') !! j = y1_ (S_ n) !! j
  /\ y2_ (S_ n') !! j = y2_ (S_ n) !! j
  /\ spikes_ (B_ n') !! j = spikes_ (B_ n) !! j.
Proof.
  induction count as [| count IH]; intros n lag i j Hj; simpl; [auto |].
  specialize (IH (psc_receptor n lag i) lag (S i) j). simpl in IH.
  destruct IH as (-> & -> & ->); [lia |].
  destruct (psc_receptor_spec n lag i)
    as (_ & _ & _ & _ & _ & _ & -> & -> & ->).
  rewrite !list_lookup_insert_ne by lia. auto.
Qed.

(** Each receptor in the range is advanced once, from its own old cells. *)
Lemma psc_loop_at count : forall n lag i j,
  (i <= j < i + count)%nat ->
  (j < length (y1_ (S_ n)))%nat ->
  (j < length (y2_ (S_ n)))%nat ->
  (j < length (spikes_ (B_ n)))%nat ->
  let n' := psc_loop count n lag i in
  let s := get_value (at_ [] (spikes_ (B_ n)) j) lag in
  at_ 0 (y2_ (S_ n')) j =
    at_ 0 (P21_ (V_ n)) j * at_ 0 (y1_ (S_ n)) j
    + at_ 0 (P22_ (V_ n)) j * at_ 0 (y2_ (S_ n)) j
  /\ at_ 0 (y1_ (S_ n')) j =
       at_ 0 (y1_ (S_ n)) j * at_ 0 (P11_ (V_ n)) j
       + at_ 0 (PSCInitialValues_ (V_ n)) j * s.1
  /\ at_ [] (spikes_ (B_ n')) j = s.2.
Proof.
  induction count as [| count IH]; intros n lag i j Hj H1 H2 H3; [lia |].
  simpl.
  pose proof (psc_receptor_spec n lag i) as Hr. simpl in Hr.
  destruct Hr as (_ & HV & _ & _ & _ & _ & Hy2 & Hy1 & Hsp).
  destruct (decide (j = i)) as [-> | Hne].
  - pose proof (psc_loop_other count (psc_receptor n lag i) lag (S i) i)
      as Ho. simpl in Ho. destruct Ho as (Ho1 & Ho2 & Ho3); [lia |].
    rewrite (at_ext _ _ _ _ Ho1), (at_ext _ _ _ _ Ho2), (at_ext _ _ _ _ Ho3).
    rewrite Hy1, Hy2, Hsp, !at_insert_eq by done. auto.
  - specialize (IH (psc_receptor n lag i) lag (S i) j). simpl in IH.
    rewrite HV, Hy1, Hy2, Hsp in IH.
    rewrite !length_insert, !at_insert_ne in IH by done.
    apply IH; auto; lia.
Qed.

(** The synaptic loop adds the synaptic drive and nothing else. *)
Lemma synapse_loop_spec count : forall n i,
  let n' := synapse_loop count n i in
  P_ n' = P_ n /\ V_ n' = V_ n /\ B_ n' = B_ n
  /\ I_ (S_ n') = I_ (S_ n)
  /\ y1_ (S_ n') = y1_ (S_ n) /\ y2_ (S_ n') = y2_ (S_ n)
  /\ V_m_ (S_ n') =
       V_m_ (S_ n)
       + syn_sum (P31_ (V_ n)) (y1_ (S_ n)) (P32_ (V_ n)) (y2_ (S_ n))
           count i.
Proof.
  induction count as [| count IH]; intros n i; simpl.
  - repeat split; auto. lra.
  - specialize (IH (add_synapse n i) (S i)). simpl in IH.
    destruct IH as (-> & -> & -> & -> & -> & -> & ->). simpl.
    repeat split; auto. lra.
Qed.
End glif_lif_psc_loops.

(** *** [glif_lif_psc::calibrate] *)

Section glif_lif_psc_calibrate.
Import nest glif_lif_psc.
Variables propagator_31 propagator_32 : R -> R -> R -> R -> R.
Variable slots : nat.
Variables h Tau_ : R.

Local Abbreviation calibrate_receptor :=
  (calibrate_receptor propagator_31 propagator_32 slots h Tau_).
Local Abbreviation calibrate_loop :=
  (calibrate_loop propagator_31 propagator_32 slots h Tau_).
Local Abbreviation coefficients_at :=
  (coefficients_at propagator_31 propagator_32 h Tau_).

Lemma calibrate_receptor_kept n i : calibrate_kept n (calibrate_receptor n i).
Proof.
  unfold calibrate_kept, glif_lif_psc.calibrate_receptor. simpl.
  rewrite !length_insert. auto 20.
Qed.

Lemma calibrate_loop_kept count : forall n i,
  calibrate_kept n (calibrate_loop count n i).
Proof.
  induction count as [| count IH]; intros n i; simpl.
  - unfold calibrate_kept. auto 20.
  - specialize (IH (calibrate_receptor n i) (S i)).
    pose proof (calibrate_receptor_kept n i) as Hk.
    unfold calibrate_kept in *.
    repeat match goal with H : _ /\ _ |- _ => destruct H end.
    repeat split; congruence.
Qed.

Lemma calibrate_loop_other count : forall n i j,
  (j < i \/ i + count <= j)%nat ->
  coefficients_same (V_ n) (V_ (calibrate_loop count n i)) j.
Proof.
  induction count as [| count IH]; intros n i j Hj; simpl.
  - unfold coefficients_same. auto 10.
  - specialize (IH (calibrate_receptor n i) (S i) j).
    unfold coefficients_same in *.
    destruct IH as (-> & -> & -> & -> & -> & ->); [lia |].
    unfold glif_lif_psc.calibrate_receptor. simpl.
    rewrite !list_lookup_insert_ne by lia. auto 10.
Qed.

Lemma calibrate_loop_at count : forall n i j,
  (i <= j < i + count)%nat ->
  coefficient_cells (V_ n) j ->
  coefficients_at (P_ n) (V_ (calibrate_loop count n i)) j.
Proof.
  induction count as [| count IH]; intros n i j Hj Hc; [lia |].
  simpl. destruct (decide (j = i)) as [-> | Hne].
  - pose proof (calibrate_loop_other count (calibrate_receptor n i) (S i) i)
      as Ho.
    destruct Ho as (H1 & H2 & H3 & H4 & H5 & H6); [lia |].
    destruct Hc as (? & ? & ? & ? & ? & ?).
    unfold coefficients_at.
    rewrite (at_ext _ _ _ _ H1), (at_ext _ _ _ _ H2), (at_ext _ _ _ _ H3),
      (at_ext _ _ _ _ H4), (at_ext _ _ _ _ H5), (at_ext _ _ _ _ H6).
    unfold glif_lif_psc.calibrate_receptor. simpl.
    rewrite !at_insert_eq by done. auto 10.
  - pose proof (calibrate_receptor_kept n i) as Hk.
    unfold calibrate_kept in Hk.
    destruct Hk as (HP & _ & _ & _ & _ & _ & _ & _ & _ & L1 & L2 & L3 & L4
                    & L5 & L6 & _).
    rewrite <- HP. apply IH; [lia |].
    unfold coefficient_cells in *. rewrite L1, L2, L3, L4, L5, L6. done.
Qed.
End glif_lif_psc_calibrate.

Section glif_lif_psc_calibrated.
Import nest glif_lif_psc.
Variables propagator_31 propagator_32 : R -> R -> R -> R -> R.
Variable slots : nat.
Variable h : R.

Lemma psc_calibrate_spec n :
  let n' := calibrate propagator_31 propagator_32 slots h n in
  let p := P_ n in
  let Tau_ := C_m_ p / G_ p in
  P_ n' = p
  /\ V_m_ (S_ n') = V_m_ (S_ n) /\ I_ (S_ n') = I_ (S_ n)
  /\ t_ref_remaining_ (V_ n') = 0.0
  /\ t_ref_total_ (V_ n') = t_ref_ p
  /\ method_ (V_ n')
     = (if String.eqb (V_dynamics_method_ p) "linear_exact"
        then 1%Z else 0%Z)
  /\ P33_ (V_ n') = exp (- h / Tau_)
  /\ P30_ (V_ n') = 1 / C_m_ p * (1 - exp (- h / Tau_)) * Tau_
  /\ psc_sized n'
  /\ forall j, (j < n_receptors_ p)%nat ->
       coefficients_at propagator_31 propagator_32 h Tau_ p (V_ n') j.
Proof.
  intros n' p Tau_. subst n'. unfold calibrate. fold p. fold Tau_.
  match goal with
  | |- context [calibrate_loop _ _ _ _ _ _ ?m 0%nat] => set (start := m)
  end.
  pose proof (calibrate_loop_kept propagator_31 propagator_32 slots h Tau_
                (n_receptors_ p) start 0%nat) as Hk.
  unfold calibrate_kept in Hk.
  destruct Hk as (HP & HS & Hr & Ht & Hm & H30 & H33 & _ & _ & L1 & L2 & L3
                  & L4 & L5 & L6 & L7).
  assert (Hsz : psc_sized (calibrate_loop propagator_31 propagator_32 slots
                             h Tau_ (n_receptors_ p) start 0%nat)).
  { unfold psc_sized. rewrite HP, HS, L1, L2, L3, L4, L5, L6, L7.
    subst start. cbn [P_ S_ V_ B_ y1_ y2_ P11_ P21_ P22_ P31_ P32_
                      PSCInitialValues_ spikes_].
    rewrite !length_resize. auto 10. }
  assert (Hco : forall j, (j < n_receptors_ p)%nat ->
            coefficients_at propagator_31 propagator_32 h Tau_ p
              (V_ (calibrate_loop propagator_31 propagator_32 slots
                     h Tau_ (n_receptors_ p) start 0%nat)) j).
  { intros j Hj.
    refine (calibrate_loop_at propagator_31 propagator_32 slots h Tau_
              (n_receptors_ p) start 0%nat j _ _); [lia |].
    unfold coefficient_cells. subst start.
    cbn [P_ V_ P11_ P21_ P22_ P31_ P32_ PSCInitialValues_].
    rewrite !length_resize. auto 10. }
  rewrite HP, HS, Hr, Ht, Hm, H30, H33.
  subst start. cbn [P_ S_ V_ V_m_ I_ t_ref_remaining_ t_ref_total_ method_
                    P30_ P33_].
  auto 15.
Qed.
End glif_lif_psc_calibrated.

(** *** Method resolution in [glif_lif_psc::calibrate] *)

(** C10.  [calibrate] of the psc model is a total function of the node and
    resolves the method flag without any failure: [method_] is [1] exactly
    when [V_dynamics_method_] is ["linear_exact"] and [0] for every other
    string, recognised or not; with the flag [0] the integrating step
    applies the forward Euler formula. *)
Theorem psc_calibrate_resolves_method
    (p31 p32 : R -> R -> R -> R -> R) (slots : nat) (h : R)
    (n : glif_lif_psc.Node) (dt v_old : R) :
  let n' := glif_lif_psc.calibrate p31 p32 slots h n in
  let p := glif_lif_psc.P_ n in
  let s := glif_lif_psc.V_dynamics_method_ p in
  glif_lif_psc.method_ (glif_lif_psc.V_ n')
    = (if String.eqb s "linear_exact" then 1%Z else 0%Z)
  /\ (glif_lif_psc.method_ (glif_lif_psc.V_ n') = 1%Z
      <-> s = "linear_exact"%string)
  /\ (glif_lif_psc.method_ (glif_lif_psc.V_ n') = 0%Z
      <-> s <> "linear_exact"%string)
  /\ (s <> "linear_exact"%string ->
      glif_lif_psc.V_m_ (glif_lif_psc.S_
        (glif_lif_psc.voltage_dynamics dt n' v_old))
      = v_old + dt * (glif_lif_psc.I_ (glif_lif_psc.S_ n)
                      - glif_lif_psc.G_ p * (v_old - glif_lif_psc.E_l_ p))
                / glif_lif_psc.C_m_ p).
Proof.
  intros n' p s.
  destruct (psc_calibrate_spec p31 p32 slots h n)
    as (HP & _ & HI & _ & _ & Hm & _).
  fold n' p s in HP, HI, Hm.
  split; [exact Hm |].
  unfold glif_lif_psc.voltage_dynamics. rewrite Hm, HP, HI.
  destruct (String.eqb_spec s "linear_exact") as [E | E].
  - repeat split; done.
  - repeat split; done.
Qed.

(** *** [Parameters_::set] *)

Section Parameters_set.
Import nest.

Lemma updateValue_double_ok d k v :
  double_entry_ok d k ->
  updateValue getValue_double d k v
  = ret (dict_double d k v, bool_decide (is_Some (d !! k))).
Proof.
  unfold double_entry_ok, updateValue, dict_double.
  destruct (d !! k) as [[] |]; simpl; intros H; try contradiction;
    reflexivity.
Qed.

Lemma updateValue_not_BadProperty {T} (g : Datum -> except T) d k v msg :
  (forall t, g t <> throw (BadProperty msg)) ->
  updateValue g d k v <> throw (BadProperty msg).
Proof.
  intros Hg. unfold updateValue.
  destruct (d !! k) as [t |]; [| done].
  specialize (Hg t). destruct (g t); simpl; [| done].
  intros E. apply Hg. unfold throw in *. congruence.
Qed.

Lemma getValue_double_not_BadProperty msg t :
  getValue_double t <> throw (BadProperty msg).
Proof. destruct t; done. Qed.
Lemma getValue_string_not_BadProperty msg t :
  getValue_string t <> throw (BadProperty msg).
Proof. destruct t; done. Qed.
Lemma getValue_vector_not_BadProperty msg t :
  getValue_vector t <> throw (BadProperty msg).
Proof. destruct t; done. Qed.

(** A failing statement that is not the one at hand passes its own
    exception on. *)
Lemma bind_not {A B} (m : except A) (k : A -> except B) e :
  m <> throw e -> (forall a, k a <> throw e) -> bind m k <> throw e.
Proof.
  intros Hm Hk. destruct m; simpl; [| apply Hk].
  unfold throw in *. congruence.
Qed.
End Parameters_set.

(** *** The method string in [glif_lif::Parameters_::set] *)

Section glif_lif_set.
Import nest glif_lif.

Lemma lif_set_not_BadProperty p d msg :
  Parameters_set p d <> throw (BadProperty msg).
Proof.
  unfold Parameters_set.
  repeat (apply bind_not;
          [ apply updateValue_not_BadProperty;
            first [ apply getValue_double_not_BadProperty
                  | apply getValue_string_not_BadProperty ]
          | intros [? ?] ]).
  done.
Qed.
End glif_lif_set.

(** C7, as the code has it.  [glif_lif::Parameters_::set] does not look at
    the method string.  Whatever string [s] the dictionary gives for
    [V_dynamics_method], and whatever numbers it gives for the other keys,
    the call succeeds, stores [s] and merges the numbers; no call ever
    throws [BadProperty].  [glif_lif_psc::Parameters_::set] stores [s] in
    the same way (stated here for an update without time constants). *)
Theorem lif_set_stores_any_method
    (p : glif_lif.Parameters_) (q : glif_lif_psc.Parameters_)
    (d : nest.DictionaryDatum) (s : string) :
  d !! "V_dynamics_method"%string = Some (nest.StringDatum s) ->
  double_entry_ok d nest.names.V_th ->
  double_entry_ok d nest.names.g ->
  double_entry_ok d nest.names.E_L ->
  double_entry_ok d nest.names.C_m ->
  double_entry_ok d nest.names.t_ref ->
  double_entry_ok d nest.names.V_reset ->
  glif_lif.Parameters_set p d
  = nest.ret
      {| glif_lif.th_inf_ := dict_double d nest.names.V_th (glif_lif.th_inf_ p);
         glif_lif.G_ := dict_double d nest.names.g (glif_lif.G_ p);
         glif_lif.E_l_ := dict_double d nest.names.E_L (glif_lif.E_l_ p);
         glif_lif.C_m_ := dict_double d nest.names.C_m (glif_lif.C_m_ p);
         glif_lif.t_ref_ := dict_double d nest.names.t_ref (glif_lif.t_ref_ p);
         glif_lif.V_reset_ :=
           dict_double d nest.names.V_reset (glif_lif.V_reset_ p);
         glif_lif.V_dynamics_method_ := s |}
  /\ (forall p0 d0 msg,
        glif_lif.Parameters_set p0 d0 <> nest.throw (nest.BadProperty msg))
  /\ (d !! "tau_syn"%string = None ->
      glif_lif_psc.Parameters_set q d
      = nest.ret
          {| glif_lif_psc.th_inf_ :=
               dict_double d nest.names.V_th (glif_lif_psc.th_inf_ q);
             glif_lif_psc.G_ := dict_double d nest.names.g (glif_lif_psc.G_ q);
             glif_lif_psc.E_l_ :=
               dict_double d nest.names.E_L (glif_lif_psc.E_l_ q);
             glif_lif_psc.C_m_ :=
               dict_double d nest.names.C_m (glif_lif_psc.C_m_ q);
             glif_lif_psc.t_ref_ :=
               dict_double d nest.names.t_ref (glif_lif_psc.t_ref_ q);
             glif_lif_psc.V_reset_ :=
               dict_double d nest.names.V_reset (glif_lif_psc.V_reset_ q);
             glif_lif_psc.tau_syn_ := glif_lif_psc.tau_syn_ q;
             glif_lif_psc.V_dynamics_method_ := s;
             glif_lif_psc.has_connections_ :=
               glif_lif_psc.has_connections_ q |}).
Proof.
  intros Hs H1 H2 H3 H4 H5 H6.
  split; [| split; [apply lif_set_not_BadProperty |]].
  - unfold glif_lif.Parameters_set.
    rewrite !updateValue_double_ok by assumption. simpl.
    unfold nest.updateValue. rewrite Hs. reflexivity.
  - intros Htau. unfold glif_lif_psc.Parameters_set.
    rewrite !updateValue_double_ok by assumption. simpl.
    unfold nest.updateValue. rewrite Hs, Htau. reflexivity.
Qed.

Lemma lif_set_stores_any_method_witness :
  glif_lif.Parameters_set glif_lif.Parameters_default bogus_method
  = nest.ret
      {| glif_lif.th_inf_ := 0.0265;
         glif_lif.G_ := 4.6951e-09;
         glif_lif.E_l_ := -0.0774;
         glif_lif.C_m_ := 9.9182e-11;
         glif_lif.t_ref_ := 1.0;
         glif_lif.V_reset_ := 0.0;
         glif_lif.V_dynamics_method_ := "bogus" |}.
Proof.
  apply (lif_set_stores_any_method glif_lif.Parameters_default
           glif_lif_psc.Parameters_default bogus_method "bogus");
    vm_compute; exact I || reflexivity.
Defined.

(** C7, as the claim has it, fails: a method string outside the two names
    is accepted and becomes the node's method. *)
Lemma lif_set_accepts_unknown_method :
  "bogus"%string <> "linear_forward_euler"%string
  /\ "bogus"%string <> "linear_exact"%string
  /\ exists p',
       glif_lif.Parameters_set glif_lif.Parameters_default bogus_method
       = nest.ret p'
       /\ glif_lif.V_dynamics_method_ p' = "bogus"%string.
Proof.
  split; [done |]. split; [done |].
  eexists. split; [reflexivity | reflexivity].
Qed.

(** *** The receptor count in [glif_lif_psc::Parameters_::set] *)

Section glif_lif_psc_set.
Import nest glif_lif_psc.

Lemma check_tau_syn_not_ports tau_syn :
  check_tau_syn tau_syn <> throw (BadProperty ports_message).
Proof.
  induction tau_syn as [| t rest IH]; simpl; [done |].
  destruct (Rle_dec t 0); [done | exact IH].
Qed.

(** The second read of [tau_syn] returns what the first one stored. *)
Lemma updateValue_twice d k v w b :
  updateValue getValue_vector d k v = ret (w, b) ->
  exists b', updateValue getValue_vector d k w = ret (w, b').
Proof.
  unfold updateValue. destruct (d !! k) as [[] |]; simpl; try done.
  - intros [= <- <-]. eauto.
  - intros [= <- <-]. eauto.
Qed.

(** The receptor-count check never fires: [old_n_receptors] is read from
    the object after [tau_syn_] has already been overwritten. *)
Lemma psc_set_never_rejects_ports p d :
  Parameters_set p d <> throw (BadProperty ports_message).
Proof.
  unfold Parameters_set.
  repeat (apply bind_not;
          [ apply updateValue_not_BadProperty;
            apply getValue_double_not_BadProperty
          | intros [? ?] ]).
  pose proof (updateValue_not_BadProperty getValue_vector d "tau_syn"
                (tau_syn_ p) ports_message
                (getValue_vector_not_BadProperty _)) as Hfirst.
  destruct (updateValue getValue_vector d "tau_syn" (tau_syn_ p))
    as [e | [tau_syn upd]] eqn:E1; simpl;
    [unfold throw in *; congruence | clear Hfirst].
  apply bind_not;
    [ apply updateValue_not_BadProperty, getValue_string_not_BadProperty
    | intros [method ?] ].
  destruct (updateValue_twice _ _ _ _ _ E1) as [upd' E2].
  cbn [tau_syn_]. rewrite E2. simpl.
  destruct upd'; [| done].
  unfold n_receptors_. cbn [tau_syn_].
  rewrite bool_decide_eq_true_2 by done. simpl.
  apply bind_not; [apply check_tau_syn_not_ports | done].
Qed.
End glif_lif_psc_set.

(** C4, at the failing input.  The node has two receptors and connections
    ([has_connections_] is [true]); the update gives one time constant.
    [Parameters_::set] returns normally with the shortened sequence stored,
    and no dictionary at all makes it throw the receptor-count failure. *)
Theorem psc_set_accepts_shrinking_bound_receptors :
  glif_lif_psc.has_connections_ psc_two_receptors = true
  /\ glif_lif_psc.n_receptors_ psc_two_receptors = 2%nat
  /\ glif_lif_psc.Parameters_set psc_two_receptors drop_second_receptor
     = nest.ret
         {| glif_lif_psc.th_inf_ := 0.0265 * 1.0e03;
            glif_lif_psc.G_ := 4.6951;
            glif_lif_psc.E_l_ := -0.0774 * 1.0e03;
            glif_lif_psc.C_m_ := 99.182;
            glif_lif_psc.t_ref_ := 0.5;
            glif_lif_psc.V_reset_ := 0.0;
            glif_lif_psc.tau_syn_ := [2.0];
            glif_lif_psc.V_dynamics_method_ := "linear_forward_euler";
            glif_lif_psc.has_connections_ := true |}
  /\ forall p d,
       glif_lif_psc.Parameters_set p d
       <> nest.throw (nest.BadProperty ports_message).
Proof.
  split; [reflexivity |]. split; [reflexivity |].
  split; [| apply psc_set_never_rejects_ports].
  unfold glif_lif_psc.Parameters_set, nest.updateValue.
  change (drop_second_receptor !! nest.names.V_th) with (@None nest.Datum).
  change (drop_second_receptor !! nest.names.g) with (@None nest.Datum).
  change (drop_second_receptor !! nest.names.E_L) with (@None nest.Datum).
  change (drop_second_receptor !! nest.names.C_m) with (@None nest.Datum).
  change (drop_second_receptor !! nest.names.t_ref) with (@None nest.Datum).
  change (drop_second_receptor !! nest.names.V_reset) with (@None nest.Datum).
  change (drop_second_receptor !! "V_dynamics_method"%string)
    with (@None nest.Datum).
  change (drop_second_receptor !! "tau_syn"%string)
    with (Some (nest.DoubleVectorDatum [2.0])).
  simpl. destruct (Rle_dec 2.0 0); [lra | reflexivity].
Qed.

(** *** The voltage part of one step of [glif_lif_psc::update] *)

Section glif_lif_psc_voltage.
Import nest glif_lif_psc.
Variables (h : R) (origin : Z).

Lemma psc_coefficients_kept_refl v : psc_coefficients_kept v v.
Proof. unfold psc_coefficients_kept. auto 10. Qed.

Lemma psc_refractory_branch_spec dt n v_old :
  let n' := refractory_branch dt n v_old in
  t_ref_remaining_ (V_ n') = t_ref_remaining_ (V_ n) - dt
  /\ psc_coefficients_kept (V_ n) (V_ n')
  /\ P_ n' = P_ n /\ B_ n' = B_ n
  /\ I_ (S_ n') = I_ (S_ n)
  /\ y1_ (S_ n') = y1_ (S_ n) /\ y2_ (S_ n') = y2_ (S_ n)
  /\ (t_ref_remaining_ (V_ n) - dt > 0 -> V_m_ (S_ n') = v_old)
  /\ (t_ref_remaining_ (V_ n) - dt <= 0 -> V_m_ (S_ n') = V_reset_ (P_ n)).
Proof.
  unfold refractory_branch, psc_coefficients_kept. simpl.
  destruct (Rle_dec _ _); simpl; repeat split; auto; intros; lra.
Qed.

Lemma psc_voltage_dynamics_frame dt n v_old :
  let n' := voltage_dynamics dt n v_old in
  P_ n' = P_ n /\ V_ n' = V_ n /\ B_ n' = B_ n
  /\ I_ (S_ n') = I_ (S_ n)
  /\ y1_ (S_ n') = y1_ (S_ n) /\ y2_ (S_ n') = y2_ (S_ n).
Proof.
  unfold voltage_dynamics.
  destruct (method_ (V_ n)) as [| [] |]; simpl; auto 10.
Qed.

Lemma psc_threshold_test_crossing n v_old lag :
  V_m_ (S_ n) > th_inf_ (P_ n) ->
  threshold_test h origin n v_old lag =
  (set_t_ref_remaining n (t_ref_total_ (V_ n)),
   [ {| t_sp := origin + lag + 1;
        offset := computed_offset (th_inf_ (P_ n)) v_old (V_m_ (S_ n)) h;
        sent_lag := lag |} ]).
Proof.
  intros Hc. unfold threshold_test.
  destruct (Rgt_dec _ _); [reflexivity | lra].
Qed.


Lemma psc_threshold_test_frame n v_old lag :
  let n' := (threshold_test h origin n v_old lag).1 in
  P_ n' = P_ n /\ S_ n' = S_ n /\ B_ n' = B_ n
  /\ psc_coefficients_kept (V_ n) (V_ n').
Proof.
  unfold threshold_test, psc_coefficients_kept.
  destruct (Rgt_dec _ _); simpl; auto 15.
Qed.

(** The voltage part leaves the synaptic state, the buffers and the
    coefficients as they were. *)
Lemma psc_voltage_part_frame n v_old lag :
  let n' := (psc_voltage_part h origin n v_old lag).1 in
  P_ n' = P_ n /\ B_ n' = B_ n
  /\ I_ (S_ n') = I_ (S_ n)
  /\ y1_ (S_ n') = y1_ (S_ n) /\ y2_ (S_ n') = y2_ (S_ n)
  /\ psc_coefficients_kept (V_ n) (V_ n').
Proof.
  unfold psc_voltage_part. destruct (Rgt_dec _ _); simpl.
  - destruct (psc_refractory_branch_spec h n v_old)
      as (_ & Hk & -> & -> & -> & -> & -> & _). auto 10.
  - destruct (psc_threshold_test_frame
                (synapse_loop (n_receptors_ (P_ n))
                   (voltage_dynamics h n v_old) 0) v_old lag)
      as (-> & -> & -> & Hk).
    destruct (synapse_loop_spec (n_receptors_ (P_ n))
                (voltage_dynamics h n v_old) 0)
      as (HP & HV & -> & -> & -> & -> & _).
    rewrite HV in Hk. rewrite HP.
    destruct (psc_voltage_dynamics_frame h n v_old)
      as (-> & HV' & -> & -> & -> & ->).
    rewrite HV' in Hk. auto 10.
Qed.

Lemma psc_update_step_unfold n v_old lag :
  update_step h origin n v_old lag =
  let r := psc_voltage_part h origin n v_old lag in
  (drain_and_record origin (psc_loop (n_receptors_ (P_ n)) r.1 lag 0) lag,
   V_m_ (S_ r.1), r.2).
Proof.
  pose proof (psc_voltage_part_frame n v_old lag) as Hf. simpl in Hf.
  destruct Hf as (HP & _).
  unfold update_step, psc_voltage_part in *.
  destruct (psc_voltage_dynamics_frame h n v_old) as (HP' & _).
  rewrite HP' in *.
  destruct (Rgt_dec _ _); [| destruct (threshold_test _ _ _ _ _)];
    simpl in *; rewrite HP; f_equal; f_equal;
    match goal with
    | |- V_m_ (S_ (drain_and_record _ ?m _)) = _ =>
        destruct (psc_drain_and_record_frame origin m lag)
          as (_ & _ & -> & _)
    end;
    match goal with
    | |- V_m_ (S_ (psc_loop ?c ?m ?l ?i)) = _ =>
        destruct (psc_loop_frame c m l i) as (_ & _ & -> & _)
    end; reflexivity.
Qed.
(** A step taken in the refractory state. *)
Lemma psc_refractory_step n v_old lag :
  t_ref_remaining_ (V_ n) > 0 ->
  let q := update_step h origin n v_old lag in
  t_ref_remaining_ (V_ q.1.1) = t_ref_remaining_ (V_ n) - h
  /\ (t_ref_remaining_ (V_ n) - h > 0 -> V_m_ (S_ q.1.1) = v_old)
  /\ (t_ref_remaining_ (V_ n) - h <= 0 ->
      V_m_ (S_ q.1.1) = V_reset_ (P_ n))
  /\ q.1.2 = V_m_ (S_ q.1.1)
  /\ q.2 = [].
Proof.
  intros Href. cbn zeta. rewrite psc_update_step_unfold.
  unfold psc_voltage_part.
  destruct (Rgt_dec _ _) as [_ | Hno]; [| lra]. simpl.
  match goal with
  | |- context [drain_and_record _ ?x _] =>
      destruct (psc_drain_and_record_frame origin x lag)
        as (_ & -> & -> & _)
  end.
  match goal with
  | |- context [psc_loop ?c ?x ?l ?i] =>
      destruct (psc_loop_frame c x l i) as (_ & -> & -> & _)
  end.
  destruct (psc_refractory_branch_spec h n v_old)
    as (Hr & _ & _ & _ & _ & _ & _ & Hhold & Hreset).
  auto 10.
Qed.
End glif_lif_psc_voltage.

(** *** The refractory step *)



(** *** The spike offset *)

Lemma spike_offset_same th v_old v_new h :
  glif_lif_psc.spike_offset th v_old v_new h
  = glif_lif.spike_offset th v_old v_new h.
Proof. reflexivity. Qed.

Lemma computed_offset_same th v_old v_new h :
  glif_lif_psc.computed_offset th v_old v_new h
  = glif_lif.computed_offset th v_old v_new h.
Proof. reflexivity. Qed.

(** With a divisor that is not zero the offset is the number the formula
    gives; with [v_new = v_old] it is no finite number. *)
Lemma computed_offset_finite th v_old v_new h :
  v_new <> v_old ->
  glif_lif.computed_offset th v_old v_new h
  = nest.finite ((1 - (th - v_old) / (v_new - v_old)) * h).
Proof.
  intros Hne. unfold glif_lif.computed_offset.
  destruct (Req_EM_T (v_new - v_old) 0) as [E | _]; [| reflexivity].
  exfalso. apply Hne. lra.
Qed.


(** The offset is what is left of the step after the crossing. *)
Lemma spike_offset_crossing_time th v_old v_new h :
  glif_lif.spike_offset th v_old v_new h
  = h - crossing_time th v_old v_new h.
Proof. unfold glif_lif.spike_offset, crossing_time. lra. Qed.

Lemma spike_offset_at_threshold th v_old h :
  v_old < th -> glif_lif.spike_offset th v_old th h = 0.
Proof.
  intros Hlt. unfold glif_lif.spike_offset.
  replace ((th - v_old) / (th - v_old)) with 1; [lra |].
  unfold Rdiv. rewrite Rinv_r; lra.
Qed.

Lemma spike_offset_from_threshold th v_new h :
  v_new > th -> glif_lif.spike_offset th th v_new h = h.
Proof.
  intros _. unfold glif_lif.spike_offset.
  replace (th - th) with 0 by lra. unfold Rdiv. rewrite Rmult_0_l. lra.
Qed.

Lemma spike_offset_early_limit h :
  0 <= h -> offset_tends_to_step_when_early h.
Proof.
  intros Hh eps Heps. exists eps. split; [exact Heps |].
  intros th v_old v_new Hlo Hhi Hc.
  rewrite spike_offset_crossing_time.
  replace (h - crossing_time th v_old v_new h - h)
    with (- crossing_time th v_old v_new h) by lra.
  rewrite Rabs_Ropp, Rabs_pos_eq; [exact Hc |].
  pose proof (crossing_fraction_bounds th v_old v_new Hlo Hhi) as [H0 _].
  unfold crossing_time. apply Rmult_le_pos; assumption.
Qed.

(** A late crossing leaves a small offset: with the crossing in the second
    half of a step of length [1], the offset is at most a half. *)
Lemma spike_offset_late_limit_fails : ~ offset_tends_to_step_when_late 1.
Proof.
  intros Hlim. destruct (Hlim (1 / 2)) as (delta & Hd & Hall); [lra |].
  pose (th := 1 - Rmin delta 1 / 2).
  assert (Hmin : 0 < Rmin delta 1 <= 1).
  { split; [apply Rmin_glb_lt; lra | apply Rmin_r]. }
  assert (Hmd : Rmin delta 1 <= delta) by apply Rmin_l.
  assert (Hct : crossing_time th 0 1 1 = th).
  { unfold crossing_time. replace (1 - 0) with 1 by lra.
    unfold Rdiv. rewrite Rinv_1. lra. }
  specialize (Hall th 0 1).
  rewrite spike_offset_crossing_time, Hct in Hall.
  unfold th in Hall.
  assert (Habs : Rabs (1 - (1 - Rmin delta 1 / 2) - 1) < 1 / 2).
  { apply Hall; lra. }
  replace (1 - (1 - Rmin delta 1 / 2) - 1)
    with (- (1 - Rmin delta 1 / 2)) in Habs by lra.
  rewrite Rabs_Ropp, Rabs_pos_eq in Habs; lra.
Qed.

(** C3, as the code has it.  In an integrating step of either model that
    starts at [v_old <= th_inf_] and computes a voltage [v_new > th_inf_],
    exactly one spike is handed to the host, for step [origin + lag + 1],
    with offset [(1 - (th_inf_ - v_old) / (v_new - v_old)) * h], where [h]
    is the resolution in ms (the plain model integrates over [h * 1.0e-03]
    seconds).  The offset lies in [[0, h]]; it is [h] minus the interpolated
    crossing time, so it is the time from the crossing to the end of the
    step: it tends to [h] as the crossing occurs arbitrarily early in the
    step, is [h] for a step that starts on the threshold, and the formula
    gives [0] for [v_new = th_inf_], which the strict test does not count as
    a crossing. *)
Theorem spike_offset_of_crossing
    (h : R) (origin lag : Z) (v_old : R)
    (n : glif_lif.Node) (m : glif_lif_psc.Node) :
  let v_new :=
    glif_lif.V_m_ (glif_lif.S_
      (glif_lif.voltage_dynamics (h * 1.0e-03) n v_old)) in
  let w_new :=
    glif_lif_psc.V_m_ (glif_lif_psc.S_
      (glif_lif_psc.synapse_loop
         (glif_lif_psc.n_receptors_ (glif_lif_psc.P_ m))
         (glif_lif_psc.voltage_dynamics h m v_old) 0)) in
  let th := glif_lif.th_inf_ (glif_lif.P_ n) in
  let th_psc := glif_lif_psc.th_inf_ (glif_lif_psc.P_ m) in
  0 <= h ->
  glif_lif.t_ref_remaining_ (glif_lif.V_ n) <= 0 ->
  glif_lif_psc.t_ref_remaining_ (glif_lif_psc.V_ m) <= 0 ->
  v_old <= th -> v_new > th ->
  v_old <= th_psc -> w_new > th_psc ->
  ((glif_lif.update_step h origin n v_old lag).2
   = [ {| nest.t_sp := origin + lag + 1;
          nest.offset :=
            nest.finite ((1 - (th - v_old) / (v_new - v_old)) * h);
          nest.sent_lag := lag |} ]
   /\ 0 <= (1 - (th - v_old) / (v_new - v_old)) * h <= h
   /\ (1 - (th - v_old) / (v_new - v_old)) * h
      = h - crossing_time th v_old v_new h)
  /\ ((glif_lif_psc.update_step h origin m v_old lag).2
      = [ {| nest.t_sp := origin + lag + 1;
             nest.offset :=
               nest.finite ((1 - (th_psc - v_old) / (w_new - v_old)) * h);
             nest.sent_lag := lag |} ]
      /\ 0 <= (1 - (th_psc - v_old) / (w_new - v_old)) * h <= h
      /\ (1 - (th_psc - v_old) / (w_new - v_old)) * h
         = h - crossing_time th_psc v_old w_new h)
  /\ offset_tends_to_step_when_early h
  /\ (forall t v, v > t -> glif_lif.spike_offset t t v h = h)
  /\ (forall t v, v < t -> glif_lif.spike_offset t v t h = 0).
Proof.
  intros v_new w_new th th_psc Hh Hn Hm Hlo Hhi Hlo' Hhi'.
  split; [| split; [| split; [| split]]].
  - split; [| split].
    + rewrite lif_step_integrating by exact Hn. cbn zeta.
      destruct (lif_voltage_dynamics_frame (h * 1.0e-03) n v_old)
        as (HP & _).
      rewrite lif_threshold_test_crossing by (rewrite HP; exact Hhi).
      rewrite HP. cbn [snd]. fold v_new th.
      rewrite computed_offset_finite by lra. reflexivity.
    + apply interpolation_bounds; assumption.
    + apply spike_offset_crossing_time.
  - split; [| split].
    + rewrite psc_update_step_unfold. cbn zeta. unfold psc_voltage_part.
      destruct (Rgt_dec _ _) as [Hyes | _]; [lra |].
      destruct (synapse_loop_spec
                  (glif_lif_psc.n_receptors_ (glif_lif_psc.P_ m))
                  (glif_lif_psc.voltage_dynamics h m v_old) 0)
        as (HP & _).
      destruct (psc_voltage_dynamics_frame h m v_old) as (HP' & _).
      rewrite psc_threshold_test_crossing by (rewrite HP, HP'; exact Hhi').
      rewrite HP, HP'. cbn [snd]. fold w_new th_psc.
      rewrite computed_offset_same, computed_offset_finite by lra.
      reflexivity.
    + apply interpolation_bounds; assumption.
    + rewrite <- spike_offset_crossing_time. reflexivity.
  - apply spike_offset_early_limit. exact Hh.
  - intros t v Hv. apply spike_offset_from_threshold. exact Hv.
  - intros t v Hv. apply spike_offset_at_threshold. exact Hv.
Qed.

Lemma spike_offset_of_crossing_witness :
  exists ev ev' x x',
    (glif_lif.update_step 1 0 (lif_sample 0 0 0) 0 0).2 = [ev]
    /\ nest.offset ev = nest.finite x /\ 0 <= x <= 1
    /\ (glif_lif_psc.update_step 1 0 (psc_sample 0 0 0) 0 0).2 = [ev']
    /\ nest.offset ev' = nest.finite x' /\ 0 <= x' <= 1.
Proof.
  pose proof (spike_offset_of_crossing 1 0 0 0 (lif_sample 0 0 0)
                (psc_sample 0 0 0)) as H.
  cbv zeta in H.
  repeat (match type of H with ?A -> _ =>
            let Ha := fresh in
            assert (Ha : A) by (simpl; unfold nest.at_; simpl; lra);
            specialize (H Ha); clear Ha
          end).
  destruct H as ((E & B & _) & (E' & B' & _) & _).
  eexists. eexists. eexists. eexists.
  split; [exact E |]. split; [reflexivity |]. split; [exact B |].
  split; [exact E' |]. split; [reflexivity | exact B'].
Defined.

(** C3, as the claim has it, fails in its last part.  A step of length [1]
    that rises from [0] to [1] through the threshold [0.9] crosses it after
    nine tenths of the step and is given the offset [0.1]; and no crossing
    in the second half of a step has an offset above a half, so the offset
    does not tend to the step size for late crossings. *)
Lemma spike_offset_late_crossing :
  (exists ev,
     (glif_lif.update_step 1 0 lif_late_crossing 0 0).2 = [ev]
     /\ nest.offset ev = nest.finite 0.1
     /\ crossing_time 0.9 0 1 1 = 0.9)
  /\ ~ offset_tends_to_step_when_late 1.
Proof.
  split; [| exact spike_offset_late_limit_fails].
  assert (Hv : glif_lif.V_m_ (glif_lif.S_
                 (glif_lif.voltage_dynamics (1 * 1.0e-03)
                    lif_late_crossing 0)) = 1).
  { simpl. lra. }
  assert (Hd : (1 - 0 : R) = 1) by lra.
  eexists. split; [| split].
  - rewrite lif_step_integrating by (simpl; lra). cbn zeta.
    rewrite lif_threshold_test_crossing by (rewrite Hv; simpl; lra).
    reflexivity.
  - cbn [nest.offset]. rewrite Hv.
    rewrite computed_offset_finite by lra. f_equal. simpl.
    rewrite Hd. lra.
  - unfold crossing_time. rewrite Hd. lra.
Qed.

(** *** The zero-length interpolation interval *)




(** *** Invariants of the update loops *)

Section glif_lif_loop.
Import nest glif_lif.
Variables (h : R) (origin : Z).

(** A property that every step keeps is kept by the loop. *)
Lemma lif_update_loop_invariant (Inv : Node -> Prop) :
  (forall n v lag, Inv n -> Inv (update_step h origin n v lag).1.1) ->
  forall count n v lag, Inv n -> Inv (update_loop h origin count n v lag).1.
Proof.
  intros Hstep. induction count as [| count IH]; intros n v lag Hn; simpl.
  - exact Hn.
  - specialize (Hstep n v lag Hn).
    destruct (update_step h origin n v lag) as [[n' v'] sent].
    specialize (IH n' v' (lag + 1)%Z Hstep).
    destruct (update_loop h origin count n' v' (lag + 1)) as [n'' sent'].
    exact IH.
Qed.

Lemma lif_update_loop_S count n v lag :
  update_loop h origin (S count) n v lag =
  let r := update_step h origin n v lag in
  let r' := update_loop h origin count r.1.1 r.1.2 (lag + 1) in
  (r'.1, r.2 ++ r'.2).
Proof.
  simpl. destruct (update_step h origin n v lag) as [[n' v'] sent].
  simpl. destruct (update_loop h origin count n' v' (lag + 1)).
  reflexivity.
Qed.

(** A crossing loads the timer. *)
Lemma lif_update_step_crossing n v_old lag :
  t_ref_remaining_ (V_ n) <= 0 ->
  V_m_ (S_ (voltage_dynamics (h * 1.0e-03) n v_old)) > th_inf_ (P_ n) ->
  t_ref_remaining_ (V_ (update_step h origin n v_old lag).1.1)
  = t_ref_total_ (V_ n).
Proof.
  intros Hint Hc.
  destruct (lif_voltage_dynamics_frame (h * 1.0e-03) n v_old)
    as (HP & HV & _).
  rewrite lif_step_integrating by exact Hint. cbn zeta.
  rewrite lif_threshold_test_crossing by (rewrite HP; exact Hc).
  cbn [fst snd].
  match goal with
  | |- context [drain_and_record _ ?x _] =>
      destruct (lif_drain_and_record_frame origin x lag) as (_ & -> & _)
  end.
  simpl. rewrite HV. reflexivity.
Qed.

(** The timer after one step. *)
Lemma lif_update_step_timer n v_old lag :
  let n' := (update_step h origin n v_old lag).1.1 in
  P_ n' = P_ n
  /\ t_ref_total_ (V_ n') = t_ref_total_ (V_ n)
  /\ (t_ref_remaining_ (V_ n) > 0 ->
      t_ref_remaining_ (V_ n')
      = t_ref_remaining_ (V_ n) - h * 1.0e-03)
  /\ (t_ref_remaining_ (V_ n) <= 0 ->
      t_ref_remaining_ (V_ n') = t_ref_remaining_ (V_ n)
      \/ t_ref_remaining_ (V_ n') = t_ref_total_ (V_ n)).
Proof.
  cbn zeta. rewrite lif_update_step_unfold. cbn zeta. cbn [fst snd].
  match goal with
  | |- context [drain_and_record _ ?x _] =>
      destruct (lif_drain_and_record_frame origin x lag) as (-> & -> & _)
  end.
  destruct (Rgt_dec _ _) as [Href | Hint]; cbn [fst snd].
  - destruct (lif_refractory_branch_spec (h * 1.0e-03) n v_old)
      as (-> & -> & -> & _).
    repeat split; auto. intros; lra.
  - destruct (lif_voltage_dynamics_frame (h * 1.0e-03) n v_old)
      as (HP & HV & _).
    unfold threshold_test. destruct (Rgt_dec _ _); cbn [fst snd];
      simpl; rewrite ?HP, ?HV; repeat split; auto; intros; lra.
Qed.

Lemma lif_update_step_timer_ok n v_old lag :
  0 < h -> lif_timer_ok h n ->
  lif_timer_ok h (update_step h origin n v_old lag).1.1.
Proof.
  intros Hh [Htot Hrem].
  destruct (lif_update_step_timer n v_old lag) as (HP & HT & Href & Hint).
  unfold lif_timer_ok. rewrite HP, HT. split; [exact Htot |].
  intros Hpos. specialize (Hrem Hpos).
  destruct (Rgt_dec (t_ref_remaining_ (V_ n)) 0) as [Hr | Hr].
  - rewrite Href by exact Hr. lra.
  - destruct Hint as [-> | ->]; lra.
Qed.
End glif_lif_loop.

Lemma lif_running_timer_ok h n :
  0 < h -> glif_lif.running h n -> lif_timer_ok h n.
Proof.
  intros Hh Hrun. induction Hrun as [n | n origin from to _ IH | |].
  - unfold lif_timer_ok. simpl. split; [reflexivity | intros; lra].
  - unfold glif_lif.update.
    apply lif_update_loop_invariant; [| exact IH].
    intros n0 v lag. apply lif_update_step_timer_ok. exact Hh.
  - assumption.
  - assumption.
Qed.

Section glif_lif_psc_loop.
Import nest glif_lif_psc.
Variables (h : R) (origin : Z).

Lemma psc_update_loop_invariant (Inv : Node -> Prop) :
  (forall n v lag, Inv n -> Inv (update_step h origin n v lag).1.1) ->
  forall count n v lag, Inv n -> Inv (update_loop h origin count n v lag).1.
Proof.
  intros Hstep. induction count as [| count IH]; intros n v lag Hn; simpl.
  - exact Hn.
  - specialize (Hstep n v lag Hn).
    destruct (update_step h origin n v lag) as [[n' v'] sent].
    specialize (IH n' v' (lag + 1)%Z Hstep).
    destruct (update_loop h origin count n' v' (lag + 1)) as [n'' sent'].
    exact IH.
Qed.

(** The timer after the voltage part of a step. *)
Lemma psc_voltage_part_timer n v_old lag :
  let n' := (psc_voltage_part h origin n v_old lag).1 in
  (t_ref_remaining_ (V_ n) > 0 ->
   t_ref_remaining_ (V_ n') = t_ref_remaining_ (V_ n) - h)
  /\ (t_ref_remaining_ (V_ n) <= 0 ->
      t_ref_remaining_ (V_ n') = t_ref_remaining_ (V_ n)
      \/ t_ref_remaining_ (V_ n') = t_ref_total_ (V_ n)).
Proof.
  cbn zeta. unfold psc_voltage_part.
  destruct (Rgt_dec _ _) as [Href | Hint]; cbn [fst snd].
  - destruct (psc_refractory_branch_spec h n v_old) as (-> & _).
    split; [reflexivity | intros; lra].
  - destruct (synapse_loop_spec (n_receptors_ (P_ n))
                (voltage_dynamics h n v_old) 0) as (_ & HV & _).
    destruct (psc_voltage_dynamics_frame h n v_old) as (_ & HV' & _).
    unfold threshold_test. destruct (Rgt_dec _ _); cbn [fst snd];
      simpl; rewrite ?HV, ?HV'; split; auto; intros; lra.
Qed.

(** One step: what it keeps, and the timer. *)
Lemma psc_update_step_frame n v_old lag :
  let n' := (update_step h origin n v_old lag).1.1 in
  P_ n' = P_ n
  /\ psc_coefficients_kept (V_ n) (V_ n')
  /\ length (y1_ (S_ n')) = length (y1_ (S_ n))
  /\ length (y2_ (S_ n')) = length (y2_ (S_ n))
  /\ length (spikes_ (B_ n')) = length (spikes_ (B_ n))
  /\ (t_ref_remaining_ (V_ n) > 0 ->
      t_ref_remaining_ (V_ n') = t_ref_remaining_ (V_ n) - h)
  /\ (t_ref_remaining_ (V_ n) <= 0 ->
      t_ref_remaining_ (V_ n') = t_ref_remaining_ (V_ n)
      \/ t_ref_remaining_ (V_ n') = t_ref_total_ (V_ n)).
Proof.
  cbn zeta. rewrite psc_update_step_unfold. cbn zeta. cbn [fst snd].
  match goal with
  | |- context [drain_and_record _ ?x _] =>
      destruct (psc_drain_and_record_frame origin x lag)
        as (-> & -> & _ & -> & -> & ->)
  end.
  match goal with
  | |- context [psc_loop ?c ?x ?l ?i] =>
      destruct (psc_loop_frame c x l i)
        as (-> & -> & _ & _ & _ & _ & -> & -> & ->)
  end.
  destruct (psc_voltage_part_frame h origin n v_old lag)
    as (-> & -> & _ & -> & -> & Hk).
  destruct (psc_voltage_part_timer n v_old lag) as (Href & Hint).
  auto 10.
Qed.

Lemma psc_update_step_timer_ok n v_old lag :
  0 < h -> psc_timer_ok h n ->
  psc_timer_ok h (update_step h origin n v_old lag).1.1.
Proof.
  intros Hh [Htot Hrem].
  destruct (psc_update_step_frame n v_old lag)
    as (HP & Hk & _ & _ & _ & Href & Hint).
  destruct Hk as (HT & _).
  unfold psc_timer_ok. rewrite HP, HT. split; [exact Htot |].
  intros Hpos. specialize (Hrem Hpos).
  destruct (Rgt_dec (t_ref_remaining_ (V_ n)) 0) as [Hr | Hr].
  - rewrite Href by exact Hr. lra.
  - destruct Hint as [-> | ->]; lra.
Qed.

Lemma psc_update_step_calibrated p31 p32 n v_old lag :
  psc_calibrated p31 p32 h n ->
  psc_calibrated p31 p32 h (update_step h origin n v_old lag).1.1.
Proof.
  intros [Hsz Hco].
  destruct (psc_update_step_frame n v_old lag)
    as (HP & Hk & L1 & L2 & L3 & _).
  destruct Hk as (_ & _ & K1 & K2 & K3 & K4 & K5 & _ & _ & K6).
  split.
  - unfold psc_sized in *.
    rewrite HP, L1, L2, L3, K1, K2, K3, K4, K5, K6. exact Hsz.
  - intros j Hj. rewrite HP in Hj |- *. specialize (Hco j Hj).
    unfold coefficients_at in *.
    rewrite K1, K2, K3, K4, K5, K6. exact Hco.
Qed.
End glif_lif_psc_loop.

Lemma psc_running_timer_ok p31 p32 slots h n :
  0 < h -> glif_lif_psc.running p31 p32 slots h n -> psc_timer_ok h n.
Proof.
  intros Hh Hrun. induction Hrun as [n | n origin from to _ IH | |].
  - destruct (psc_calibrate_spec p31 p32 slots h n)
      as (HP & _ & _ & Hr & Ht & _).
    unfold psc_timer_ok. rewrite HP, Hr, Ht. split; [reflexivity | intros; lra].
  - unfold glif_lif_psc.update.
    apply psc_update_loop_invariant; [| exact IH].
    intros n0 v lag. apply psc_update_step_timer_ok. exact Hh.
  - assumption.
  - assumption.
Qed.

Lemma psc_running_calibrated p31 p32 slots h n :
  glif_lif_psc.running p31 p32 slots h n -> psc_calibrated p31 p32 h n.
Proof.
  intros Hrun.
  induction Hrun as [n | n origin from to _ IH
                     | n rport steps w mult _ IH | n steps w c _ IH].
  - destruct (psc_calibrate_spec p31 p32 slots h n)
      as (HP & _ & _ & _ & _ & _ & _ & _ & Hsz & Hco).
    split; [exact Hsz |]. rewrite HP. exact Hco.
  - unfold glif_lif_psc.update.
    apply psc_update_loop_invariant; [| exact IH].
    intros n0 v lag. apply psc_update_step_calibrated.
  - destruct IH as [Hsz Hco]. split; [| exact Hco].
    unfold psc_sized in *. simpl. rewrite length_insert. exact Hsz.
  - exact IH.
Qed.

(** *** The refractory timer *)





(** *** The synaptic current filter *)

Section glif_lif_psc_filter.
Import nest glif_lif_psc.
Variables (h : R) (origin : Z).

(** One step advances every receptor once, from its own old cells and with
    the old coefficients, whichever branch the voltage part takes. *)
Lemma psc_update_step_filter n v_old lag i :
  psc_sized n -> (i < n_receptors_ (P_ n))%nat ->
  let n' := (update_step h origin n v_old lag).1.1 in
  let s := get_value (at_ [] (spikes_ (B_ n)) i) lag in
  at_ 0 (y2_ (S_ n')) i
  = at_ 0 (P21_ (V_ n)) i * at_ 0 (y1_ (S_ n)) i
    + at_ 0 (P22_ (V_ n)) i * at_ 0 (y2_ (S_ n)) i
  /\ at_ 0 (y1_ (S_ n')) i
     = at_ 0 (y1_ (S_ n)) i * at_ 0 (P11_ (V_ n)) i
       + at_ 0 (PSCInitialValues_ (V_ n)) i * s.1
  /\ at_ [] (spikes_ (B_ n')) i = s.2.
Proof.
  intros Hsz Hi. cbn zeta.
  rewrite psc_update_step_unfold. cbn zeta. cbn [fst snd].
  match goal with
  | |- context [drain_and_record _ ?x _] =>
      destruct (psc_drain_and_record_frame origin x lag)
        as (_ & _ & _ & -> & -> & ->)
  end.
  destruct (psc_voltage_part_frame h origin n v_old lag)
    as (HP & HB & _ & Hy1 & Hy2 & Hk).
  destruct Hk as (_ & _ & K1 & K2 & K3 & _ & _ & _ & _ & K6).
  destruct Hsz as (L1 & L2 & _ & _ & _ & _ & _ & _ & L9).
  pose proof (psc_loop_at (n_receptors_ (P_ n))
                (psc_voltage_part h origin n v_old lag).1 lag 0 i) as Hat.
  cbn zeta in Hat. rewrite Hy1, Hy2, HB, K1, K2, K3, K6 in Hat.
  apply Hat; lia.
Qed.

(** An integrating step computes its voltage from the dynamics and the
    synaptic drive of the current synaptic state. *)
Lemma psc_update_step_voltage n v_old lag :
  t_ref_remaining_ (V_ n) <= 0 ->
  V_m_ (S_ (update_step h origin n v_old lag).1.1)
  = V_m_ (S_ (voltage_dynamics h n v_old))
    + syn_sum (P31_ (V_ n)) (y1_ (S_ n)) (P32_ (V_ n)) (y2_ (S_ n))
        (n_receptors_ (P_ n)) 0.
Proof.
  intros Hint. rewrite psc_update_step_unfold. cbn zeta. cbn [fst snd].
  match goal with
  | |- context [drain_and_record _ ?x _] =>
      destruct (psc_drain_and_record_frame origin x lag)
        as (_ & _ & -> & _)
  end.
  match goal with
  | |- context [psc_loop ?c ?x ?l ?i] =>
      destruct (psc_loop_frame c x l i) as (_ & _ & -> & _)
  end.
  unfold psc_voltage_part. destruct (Rgt_dec _ _) as [Hyes | _]; [lra |].
  match goal with
  | |- context [threshold_test _ _ ?x ?v ?l] =>
      destruct (psc_threshold_test_frame h origin x v l) as (_ & -> & _)
  end.
  destruct (synapse_loop_spec (n_receptors_ (P_ n))
              (voltage_dynamics h n v_old) 0)
    as (_ & _ & _ & _ & _ & _ & ->).
  destruct (psc_voltage_dynamics_frame h n v_old)
    as (_ & -> & _ & _ & -> & ->).
  reflexivity.
Qed.
End glif_lif_psc_filter.

(** C1.  At every step of a run of the psc model at resolution [h], and
    for every receptor [i], the alpha-shape loop makes the three
    assignments in their order: [y2_[i]] becomes
    [P21_[i] * y1_[i] + P22_[i] * y2_[i]] with the old [y1_[i]], then
    [y1_[i]] is multiplied by [P11_[i]], then [PSCInitialValues_[i]] times
    the value drained from the receptor's spike buffer at the current lag is
    added to it.  The coefficients are those [calibrate] computed from the
    receptor's time constant [tau]: [P11_[i] = P22_[i] = exp (- h / tau)],
    [P21_[i] = h * exp (- h / tau)], [PSCInitialValues_[i] = e / tau]; the
    step leaves them as they are. *)
Theorem psc_filter_recursion
    (p31 p32 : R -> R -> R -> R -> R) (slots : nat) (h : R)
    (n : glif_lif_psc.Node) (origin : Z) (v_old : R) (lag : Z) (i : nat) :
  glif_lif_psc.running p31 p32 slots h n ->
  (i < glif_lif_psc.n_receptors_ (glif_lif_psc.P_ n))%nat ->
  let n' := (glif_lif_psc.update_step h origin n v_old lag).1.1 in
  let tau := nest.at_ 0 (glif_lif_psc.tau_syn_ (glif_lif_psc.P_ n)) i in
  let P_syn_self := exp (- h / tau) in
  let P_cross_delta := h * exp (- h / tau) in
  let peak_normalization := nest.numerics_e / tau in
  let y1 := nest.at_ 0 (glif_lif_psc.y1_ (glif_lif_psc.S_ n)) i in
  let y2 := nest.at_ 0 (glif_lif_psc.y2_ (glif_lif_psc.S_ n)) i in
  let drained :=
    nest.get_value
      (nest.at_ [] (glif_lif_psc.spikes_ (glif_lif_psc.B_ n)) i) lag in
  nest.at_ 0 (glif_lif_psc.P11_ (glif_lif_psc.V_ n)) i = P_syn_self
  /\ nest.at_ 0 (glif_lif_psc.P22_ (glif_lif_psc.V_ n)) i = P_syn_self
  /\ nest.at_ 0 (glif_lif_psc.P21_ (glif_lif_psc.V_ n)) i = P_cross_delta
  /\ nest.at_ 0 (glif_lif_psc.PSCInitialValues_ (glif_lif_psc.V_ n)) i
     = peak_normalization
  /\ nest.at_ 0 (glif_lif_psc.y2_ (glif_lif_psc.S_ n')) i
     = P_cross_delta * y1 + P_syn_self * y2
  /\ nest.at_ 0 (glif_lif_psc.y1_ (glif_lif_psc.S_ n')) i
     = y1 * P_syn_self + peak_normalization * drained.1
  /\ nest.at_ [] (glif_lif_psc.spikes_ (glif_lif_psc.B_ n')) i = drained.2
  /\ psc_coefficients_kept (glif_lif_psc.V_ n) (glif_lif_psc.V_ n').
Proof.
  intros Hrun Hi n' tau P_syn_self P_cross_delta peak_normalization y1 y2
    drained.
  destruct (psc_running_calibrated p31 p32 slots h n Hrun) as [Hsz Hco].
  destruct (Hco i Hi) as (C11 & C22 & C21 & _ & _ & Cpsc).
  fold tau in C11, C22, C21, Cpsc.
  assert (Hpeak : 1.0 * nest.numerics_e / tau = peak_normalization).
  { unfold peak_normalization, Rdiv. lra. }
  rewrite Hpeak in Cpsc.
  destruct (psc_update_step_filter h origin n v_old lag i Hsz Hi)
    as (F2 & F1 & Fs).
  fold n' y1 y2 drained in F2, F1, Fs.
  rewrite C21, C22 in F2. rewrite C11, Cpsc in F1.
  destruct (psc_update_step_frame h origin n v_old lag) as (_ & Hk & _).
  auto 10.
Qed.

Lemma psc_filter_recursion_witness :
  let n :=
    glif_lif_psc.calibrate (fun _ _ _ _ => 0) (fun _ _ _ _ => 0) 4 1
      (psc_sample 0 0 7) in
  nest.at_ 0 (glif_lif_psc.P21_ (glif_lif_psc.V_ n)) 0
  = 1 * exp (- 1 / nest.at_ 0 (glif_lif_psc.tau_syn_ (glif_lif_psc.P_ n)) 0).
Proof.
  cbv zeta.
  pose proof (psc_filter_recursion (fun _ _ _ _ => 0) (fun _ _ _ _ => 0) 4 1
                (glif_lif_psc.calibrate (fun _ _ _ _ => 0) (fun _ _ _ _ => 0)
                   4 1 (psc_sample 0 0 7))
                0 0 0 0) as H.
  cbv zeta in H.
  destruct H as (_ & _ & H21 & _).
  - apply glif_lif_psc.running_calibrate.
  - destruct (psc_calibrate_spec (fun _ _ _ _ => 0) (fun _ _ _ _ => 0) 4 1
                (psc_sample 0 0 7)) as (-> & _).
    unfold glif_lif_psc.n_receptors_. simpl. lia.
  - exact H21.
Defined.

Lemma get_value_add_value (b : nest.RingBuffer) (offs : Z) (w : R) :
  (0 <= offs)%Z -> (Z.to_nat offs < length b)%nat ->
  (nest.get_value (nest.add_value b offs w) offs).1
  = (nest.get_value b offs).1 + w.
Proof.
  intros H0 Hlen. unfold nest.get_value, nest.add_value.
  rewrite (proj2 (Z.leb_le 0 offs) H0). simpl.
  unfold nest.RingBuffer in *. by rewrite list_lookup_insert_eq.
Qed.

(** C8.  A step of the psc model taken while [t_ref_remaining_ > 0] emits
    nothing and leaves the voltage to the refractory branch, and still
    advances the filter of every receptor [i] and drains the receptor's
    spike buffer at the lag: what was delivered to the buffer, weight by
    weight, enters [y1_[i]].  When that step ends the refractory period, the
    next step integrates, and its voltage is that of the voltage dynamics
    plus the synaptic drive of the state the refractory step left. *)
Theorem psc_filter_runs_while_refractory
    (h : R) (origin lag : Z) (v_old : R) (m : glif_lif_psc.Node) (i : nat) :
  psc_sized m ->
  (i < glif_lif_psc.n_receptors_ (glif_lif_psc.P_ m))%nat ->
  glif_lif_psc.t_ref_remaining_ (glif_lif_psc.V_ m) > 0 ->
  let q := glif_lif_psc.update_step h origin m v_old lag in
  let m1 := q.1.1 in
  let v := glif_lif_psc.V_ m in
  let drained :=
    nest.get_value
      (nest.at_ [] (glif_lif_psc.spikes_ (glif_lif_psc.B_ m)) i) lag in
  q.2 = []
  /\ nest.at_ 0 (glif_lif_psc.y2_ (glif_lif_psc.S_ m1)) i
     = nest.at_ 0 (glif_lif_psc.P21_ v) i
       * nest.at_ 0 (glif_lif_psc.y1_ (glif_lif_psc.S_ m)) i
       + nest.at_ 0 (glif_lif_psc.P22_ v) i
         * nest.at_ 0 (glif_lif_psc.y2_ (glif_lif_psc.S_ m)) i
  /\ nest.at_ 0 (glif_lif_psc.y1_ (glif_lif_psc.S_ m1)) i
     = nest.at_ 0 (glif_lif_psc.y1_ (glif_lif_psc.S_ m)) i
       * nest.at_ 0 (glif_lif_psc.P11_ v) i
       + nest.at_ 0 (glif_lif_psc.PSCInitialValues_ v) i * drained.1
  /\ nest.at_ [] (glif_lif_psc.spikes_ (glif_lif_psc.B_ m1)) i = drained.2
  /\ (forall b offs w,
        (0 <= offs)%Z -> (Z.to_nat offs < length b)%nat ->
        (nest.get_value (nest.add_value b offs w) offs).1
        = (nest.get_value b offs).1 + w)
  /\ (glif_lif_psc.t_ref_remaining_ v - h <= 0 ->
      glif_lif_psc.V_m_ (glif_lif_psc.S_
        (glif_lif_psc.update_step h origin m1 q.1.2 (lag + 1)).1.1)
      = glif_lif_psc.V_m_ (glif_lif_psc.S_
          (glif_lif_psc.voltage_dynamics h m1
             (glif_lif_psc.V_reset_ (glif_lif_psc.P_ m))))
        + syn_sum (glif_lif_psc.P31_ v)
            (glif_lif_psc.y1_ (glif_lif_psc.S_ m1))
            (glif_lif_psc.P32_ v)
            (glif_lif_psc.y2_ (glif_lif_psc.S_ m1))
            (glif_lif_psc.n_receptors_ (glif_lif_psc.P_ m)) 0).
Proof.
  intros Hsz Hi Href q m1 v drained.
  destruct (psc_update_step_filter h origin m v_old lag i Hsz Hi)
    as (F2 & F1 & Fs).
  pose proof (psc_refractory_step h origin m v_old lag Href)
    as (Hrem & _ & Hreset & Hv & Hsent).
  fold q in Hrem, Hreset, Hv, Hsent.
  destruct (psc_update_step_frame h origin m v_old lag)
    as (HP & Hk & _).
  fold q m1 in HP, Hk.
  destruct Hk as (_ & _ & _ & _ & _ & K31 & K32 & _).
  split; [exact Hsent |]. split; [exact F2 |]. split; [exact F1 |].
  split; [exact Fs |]. split; [exact get_value_add_value |].
  intros Hend. subst v.
  rewrite psc_update_step_voltage by (unfold m1; rewrite Hrem; exact Hend).
  rewrite Hv, (Hreset Hend), K31, K32, HP. reflexivity.
Qed.

Lemma psc_filter_runs_while_refractory_witness :
  let m := glif_lif_psc.handle_spike (psc_sample 0.001 0 1) 1 0 2.5 1 in
  let q := glif_lif_psc.update_step 1 0 m 0.001 0 in
  q.2 = []
  /\ nest.at_ 0 (glif_lif_psc.y1_ (glif_lif_psc.S_ q.1.1)) 0
     = 1.0 * nest.numerics_e / 2 * 2.5.
Proof.
  cbv zeta.
  pose proof (psc_filter_runs_while_refractory 1 0 0 0.001
                (glif_lif_psc.handle_spike (psc_sample 0.001 0 1) 1 0 2.5 1)
                0%nat) as H.
  cbv zeta in H.
  destruct H as (Hsent & _ & Hy1 & _).
  - unfold psc_sized. simpl. auto 10.
  - unfold glif_lif_psc.n_receptors_. simpl. lia.
  - simpl. lra.
  - split; [exact Hsent |].
    rewrite Hy1. simpl. unfold nest.at_. simpl. lra.
Defined.

(** *** The current sample that a refractory step skips *)

Section glif_lif_current.
Import nest glif_lif.
Variables (h : R) (origin : Z).

Lemma lif_update_loop_app a : forall b n lag,
  update_loop h origin (a + b) n (V_m_ (S_ n)) lag =
  let r := update_loop h origin a n (V_m_ (S_ n)) lag in
  let r' := update_loop h origin b r.1 (V_m_ (S_ r.1)) (lag + Z.of_nat a) in
  (r'.1, r.2 ++ r'.2).
Proof.
  induction a as [| a IH]; intros b n lag.
  - cbn zeta. simpl. rewrite Z.add_0_r.
    destruct (update_loop h origin b n (V_m_ (S_ n)) lag). reflexivity.
  - change (S a + b)%nat with (S (a + b)).
    rewrite !lif_update_loop_S. cbn zeta.
    rewrite lif_update_step_v_old, IH. cbn zeta. cbn [fst snd].
    replace (lag + 1 + Z.of_nat a)%Z with (lag + Z.of_nat (S a))%Z by lia.
    rewrite app_assoc. reflexivity.
Qed.

(** The voltage part of a step does not look at the current buffer. *)
Lemma lif_voltage_part_with_current n k c v_old lag :
  (if Rgt_dec (t_ref_remaining_ (V_ (with_current n k c))) 0.0
   then (refractory_branch (h * 1.0e-03) (with_current n k c) v_old, [])
   else threshold_test h origin
          (voltage_dynamics (h * 1.0e-03) (with_current n k c) v_old)
          v_old lag)
  = let r :=
      if Rgt_dec (t_ref_remaining_ (V_ n)) 0.0
      then (refractory_branch (h * 1.0e-03) n v_old, [])
      else threshold_test h origin
             (voltage_dynamics (h * 1.0e-03) n v_old) v_old lag in
    (with_current r.1 k c, r.2).
Proof.
  cbn zeta. simpl.
  destruct (Rgt_dec _ _).
  - unfold refractory_branch. simpl. destruct (Rle_dec _ _); reflexivity.
  - unfold voltage_dynamics, threshold_test. simpl.
    repeat destruct (String.eqb _ _); simpl;
      destruct (Rgt_dec _ _); reflexivity.
Qed.

(** A step at another lag passes the waiting value on. *)
Lemma lif_update_step_other_slot n k c v_old lag :
  (0 <= k)%Z -> lag <> k ->
  update_step h origin (with_current n (Z.to_nat k) c) v_old lag =
  let r := update_step h origin n v_old lag in
  (with_current r.1.1 (Z.to_nat k) c, r.1.2, r.2).
Proof.
  intros Hk Hne. cbn zeta.
  rewrite !lif_update_step_unfold. cbn zeta.
  rewrite lif_voltage_part_with_current. cbn zeta. cbn [fst snd].
  match goal with
  | |- context [if ?d then _ else _] => set (r := if d then _ else _)
  end.
  f_equal. f_equal.
  rewrite !lif_drain_and_record_eq.
  unfold with_current, get_value. simpl.
  destruct (Z.leb_spec 0 lag) as [Hlag | Hlag]; simpl; [| reflexivity].
  unfold RingBuffer in *.
  rewrite list_lookup_insert_ne by lia.
  rewrite (list_insert_insert_ne _ (Z.to_nat lag) (Z.to_nat k)) by lia. reflexivity.
Qed.

Lemma lif_update_loop_other_slots k c count : forall n v_old lag,
  (0 <= k)%Z -> (lag + Z.of_nat count <= k)%Z ->
  update_loop h origin count (with_current n (Z.to_nat k) c) v_old lag =
  let r := update_loop h origin count n v_old lag in
  (with_current r.1 (Z.to_nat k) c, r.2).
Proof.
  induction count as [| count IH]; intros n v_old lag Hk Hlag.
  - reflexivity.
  - rewrite !lif_update_loop_S. cbn zeta.
    rewrite lif_update_step_other_slot by lia. cbn zeta. cbn [fst snd].
    rewrite IH by lia. reflexivity.
Qed.

(** The step at the lag of the waiting value: only [I_] differs after
    it. *)
Lemma lif_update_step_same_slot n k c v_old :
  (0 <= k)%Z ->
  exists x,
    update_step h origin (with_current n (Z.to_nat k) c) v_old k =
    let r := update_step h origin n v_old k in
    (set_I r.1.1 x, r.1.2, r.2).
Proof.
  intros Hk. eexists. cbn zeta.
  rewrite !lif_update_step_unfold. cbn zeta.
  rewrite lif_voltage_part_with_current. cbn zeta. cbn [fst snd].
  f_equal. f_equal.
  rewrite !lif_drain_and_record_eq.
  unfold with_current, get_value. simpl.
  rewrite (proj2 (Z.leb_le 0 k) Hk). simpl.
  unfold RingBuffer in *.
  rewrite list_insert_insert_eq. reflexivity.
Qed.

(** A refractory step does not read [I_] and overwrites it. *)
Lemma lif_refractory_step_forgets_I n x v_old lag :
  t_ref_remaining_ (V_ n) > 0 ->
  update_step h origin (set_I n x) v_old lag
  = update_step h origin n v_old lag.
Proof.
  intros Href. rewrite !lif_step_refractory by exact Href.
  rewrite !lif_drain_and_record_eq.
  unfold refractory_branch. simpl. destruct (Rle_dec _ _); reflexivity.
Qed.
End glif_lif_current.

Section glif_lif_skipped_current.
Import nest glif_lif.
Variables (h : R) (origin : Z).

(** The core of the argument: the step at lag [k] and a refractory step
    after it. *)
Lemma lif_update_loop_skips_current n k c v_old count :
  (0 <= k)%Z ->
  t_ref_remaining_ (V_ (update_step h origin n v_old k).1.1) > 0 ->
  update_loop h origin (S (S count)) (with_current n (Z.to_nat k) c) v_old k
  = update_loop h origin (S (S count)) n v_old k.
Proof.
  intros Hk Href.
  destruct (lif_update_step_same_slot h origin n k c v_old Hk) as [x Hx].
  cbn zeta in Hx.
  rewrite (lif_update_loop_S h origin (S count) (with_current _ _ _)).
  rewrite (lif_update_loop_S h origin (S count) n).
  cbn zeta. rewrite Hx. cbn [fst snd].
  rewrite (lif_update_loop_S h origin count (set_I _ _)).
  rewrite (lif_update_loop_S h origin count
             (update_step h origin n v_old k).1.1).
  cbn zeta.
  rewrite lif_refractory_step_forgets_I by exact Href.
  reflexivity.
Qed.

(** A slice that starts in the refractory state does not see [I_]. *)
Lemma lif_update_forgets_I n x from to :
  t_ref_remaining_ (V_ n) > 0 -> (from < to)%Z ->
  update h origin (set_I n x) from to = update h origin n from to.
Proof.
  intros Href Hlt. unfold update.
  replace (Z.to_nat (to - from)) with (S (Z.to_nat (to - from - 1))) by lia.
  rewrite !lif_update_loop_S. cbn zeta.
  change (V_m_ (S_ (set_I n x))) with (V_m_ (S_ n)).
  rewrite lif_refractory_step_forgets_I by exact Href.
  reflexivity.
Qed.

(** The slice up to and with the step at lag [k]: afterwards only [I_]
    differs. *)
Lemma lif_update_until_slot n k c from :
  (0 <= from)%Z -> (from <= k)%Z ->
  exists x,
    update h origin (with_current n (Z.to_nat k) c) from (k + 1)
    = let r := update h origin n from (k + 1) in (set_I r.1 x, r.2).
Proof.
  intros Hfrom Hk. unfold update.
  set (a := Z.to_nat (k - from)).
  replace (Z.to_nat (k + 1 - from)) with (a + 1)%nat by lia.
  assert (Ek : (from + Z.of_nat a = k)%Z) by lia.
  change (V_m_ (S_ (with_current n (Z.to_nat k) c))) with (V_m_ (S_ n)).
  pose proof (lif_update_loop_app h origin a 1
                (with_current n (Z.to_nat k) c) from) as Happ.
  cbn zeta in Happ. rewrite Ek in Happ.
  change (V_m_ (S_ (with_current n (Z.to_nat k) c)))
    with (V_m_ (S_ n)) in Happ.
  rewrite Happ. clear Happ.
  rewrite (lif_update_loop_app h origin a 1 n from).
  cbn zeta. rewrite Ek.
  rewrite (lif_update_loop_other_slots h origin k c a n) by lia.
  cbn zeta. cbn [fst snd].
  change (V_m_ (S_ (with_current ?y (Z.to_nat k) c))) with (V_m_ (S_ y)).
  set (ra := update_loop h origin a n (V_m_ (S_ n)) from).
  assert (Hk0 : (0 <= k)%Z) by lia.
  destruct (lif_update_step_same_slot h origin ra.1 k c (V_m_ (S_ ra.1)) Hk0)
    as [x Hx].
  cbn zeta in Hx.
  exists x. rewrite !lif_update_loop_S. cbn zeta. rewrite Hx.
  cbn [fst snd update_loop]. reflexivity.
Qed.
End glif_lif_skipped_current.

(** C9.  Two runs of the plain [update] over the lags [from, ..., to - 1]
    that differ only in the value waiting in the current buffer for lag
    [k], where the step after lag [k] is again a refractory one, hand the
    same spikes to the host and log the same voltages.  The value drained at
    lag [k] goes to [I_], is not read by the refractory step and is
    overwritten at its end: when that step belongs to the slice, the two
    runs end in the same node; when lag [k] is the last of the slice, the
    two nodes differ in [I_] only, events are delivered to both alike, and
    every next slice makes them equal. *)
Theorem lif_skipped_current_unobservable
    (h : R) (origin : Z) (n : glif_lif.Node) (from to k : Z) (c : R) :
  (0 <= from)%Z -> (from <= k)%Z -> (k < to)%Z ->
  glif_lif.t_ref_remaining_
    (glif_lif.V_ (glif_lif.update h origin n from (k + 1)).1) > 0 ->
  let r := glif_lif.update h origin n from to in
  let r' := glif_lif.update h origin (with_current n (Z.to_nat k) c) from to in
  (r'.2 = r.2
   /\ glif_lif.logger_ (glif_lif.B_ r'.1) = glif_lif.logger_ (glif_lif.B_ r.1)
   /\ glif_lif.V_m_ (glif_lif.S_ r'.1) = glif_lif.V_m_ (glif_lif.S_ r.1))
  /\ ((k + 1 < to)%Z -> r' = r)
  /\ ((k + 1 = to)%Z ->
      exists x,
        r'.1 = glif_lif.set_I r.1 x
        /\ (forall steps w a,
              glif_lif.handle_current (glif_lif.set_I r.1 x) steps w a
              = glif_lif.set_I (glif_lif.handle_current r.1 steps w a) x)
        /\ (forall h2 origin2 from2 to2,
              (from2 < to2)%Z ->
              glif_lif.update h2 origin2 r'.1 from2 to2
              = glif_lif.update h2 origin2 r.1 from2 to2)).
Proof.
  intros Hfrom Hk Hto Href r r'.
  assert (Hlater : (k + 1 < to)%Z -> r' = r).
  { intros Hin. subst r r'. unfold glif_lif.update in *.
    set (a := Z.to_nat (k - from)).
    set (rest := Z.to_nat (to - (k + 2))).
    replace (Z.to_nat (to - from)) with (a + S (S rest))%nat by lia.
    replace (Z.to_nat (k + 1 - from)) with (a + 1)%nat in Href by lia.
    assert (Ek : (from + Z.of_nat a = k)%Z) by lia.
    change (glif_lif.V_m_ (glif_lif.S_ (with_current n (Z.to_nat k) c)))
      with (glif_lif.V_m_ (glif_lif.S_ n)).
    rewrite (lif_update_loop_app h origin a (S (S rest)) n from).
    rewrite (lif_update_loop_app h origin a 1 n from) in Href.
    cbn zeta in Href |- *. rewrite Ek in Href |- *.
    rewrite lif_update_loop_S in Href. cbn zeta in Href.
    cbn [fst snd glif_lif.update_loop] in Href.
    pose proof (lif_update_loop_app h origin a (S (S rest))
                  (with_current n (Z.to_nat k) c) from) as Happ.
    cbn zeta in Happ. rewrite Ek in Happ.
    change (glif_lif.V_m_ (glif_lif.S_ (with_current n (Z.to_nat k) c)))
      with (glif_lif.V_m_ (glif_lif.S_ n)) in Happ.
    rewrite Happ. clear Happ.
    rewrite (lif_update_loop_other_slots h origin k c a n) by lia.
    cbn zeta. cbn [fst snd].
    change (glif_lif.V_m_ (glif_lif.S_ (with_current ?x (Z.to_nat k) c)))
      with (glif_lif.V_m_ (glif_lif.S_ x)).
    rewrite lif_update_loop_skips_current by (lia || exact Href).
    reflexivity. }
  assert (Hlast : (k + 1 = to)%Z ->
            exists x, r' = (glif_lif.set_I r.1 x, r.2)).
  { intros <-. subst r r'.
    destruct (lif_update_until_slot h origin n k c from Hfrom Hk) as [x Hx].
    exists x. exact Hx. }
  split; [| split; [exact Hlater |]].
  - destruct (Z_lt_le_dec (k + 1) to) as [Hin | Hout].
    + rewrite (Hlater Hin). auto.
    + destruct Hlast as [x ->]; [lia |]. auto.
  - intros Hend. destruct (Hlast Hend) as [x Hx]. exists x.
    rewrite Hx. cbn [fst snd]. split; [reflexivity |]. split.
    + reflexivity.
    + intros h2 origin2 from2 to2 Hlt.
      apply lif_update_forgets_I; [| exact Hlt].
      subst r. rewrite <- Hend. exact Href.
Qed.

Lemma lif_skipped_current_unobservable_witness :
  glif_lif.update 1 0 (with_current (lif_sample 0 0 0) (Z.to_nat 0) 5) 0 3
  = glif_lif.update 1 0 (lif_sample 0 0 0) 0 3.
Proof.
  pose proof (lif_skipped_current_unobservable 1 0 (lif_sample 0 0 0) 0 3 0 5)
    as H.
  cbv zeta in H.
  destruct H as (_ & E & _).
  - lia.
  - lia.
  - lia.
  - unfold glif_lif.update.
    change (Z.to_nat (0 + 1 - 0)) with 1%nat.
    rewrite lif_update_loop_S. cbn zeta. cbn [fst snd glif_lif.update_loop].
    rewrite lif_update_step_crossing; simpl; lra.
  - apply E. lia.
Defined.

(** ** Further properties of the code *)

(** *** Status dictionaries *)

Section Dictionaries.
Import nest.

Lemma updateValue_string_ok d k v :
  string_entry_ok d k ->
  updateValue getValue_string d k v
  = ret (dict_string d k v, bool_decide (is_Some (d !! k))).
Proof.
  unfold string_entry_ok, updateValue, dict_string.
  destruct (d !! k) as [[] |]; simpl; intros H; try contradiction;
    reflexivity.
Qed.

Lemma updateValue_double_bad d k v :
  ~ double_entry_ok d k ->
  updateValue getValue_double d k v = throw TypeMismatch.
Proof.
  unfold double_entry_ok, updateValue.
  destruct (d !! k) as [[] |]; simpl; intros H; try reflexivity;
    exfalso; apply H; exact I.
Qed.

Lemma updateValue_string_bad d k v :
  ~ string_entry_ok d k ->
  updateValue getValue_string d k v = throw TypeMismatch.
Proof.
  unfold string_entry_ok, updateValue.
  destruct (d !! k) as [[] |]; simpl; intros H; try reflexivity;
    exfalso; apply H; exact I.
Qed.

Lemma double_entry_ok_dec d k : {double_entry_ok d k} + {~ double_entry_ok d k}.
Proof.
  unfold double_entry_ok. destruct (d !! k) as [[] |]; auto.
Qed.

Lemma string_entry_ok_dec d k : {string_entry_ok d k} + {~ string_entry_ok d k}.
Proof.
  unfold string_entry_ok. destruct (d !! k) as [[] |]; auto.
Qed.
End Dictionaries.

(** X1.  [glif_lif::Parameters_::set] is a typed merge.  When every one of
    its seven keys is absent from the dictionary or holds a datum of the
    field's type, the call succeeds and returns the parameters with the
    entries present written over them, the others kept; when one of them
    holds a datum of another type, the call throws [TypeMismatch].  A
    dictionary with none of the keys leaves the parameters as they are. *)
Theorem lif_set_typed_merge
    (p : glif_lif.Parameters_) (d : nest.DictionaryDatum) :
  (lif_dict_ok d -> glif_lif.Parameters_set p d = nest.ret (lif_merge p d))
  /\ (~ lif_dict_ok d ->
      glif_lif.Parameters_set p d = nest.throw nest.TypeMismatch)
  /\ glif_lif.Parameters_set p ∅ = nest.ret p.
Proof.
  split; [| split].
  - intros (H1 & H2 & H3 & H4 & H5 & H6 & H7).
    unfold glif_lif.Parameters_set.
    rewrite !updateValue_double_ok by assumption. simpl.
    rewrite updateValue_string_ok by assumption. reflexivity.
  - intros Hbad. unfold glif_lif.Parameters_set, lif_dict_ok in *.
    destruct (double_entry_ok_dec d nest.names.V_th) as [H1 | H1];
      [rewrite updateValue_double_ok by assumption; simpl
      | rewrite updateValue_double_bad by assumption; reflexivity].
    destruct (double_entry_ok_dec d nest.names.g) as [H2 | H2];
      [rewrite updateValue_double_ok by assumption; simpl
      | rewrite updateValue_double_bad by assumption; reflexivity].
    destruct (double_entry_ok_dec d nest.names.E_L) as [H3 | H3];
      [rewrite updateValue_double_ok by assumption; simpl
      | rewrite updateValue_double_bad by assumption; reflexivity].
    destruct (double_entry_ok_dec d nest.names.C_m) as [H4 | H4];
      [rewrite updateValue_double_ok by assumption; simpl
      | rewrite updateValue_double_bad by assumption; reflexivity].
    destruct (double_entry_ok_dec d nest.names.t_ref) as [H5 | H5];
      [rewrite updateValue_double_ok by assumption; simpl
      | rewrite updateValue_double_bad by assumption; reflexivity].
    destruct (double_entry_ok_dec d nest.names.V_reset) as [H6 | H6];
      [rewrite updateValue_double_ok by assumption; simpl
      | rewrite updateValue_double_bad by assumption; reflexivity].
    destruct (string_entry_ok_dec d "V_dynamics_method") as [H7 | H7];
      [exfalso; apply Hbad; auto 10
      | rewrite updateValue_string_bad by assumption; reflexivity].
  - destruct p. reflexivity.
Qed.

(** Reading back an entry that [def] wrote, and one it did not touch. *)
Ltac read_def :=
  unfold nest.def, nest.names.V_th, nest.names.g, nest.names.E_L,
    nest.names.C_m, nest.names.t_ref, nest.names.V_reset, nest.names.V_m,
    nest.names.tau_syn, nest.names.has_connections;
  repeat first [ rewrite lookup_insert_eq
               | rewrite lookup_insert_ne by done ].

(** X2.  What [glif_lif::Parameters_::get] writes into a dictionary,
    [Parameters_::set] reads back: whatever the dictionary held before and
    whatever parameters the reader had, it ends with the parameters that
    were written.  [State_::get] and [State_::set] carry the membrane
    voltage in the same way and leave the current [I_] of the reader
    alone. *)
Theorem lif_get_set_round_trip
    (p q : glif_lif.Parameters_) (s t : glif_lif.State_)
    (d : nest.DictionaryDatum) :
  glif_lif.Parameters_set q (glif_lif.Parameters_get p d) = nest.ret p
  /\ glif_lif.State_set t (glif_lif.State_get s d) q
     = nest.ret {| glif_lif.V_m_ := glif_lif.V_m_ s;
                   glif_lif.I_ := glif_lif.I_ t |}.
Proof.
  split.
  - unfold glif_lif.Parameters_set, glif_lif.Parameters_get, nest.updateValue.
    cbn zeta. read_def. simpl. destruct p. reflexivity.
  - unfold glif_lif.State_set, glif_lif.State_get, nest.updateValue.
    read_def. reflexivity.
Qed.

(** *** The time constants in [glif_lif_psc::Parameters_::set] *)

Section glif_lif_psc_time_constants.
Import nest glif_lif_psc.

Lemma check_tau_syn_positive tau_syn :
  Forall (fun t => 0 < t) tau_syn -> check_tau_syn tau_syn = ret tt.
Proof.
  induction 1 as [| t rest Ht _ IH]; simpl; [reflexivity |].
  destruct (Rle_dec t 0); [lra | exact IH].
Qed.

Lemma check_tau_syn_not_positive tau_syn :
  Exists (fun t => t <= 0) tau_syn ->
  check_tau_syn tau_syn = throw (BadProperty positive_message).
Proof.
  induction 1 as [t rest Ht | t rest _ IH]; simpl.
  - destruct (Rle_dec t 0); [reflexivity | lra].
  - destruct (Rle_dec t 0); [reflexivity | exact IH].
Qed.

(** The call, once the scalar entries are read. *)
Lemma psc_set_scalars_ok p d :
  psc_scalars_ok d ->
  Parameters_set p d =
  match d !! "tau_syn"%string with
  | None => ret (psc_merge p d (tau_syn_ p))
  | Some (DoubleVectorDatum tau_syn) =>
      bind (check_tau_syn tau_syn)
        (fun _ => ret (psc_merge p d tau_syn))
  | Some _ => throw TypeMismatch
  end.
Proof.
  intros (H1 & H2 & H3 & H4 & H5 & H6 & H7).
  unfold Parameters_set.
  rewrite !updateValue_double_ok by assumption. simpl.
  unfold updateValue at 1.
  destruct (d !! "tau_syn"%string) as [[x | x | tau_syn | x] |] eqn:E;
    simpl; try reflexivity.
  - rewrite updateValue_string_ok by assumption. simpl.
    unfold updateValue. rewrite E. simpl.
    unfold n_receptors_. simpl.
    rewrite bool_decide_eq_true_2 by done. reflexivity.
  - rewrite updateValue_string_ok by assumption. simpl.
    unfold updateValue. rewrite E. reflexivity.
Qed.
End glif_lif_psc_time_constants.

(** X3.  [glif_lif_psc::Parameters_::set] validates the time constants it
    is given, and only those.  With well-typed scalar entries: an update
    without [tau_syn] keeps the stored sequence unexamined; an update whose
    [tau_syn] holds only positive numbers succeeds and stores it, whatever
    its length and whether or not the node has connections; an update whose
    [tau_syn] holds a number that is not positive throws [BadProperty] with
    the message of the positivity check. *)
Theorem psc_set_checks_time_constants
    (p : glif_lif_psc.Parameters_) (d : nest.DictionaryDatum) :
  psc_scalars_ok d ->
  (d !! "tau_syn"%string = None ->
   glif_lif_psc.Parameters_set p d
   = nest.ret (psc_merge p d (glif_lif_psc.tau_syn_ p)))
  /\ (forall tau_syn,
        d !! "tau_syn"%string = Some (nest.DoubleVectorDatum tau_syn) ->
        Forall (fun t => 0 < t) tau_syn ->
        glif_lif_psc.Parameters_set p d = nest.ret (psc_merge p d tau_syn))
  /\ (forall tau_syn,
        d !! "tau_syn"%string = Some (nest.DoubleVectorDatum tau_syn) ->
        Exists (fun t => t <= 0) tau_syn ->
        glif_lif_psc.Parameters_set p d
        = nest.throw (nest.BadProperty positive_message)).
Proof.
  intros Hok. rewrite (psc_set_scalars_ok p d Hok).
  split; [| split].
  - intros ->. reflexivity.
  - intros tau_syn -> Hpos.
    rewrite check_tau_syn_positive by exact Hpos. reflexivity.
  - intros tau_syn -> Hbad.
    rewrite check_tau_syn_not_positive by exact Hbad. reflexivity.
Qed.

Lemma psc_set_checks_time_constants_witness :
  glif_lif_psc.Parameters_set glif_lif_psc.Parameters_default
    two_time_constants
  = nest.ret (psc_merge glif_lif_psc.Parameters_default two_time_constants
                [2; 5])
  /\ glif_lif_psc.Parameters_set glif_lif_psc.Parameters_default
       zero_time_constant
     = nest.throw (nest.BadProperty positive_message).
Proof.
  assert (Hok : forall l,
            psc_scalars_ok {[ "tau_syn"%string := nest.DoubleVectorDatum l ]}).
  { intros l. unfold psc_scalars_ok, double_entry_ok, string_entry_ok.
    unfold nest.names.V_th, nest.names.g, nest.names.E_L, nest.names.C_m,
      nest.names.t_ref, nest.names.V_reset.
    rewrite !lookup_singleton_ne by done. auto 10. }
  destruct (psc_set_checks_time_constants glif_lif_psc.Parameters_default
              two_time_constants (Hok _)) as (_ & Hgood & _).
  destruct (psc_set_checks_time_constants glif_lif_psc.Parameters_default
              zero_time_constant (Hok _)) as (_ & _ & Hbad).
  split.
  - apply (Hgood [2; 5]); [reflexivity |].
    repeat constructor; lra.
  - apply (Hbad [2; 0]); [reflexivity |].
    right. left. lra.
Defined.

(** X4.  What [glif_lif_psc::Parameters_::get] writes, [Parameters_::set]
    reads back, provided the time constants written are positive: the
    reader ends with the scalars, the time constants and the method of the
    writer.  The [has_connections] entry is written but never read: the
    reader keeps its own flag.  [State_::set] takes the voltage written by
    [State_::get] and leaves the current and the synaptic state alone. *)
Theorem psc_get_set_round_trip
    (p q : glif_lif_psc.Parameters_) (s t : glif_lif_psc.State_)
    (d : nest.DictionaryDatum) :
  Forall (fun tau => 0 < tau) (glif_lif_psc.tau_syn_ p) ->
  glif_lif_psc.Parameters_set q (glif_lif_psc.Parameters_get p d)
  = nest.ret
      {| glif_lif_psc.th_inf_ := glif_lif_psc.th_inf_ p;
         glif_lif_psc.G_ := glif_lif_psc.G_ p;
         glif_lif_psc.E_l_ := glif_lif_psc.E_l_ p;
         glif_lif_psc.C_m_ := glif_lif_psc.C_m_ p;
         glif_lif_psc.t_ref_ := glif_lif_psc.t_ref_ p;
         glif_lif_psc.V_reset_ := glif_lif_psc.V_reset_ p;
         glif_lif_psc.tau_syn_ := glif_lif_psc.tau_syn_ p;
         glif_lif_psc.V_dynamics_method_ := glif_lif_psc.V_dynamics_method_ p;
         glif_lif_psc.has_connections_ := glif_lif_psc.has_connections_ q |}
  /\ glif_lif_psc.State_set t (glif_lif_psc.State_get s d) q
     = nest.ret {| glif_lif_psc.V_m_ := glif_lif_psc.V_m_ s;
                   glif_lif_psc.I_ := glif_lif_psc.I_ t;
                   glif_lif_psc.y1_ := glif_lif_psc.y1_ t;
                   glif_lif_psc.y2_ := glif_lif_psc.y2_ t |}.
Proof.
  intros Hpos. split.
  - rewrite psc_set_scalars_ok.
    + unfold glif_lif_psc.Parameters_get. cbn zeta. read_def.
      rewrite check_tau_syn_positive by exact Hpos. simpl.
      unfold psc_merge, dict_double, dict_string. read_def. reflexivity.
    + unfold psc_scalars_ok, double_entry_ok, string_entry_ok,
        glif_lif_psc.Parameters_get.
      cbn zeta. read_def. auto 10.
  - unfold glif_lif_psc.State_set, glif_lif_psc.State_get, nest.updateValue.
    read_def. reflexivity.
Qed.

Lemma psc_get_set_round_trip_witness :
  glif_lif_psc.Parameters_set psc_two_receptors
    (glif_lif_psc.Parameters_get glif_lif_psc.Parameters_default ∅)
  = nest.ret
      {| glif_lif_psc.th_inf_ := 0.0265 * 1.0e03;
         glif_lif_psc.G_ := 4.6951;
         glif_lif_psc.E_l_ := -0.0774 * 1.0e03;
         glif_lif_psc.C_m_ := 99.182;
         glif_lif_psc.t_ref_ := 0.5;
         glif_lif_psc.V_reset_ := 0.0;
         glif_lif_psc.tau_syn_ := [2.0];
         glif_lif_psc.V_dynamics_method_ := "linear_forward_euler";
         glif_lif_psc.has_connections_ := true |}.
Proof.
  apply (psc_get_set_round_trip glif_lif_psc.Parameters_default
           psc_two_receptors (glif_lif_psc.State_default psc_two_receptors)
           (glif_lif_psc.State_default psc_two_receptors) ∅).
  simpl. repeat constructor. lra.
Defined.

(** *** Delivery of events *)

Section glif_lif_psc_delivery.
Import nest glif_lif_psc.

(** A receptor port is accepted exactly when it names a receptor. *)
Lemma psc_handles_test_event_inv n r n' r' :
  handles_test_event n r = ret (n', r') ->
  r' = r
  /\ (1 <= r <= Z.of_nat (n_receptors_ (P_ n)))%Z
  /\ has_connections_ (P_ n') = true
  /\ tau_syn_ (P_ n') = tau_syn_ (P_ n)
  /\ S_ n' = S_ n /\ V_ n' = V_ n /\ B_ n' = B_ n.
Proof.
  unfold handles_test_event.
  destruct (bool_decide (r <= 0)%Z) eqn:E1; simpl; [discriminate |].
  destruct (bool_decide (r > Z.of_nat (n_receptors_ (P_ n)))%Z) eqn:E2;
    simpl; [discriminate |].
  apply bool_decide_eq_false in E1, E2.
  intros [= <- <-]. simpl. repeat split; auto; lia.
Qed.

Lemma psc_handles_test_event_rejects n r :
  ~ (1 <= r <= Z.of_nat (n_receptors_ (P_ n)))%Z ->
  handles_test_event n r = throw (IncompatibleReceptorType r).
Proof.
  intros Hout. unfold handles_test_event.
  destruct (bool_decide (r <= 0)%Z) eqn:E1; simpl; [reflexivity |].
  destruct (bool_decide (r > Z.of_nat (n_receptors_ (P_ n)))%Z) eqn:E2;
    simpl; [reflexivity |].
  apply bool_decide_eq_false in E1, E2. lia.
Qed.
End glif_lif_psc_delivery.

(** X5.  A spike sent to an accepted port reaches its receptor, and only
    that one.  When [handles_test_event] accepts port [r] of a node whose
    vectors have one cell per receptor, [r] names a receptor, the node is
    marked as connected, and a spike handled for that port at relative step
    [steps] with weight [w] and multiplicity [mult] is drained by the update
    step at lag [steps] into [y1_[r - 1]]: the value added there is
    [PSCInitialValues_[r - 1]] times what the slot held plus [w * mult].
    Every other receptor is advanced with what its own slot held.  A port
    that names no receptor is refused with [IncompatibleReceptorType]. *)
Theorem psc_spike_reaches_its_receptor
    (h : R) (origin : Z) (n n' : glif_lif_psc.Node) (r r' steps : Z)
    (w : R) (mult : Z) (v_old : R) :
  psc_sized n ->
  glif_lif_psc.handles_test_event n r = nest.ret (n', r') ->
  (0 <= steps)%Z ->
  (Z.to_nat steps
   < length (nest.at_ [] (glif_lif_psc.spikes_ (glif_lif_psc.B_ n))
               (Z.to_nat (r - 1))))%nat ->
  let i := Z.to_nat (r - 1) in
  let m := glif_lif_psc.handle_spike n' r' steps w mult in
  let q := (glif_lif_psc.update_step h origin m v_old steps).1.1 in
  let v := glif_lif_psc.V_ n in
  let slot j :=
    (nest.get_value
       (nest.at_ [] (glif_lif_psc.spikes_ (glif_lif_psc.B_ n)) j) steps).1 in
  r' = r
  /\ (i < glif_lif_psc.n_receptors_ (glif_lif_psc.P_ n))%nat
  /\ glif_lif_psc.has_connections_ (glif_lif_psc.P_ n') = true
  /\ nest.at_ 0 (glif_lif_psc.y1_ (glif_lif_psc.S_ q)) i
     = nest.at_ 0 (glif_lif_psc.y1_ (glif_lif_psc.S_ n)) i
       * nest.at_ 0 (glif_lif_psc.P11_ v) i
       + nest.at_ 0 (glif_lif_psc.PSCInitialValues_ v) i
         * (slot i + w * IZR mult)
  /\ (forall j,
        (j < glif_lif_psc.n_receptors_ (glif_lif_psc.P_ n))%nat -> j <> i ->
        nest.at_ 0 (glif_lif_psc.y1_ (glif_lif_psc.S_ q)) j
        = nest.at_ 0 (glif_lif_psc.y1_ (glif_lif_psc.S_ n)) j
          * nest.at_ 0 (glif_lif_psc.P11_ v) j
          + nest.at_ 0 (glif_lif_psc.PSCInitialValues_ v) j * slot j)
  /\ (forall r0,
        ~ (1 <= r0
           <= Z.of_nat (glif_lif_psc.n_receptors_ (glif_lif_psc.P_ n)))%Z ->
        glif_lif_psc.handles_test_event n r0
        = nest.throw (nest.IncompatibleReceptorType r0)).
Proof.
  intros Hsz Hacc Hsteps Hslot i m q v slot.
  destruct (psc_handles_test_event_inv n r n' r' Hacc)
    as (-> & Hr & Hconn & Htau & HS & HV & HB).
  assert (Hi : (i < glif_lif_psc.n_receptors_ (glif_lif_psc.P_ n))%nat)
    by (subst i; lia).
  assert (Hnr : glif_lif_psc.n_receptors_ (glif_lif_psc.P_ n')
                = glif_lif_psc.n_receptors_ (glif_lif_psc.P_ n)).
  { unfold glif_lif_psc.n_receptors_. rewrite Htau. reflexivity. }
  assert (Hsm : psc_sized m).
  { unfold psc_sized in *. subst m. simpl. rewrite length_insert.
    rewrite Hnr, HS, HV, HB. exact Hsz. }
  assert (HPm : glif_lif_psc.P_ m = glif_lif_psc.P_ n') by reflexivity.
  assert (HSm : glif_lif_psc.S_ m = glif_lif_psc.S_ n) by (subst m; simpl; exact HS).
  assert (HVm : glif_lif_psc.V_ m = v) by (subst m; simpl; exact HV).
  assert (Hlen : length (glif_lif_psc.spikes_ (glif_lif_psc.B_ n))
                 = glif_lif_psc.n_receptors_ (glif_lif_psc.P_ n)).
  { destruct Hsz as (_ & _ & _ & _ & _ & _ & _ & _ & L). exact L. }
  split; [reflexivity |]. split; [exact Hi |]. split; [exact Hconn |].
  split; [| split].
  - destruct (psc_update_step_filter h origin m v_old steps i Hsm)
      as (_ & F1 & _); [rewrite HPm, Hnr; exact Hi |].
    fold q in F1. rewrite F1, HSm, HVm. f_equal. f_equal.
    subst m. simpl. rewrite HB. fold i.
    rewrite at_insert_eq
      by (unfold nest.RingBuffer in *; rewrite Hlen; exact Hi).
    apply get_value_add_value; [exact Hsteps | exact Hslot].
  - intros j Hj Hne.
    destruct (psc_update_step_filter h origin m v_old steps j Hsm)
      as (_ & F1 & _); [rewrite HPm, Hnr; exact Hj |].
    fold q in F1. rewrite F1, HSm, HVm. f_equal. f_equal.
    subst m. simpl. rewrite HB. fold i.
    rewrite at_insert_ne by done. reflexivity.
  - intros r0. apply psc_handles_test_event_rejects.
Qed.

Lemma psc_spike_reaches_its_receptor_witness :
  glif_lif_psc.handles_test_event (psc_sample 0 0 0) 1
  = nest.ret (psc_sample_bound, 1%Z)
  /\ nest.at_ 0
       (glif_lif_psc.y1_ (glif_lif_psc.S_
          (glif_lif_psc.update_step 1 0
             (glif_lif_psc.handle_spike psc_sample_bound 1 0 2.5 1) 0 0).1.1))
       0
     = 1.0 * nest.numerics_e / 2 * 2.5.
Proof.
  split; [reflexivity |].
  pose proof (psc_spike_reaches_its_receptor 1 0 (psc_sample 0 0 0)
                psc_sample_bound 1%Z 1%Z 0%Z 2.5 1%Z 0) as H.
  cbv zeta in H.
  destruct H as (_ & _ & _ & Hy1 & _).
  - unfold psc_sized. simpl. auto 10.
  - reflexivity.
  - lia.
  - simpl. lia.
  - change (Z.to_nat (1 - 1)) with 0%nat in Hy1.
    rewrite Hy1. simpl. unfold nest.at_. simpl. lra.
Defined.

Section glif_lif_delivery.
Import nest glif_lif.

(** Delivering a current is writing the accumulated amount into the slot. *)
Lemma lif_handle_current_with_current n steps w c :
  (0 <= steps)%Z ->
  handle_current n steps w c
  = with_current n (Z.to_nat steps)
      (default 0 (currents_ (B_ n) !! Z.to_nat steps) + w * c).
Proof.
  intros Hs. unfold handle_current, with_current, add_value.
  rewrite (proj2 (Z.leb_le 0 steps) Hs). reflexivity.
Qed.
End glif_lif_delivery.

(** X6.  A current event acts one step after its delivery step.  When a
    current of [weight * current] is handled for the relative step [steps]
    of a plain node, the update step at lag [steps] computes the same
    voltage, timer and spikes as without the event; the event shows only in
    [I_], which after the step is larger by [weight * current], and the
    slot is empty again in both runs. *)
Theorem lif_current_acts_one_step_later
    (h : R) (origin : Z) (n : glif_lif.Node) (steps : Z) (w c v_old : R) :
  (0 <= steps)%Z ->
  (Z.to_nat steps < length (glif_lif.currents_ (glif_lif.B_ n)))%nat ->
  let m := glif_lif.handle_current n steps w c in
  let r := glif_lif.update_step h origin n v_old steps in
  let r' := glif_lif.update_step h origin m v_old steps in
  glif_lif.V_m_ (glif_lif.S_ r'.1.1) = glif_lif.V_m_ (glif_lif.S_ r.1.1)
  /\ glif_lif.V_ r'.1.1 = glif_lif.V_ r.1.1
  /\ r'.2 = r.2
  /\ glif_lif.B_ r'.1.1 = glif_lif.B_ r.1.1
  /\ glif_lif.I_ (glif_lif.S_ r.1.1)
     = default 0 (glif_lif.currents_ (glif_lif.B_ n) !! Z.to_nat steps)
  /\ glif_lif.I_ (glif_lif.S_ r'.1.1)
     = glif_lif.I_ (glif_lif.S_ r.1.1) + w * c.
Proof.
  intros Hs Hlen m r r'. subst m r r'.
  rewrite lif_handle_current_with_current by exact Hs.
  rewrite !lif_update_step_unfold. cbn zeta.
  rewrite lif_voltage_part_with_current. cbn zeta. cbn [fst snd].
  match goal with
  | |- context [if ?d then _ else _] => set (part := if d then _ else _)
  end.
  assert (HB : glif_lif.B_ part.1 = glif_lif.B_ n).
  { subst part. destruct (Rgt_dec _ _); cbn [fst].
    - destruct (lif_refractory_branch_spec (h * 1.0e-03) n v_old)
        as (_ & _ & _ & -> & _). reflexivity.
    - destruct (lif_voltage_dynamics_frame (h * 1.0e-03) n v_old)
        as (_ & _ & <- & _).
      unfold glif_lif.threshold_test. destruct (Rgt_dec _ _); reflexivity. }
  rewrite !lif_drain_and_record_eq.
  unfold with_current, nest.get_value. simpl.
  rewrite (proj2 (Z.leb_le 0 steps) Hs). simpl.
  rewrite HB. unfold nest.RingBuffer in *.
  rewrite list_insert_insert_eq, list_lookup_insert_eq by exact Hlen.
  simpl. auto 10.
Qed.

Lemma lif_current_acts_one_step_later_witness :
  glif_lif.I_ (glif_lif.S_
    (glif_lif.update_step 1 0
       (glif_lif.handle_current (lif_sample 0 0 0) 2 3 5) 0 2).1.1)
  = glif_lif.I_ (glif_lif.S_
      (glif_lif.update_step 1 0 (lif_sample 0 0 0) 0 2).1.1) + 3 * 5.
Proof.
  pose proof (lif_current_acts_one_step_later 1 0 (lif_sample 0 0 0) 2 3 5 0)
    as H.
  cbv zeta in H.
  destruct H as (_ & _ & _ & _ & _ & HI).
  - lia.
  - simpl. lia.
  - exact HI.
Defined.

(** *** Slices *)

Section glif_lif_psc_slices.
Import nest glif_lif_psc.
Variables (h : R) (origin : Z).

Lemma psc_update_loop_S count n v lag :
  update_loop h origin (S count) n v lag =
  let r := update_step h origin n v lag in
  let r' := update_loop h origin count r.1.1 r.1.2 (lag + 1) in
  (r'.1, r.2 ++ r'.2).
Proof.
  simpl. destruct (update_step h origin n v lag) as [[n' v'] sent].
  simpl. destruct (update_loop h origin count n' v' (lag + 1)).
  reflexivity.
Qed.

Lemma psc_update_step_v_old n v_old lag :
  (update_step h origin n v_old lag).1.2
  = V_m_ (S_ (update_step h origin n v_old lag).1.1).
Proof.
  unfold update_step. destruct (if Rgt_dec _ _ then _ else _). reflexivity.
Qed.

Lemma psc_update_loop_app a : forall b n lag,
  update_loop h origin (a + b) n (V_m_ (S_ n)) lag =
  let r := update_loop h origin a n (V_m_ (S_ n)) lag in
  let r' := update_loop h origin b r.1 (V_m_ (S_ r.1)) (lag + Z.of_nat a) in
  (r'.1, r.2 ++ r'.2).
Proof.
  induction a as [| a IH]; intros b n lag.
  - cbn zeta. simpl. rewrite Z.add_0_r.
    destruct (update_loop h origin b n (V_m_ (S_ n)) lag). reflexivity.
  - change (S a + b)%nat with (S (a + b)).
    rewrite !psc_update_loop_S. cbn zeta.
    rewrite psc_update_step_v_old, IH. cbn zeta. cbn [fst snd].
    replace (lag + 1 + Z.of_nat a)%Z with (lag + Z.of_nat (S a))%Z by lia.
    rewrite app_assoc. reflexivity.
Qed.
End glif_lif_psc_slices.

(** X7.  A slice can be cut anywhere.  For [from <= mid <= to], one call of
    [update] over the lags [from, ..., to - 1] ends in the same node and
    sends the same spikes, in the same order, as a call over
    [from, ..., mid - 1] followed by a call over [mid, ..., to - 1]; this
    holds for both models.  A call whose range is empty ([to <= from]) does
    nothing. *)
Theorem update_slices_compose
    (h : R) (origin : Z) (n : glif_lif.Node) (m : glif_lif_psc.Node)
    (from mid to : Z) :
  (from <= mid)%Z -> (mid <= to)%Z ->
  (glif_lif.update h origin n from to
   = let r := glif_lif.update h origin n from mid in
     let r' := glif_lif.update h origin r.1 mid to in
     (r'.1, r.2 ++ r'.2))
  /\ (glif_lif_psc.update h origin m from to
      = let q := glif_lif_psc.update h origin m from mid in
        let q' := glif_lif_psc.update h origin q.1 mid to in
        (q'.1, q.2 ++ q'.2))
  /\ (forall from0 to0,
        (to0 <= from0)%Z ->
        glif_lif.update h origin n from0 to0 = (n, [])
        /\ glif_lif_psc.update h origin m from0 to0 = (m, [])).
Proof.
  intros H1 H2.
  assert (E : Z.to_nat (to - from)
              = (Z.to_nat (mid - from) + Z.to_nat (to - mid))%nat) by lia.
  assert (Em : (from + Z.of_nat (Z.to_nat (mid - from)) = mid)%Z) by lia.
  split; [| split].
  - unfold glif_lif.update. rewrite E, lif_update_loop_app. cbn zeta.
    rewrite Em. reflexivity.
  - unfold glif_lif_psc.update. rewrite E, psc_update_loop_app. cbn zeta.
    rewrite Em. reflexivity.
  - intros from0 to0 Hle.
    unfold glif_lif.update, glif_lif_psc.update.
    replace (Z.to_nat (to0 - from0)) with 0%nat by lia. split; reflexivity.
Qed.

Lemma update_slices_compose_witness :
  glif_lif.update 1 0 (lif_sample 0 0 0) 0 3
  = (let r := glif_lif.update 1 0 (lif_sample 0 0 0) 0 1 in
     let r' := glif_lif.update 1 0 r.1 1 3 in
     (r'.1, r.2 ++ r'.2)).
Proof.
  apply (update_slices_compose 1 0 (lif_sample 0 0 0) (psc_sample 0 0 0) 0 1 3);
    lia.
Defined.

(** *** What a slice hands to the logger and to the host *)

Section glif_lif_outputs.
Import nest glif_lif.
Variables (h : R) (origin : Z).

Lemma lif_update_step_outputs n v_old lag :
  let r := update_step h origin n v_old lag in
  logger_ (B_ r.1.1) = logger_ (B_ n) ++ [((origin + lag)%Z, V_m_ (S_ r.1.1))]
  /\ (sent_lag <$> r.2) `sublist_of` [lag]
  /\ Forall (fun ev => t_sp ev = (origin + sent_lag ev + 1)%Z) r.2.
Proof.
  cbn zeta. rewrite lif_update_step_unfold. cbn zeta. cbn [fst snd].
  rewrite lif_drain_and_record_eq. simpl.
  destruct (Rgt_dec _ _); cbn [fst snd].
  - destruct (lif_refractory_branch_spec (h * 1.0e-03) n v_old)
      as (_ & _ & _ & -> & _).
    split; [reflexivity |]. split; [| constructor].
    simpl. apply sublist_cons, sublist_nil.
  - destruct (lif_voltage_dynamics_frame (h * 1.0e-03) n v_old)
      as (_ & _ & HB & _).
    unfold threshold_test. destruct (Rgt_dec _ _); cbn [fst snd]; simpl;
      rewrite HB; (split; [reflexivity |]); split.
    + apply sublist_skip, sublist_nil.
    + repeat constructor.
    + apply sublist_cons, sublist_nil.
    + constructor.
Qed.

Lemma lif_update_loop_outputs count : forall n v_old lag,
  let r := update_loop h origin count n v_old lag in
  fst <$> logger_ (B_ r.1)
  = (fst <$> logger_ (B_ n)) ++ (Z.add origin <$> seqZ lag (Z.of_nat count))
  /\ (sent_lag <$> r.2) `sublist_of` seqZ lag (Z.of_nat count)
  /\ Forall (fun ev => t_sp ev = (origin + sent_lag ev + 1)%Z) r.2
  /\ (0 < count ->
      last (logger_ (B_ r.1))
      = Some ((origin + lag + Z.of_nat count - 1)%Z, V_m_ (S_ r.1)))%nat.
Proof.
  induction count as [| count IH]; intros n v_old lag.
  - simpl. rewrite app_nil_r. repeat split; try constructor. lia.
  - cbn zeta. rewrite lif_update_loop_S. cbn zeta. cbn [fst snd].
    destruct (lif_update_step_outputs n v_old lag) as (HL & Hs & Ht).
    specialize (IH (update_step h origin n v_old lag).1.1
                  (update_step h origin n v_old lag).1.2 (lag + 1)%Z).
    cbn zeta in IH. destruct IH as (IL & Is & It & Ilast).
    rewrite (seqZ_cons lag (Z.of_nat (S count))) by lia.
    replace (Z.pred (Z.of_nat (S count))) with (Z.of_nat count) by lia.
    replace (Z.succ lag) with (lag + 1)%Z by lia.
    split; [| split; [| split]].
    + rewrite IL, HL, fmap_app, <- app_assoc. reflexivity.
    + rewrite fmap_app.
      change (lag :: seqZ (lag + 1) (Z.of_nat count))
        with ([lag] ++ seqZ (lag + 1) (Z.of_nat count)).
      apply sublist_app; assumption.
    + apply Forall_app. split; assumption.
    + intros _. destruct count as [| count].
      * simpl. rewrite HL, last_snoc. f_equal. f_equal. lia.
      * rewrite Ilast by lia. f_equal. f_equal. lia.
Qed.
End glif_lif_outputs.

Section glif_lif_psc_outputs.
Import nest glif_lif_psc.
Variables (h : R) (origin : Z).

Lemma psc_update_step_outputs n v_old lag :
  let r := update_step h origin n v_old lag in
  logger_ (B_ r.1.1) = logger_ (B_ n) ++ [((origin + lag)%Z, V_m_ (S_ r.1.1))]
  /\ (sent_lag <$> r.2) `sublist_of` [lag]
  /\ Forall (fun ev => t_sp ev = (origin + sent_lag ev + 1)%Z) r.2.
Proof.
  cbn zeta. rewrite psc_update_step_unfold. cbn zeta. cbn [fst snd].
  rewrite psc_drain_and_record_eq. simpl.
  match goal with
  | |- context [psc_loop ?c ?x ?l ?i] =>
      destruct (psc_loop_frame c x l i) as (_ & _ & -> & _ & _ & -> & _)
  end.
  destruct (psc_voltage_part_frame h origin n v_old lag) as (_ & -> & _).
  split; [reflexivity |].
  unfold psc_voltage_part. destruct (Rgt_dec _ _); cbn [fst snd].
  - split; [| constructor]. simpl. apply sublist_cons, sublist_nil.
  - unfold threshold_test. destruct (Rgt_dec _ _); cbn [fst snd]; simpl;
      split.
    + apply sublist_skip, sublist_nil.
    + repeat constructor.
    + apply sublist_cons, sublist_nil.
    + constructor.
Qed.

Lemma psc_update_loop_outputs count : forall n v_old lag,
  let r := update_loop h origin count n v_old lag in
  fst <$> logger_ (B_ r.1)
  = (fst <$> logger_ (B_ n)) ++ (Z.add origin <$> seqZ lag (Z.of_nat count))
  /\ (sent_lag <$> r.2) `sublist_of` seqZ lag (Z.of_nat count)
  /\ Forall (fun ev => t_sp ev = (origin + sent_lag ev + 1)%Z) r.2
  /\ (0 < count ->
      last (logger_ (B_ r.1))
      = Some ((origin + lag + Z.of_nat count - 1)%Z, V_m_ (S_ r.1)))%nat.
Proof.
  induction count as [| count IH]; intros n v_old lag.
  - simpl. rewrite app_nil_r. repeat split; try constructor. lia.
  - cbn zeta. rewrite psc_update_loop_S. cbn zeta. cbn [fst snd].
    destruct (psc_update_step_outputs n v_old lag) as (HL & Hs & Ht).
    specialize (IH (update_step h origin n v_old lag).1.1
                  (update_step h origin n v_old lag).1.2 (lag + 1)%Z).
    cbn zeta in IH. destruct IH as (IL & Is & It & Ilast).
    rewrite (seqZ_cons lag (Z.of_nat (S count))) by lia.
    replace (Z.pred (Z.of_nat (S count))) with (Z.of_nat count) by lia.
    replace (Z.succ lag) with (lag + 1)%Z by lia.
    split; [| split; [| split]].
    + rewrite IL, HL, fmap_app, <- app_assoc. reflexivity.
    + rewrite fmap_app.
      change (lag :: seqZ (lag + 1) (Z.of_nat count))
        with ([lag] ++ seqZ (lag + 1) (Z.of_nat count)).
      apply sublist_app; assumption.
    + apply Forall_app. split; assumption.
    + intros _. destruct count as [| count].
      * simpl. rewrite HL, last_snoc. f_equal. f_equal. lia.
      * rewrite Ilast by lia. f_equal. f_equal. lia.
Qed.
End glif_lif_psc_outputs.

(** X8.  One call of [update] over the lags [from, ..., to - 1], in either
    model, makes the logger sample once per lag, in order, stamped with
    [origin + lag]; when the range is not empty the last sample is the
    voltage the node ends with.  The spikes sent carry lags of the range, in
    increasing order and at most one per lag, and each is stamped for the
    step [origin + lag + 1]. *)
Theorem update_logs_and_stamps
    (h : R) (origin : Z) (n : glif_lif.Node) (m : glif_lif_psc.Node)
    (from to : Z) :
  let r := glif_lif.update h origin n from to in
  let q := glif_lif_psc.update h origin m from to in
  (fst <$> glif_lif.logger_ (glif_lif.B_ r.1)
   = (fst <$> glif_lif.logger_ (glif_lif.B_ n))
     ++ (Z.add origin <$> seqZ from (to - from))
   /\ (nest.sent_lag <$> r.2) `sublist_of` seqZ from (to - from)
   /\ Forall (fun ev => nest.t_sp ev = (origin + nest.sent_lag ev + 1)%Z) r.2
   /\ ((from < to)%Z ->
       last (glif_lif.logger_ (glif_lif.B_ r.1))
       = Some ((origin + to - 1)%Z, glif_lif.V_m_ (glif_lif.S_ r.1))))
  /\ (fst <$> glif_lif_psc.logger_ (glif_lif_psc.B_ q.1)
      = (fst <$> glif_lif_psc.logger_ (glif_lif_psc.B_ m))
        ++ (Z.add origin <$> seqZ from (to - from))
      /\ (nest.sent_lag <$> q.2) `sublist_of` seqZ from (to - from)
      /\ Forall (fun ev => nest.t_sp ev = (origin + nest.sent_lag ev + 1)%Z)
           q.2
      /\ ((from < to)%Z ->
          last (glif_lif_psc.logger_ (glif_lif_psc.B_ q.1))
          = Some ((origin + to - 1)%Z,
                  glif_lif_psc.V_m_ (glif_lif_psc.S_ q.1)))).
Proof.
  intros r q.
  assert (Hseq : seqZ from (Z.of_nat (Z.to_nat (to - from)))
                 = seqZ from (to - from)).
  { destruct (Z_le_gt_dec from to).
    - f_equal. lia.
    - rewrite !seqZ_nil by lia. reflexivity. }
  split.
  - subst r. unfold glif_lif.update.
    destruct (lif_update_loop_outputs h origin (Z.to_nat (to - from)) n
                (glif_lif.V_m_ (glif_lif.S_ n)) from)
      as (HL & Hs & Ht & Hlast).
    rewrite Hseq in HL, Hs.
    repeat split; try assumption.
    intros Hlt. rewrite Hlast by lia. f_equal. f_equal. lia.
  - subst q. unfold glif_lif_psc.update.
    destruct (psc_update_loop_outputs h origin (Z.to_nat (to - from)) m
                (glif_lif_psc.V_m_ (glif_lif_psc.S_ m)) from)
      as (HL & Hs & Ht & Hlast).
    rewrite Hseq in HL, Hs.
    repeat split; try assumption.
    intros Hlt. rewrite Hlast by lia. f_equal. f_equal. lia.
Qed.

(** *** The spike buffer of the plain model *)

Section glif_lif_spikes.
Import nest glif_lif.
Variables (h : R) (origin : Z).

Lemma lif_update_step_handle_spike n steps w v_old lag :
  update_step h origin (handle_spike n steps w) v_old lag =
  let r := update_step h origin n v_old lag in
  (handle_spike r.1.1 steps w, r.1.2, r.2).
Proof.
  cbn zeta. unfold update_step, drain_and_record. simpl.
  destruct (Rgt_dec _ _).
  - unfold refractory_branch. simpl.
    destruct (Rle_dec _ _); simpl; destruct (get_value _ _); reflexivity.
  - unfold voltage_dynamics, threshold_test. simpl.
    repeat destruct (String.eqb _ _); simpl;
      destruct (Rgt_dec _ _); simpl; destruct (get_value _ _); reflexivity.
Qed.

Lemma lif_update_loop_handle_spike steps w count : forall n v_old lag,
  update_loop h origin count (handle_spike n steps w) v_old lag =
  let r := update_loop h origin count n v_old lag in
  (handle_spike r.1 steps w, r.2).
Proof.
  induction count as [| count IH]; intros n v_old lag.
  - reflexivity.
  - rewrite !lif_update_loop_S. cbn zeta.
    rewrite lif_update_step_handle_spike. cbn zeta. cbn [fst snd].
    rewrite IH. reflexivity.
Qed.
End glif_lif_spikes.

(** X9.  The plain model does not listen to spikes.  [handle( SpikeEvent& )]
    accumulates the weight in [B_.spikes_], and [update] never reads that
    buffer: a slice run after the delivery ends in the node the slice ends
    in without it, with the same weight in the same slot, and sends the
    same spikes; voltages, currents, timers and what is logged are equal. *)
Theorem lif_spike_events_have_no_effect
    (h : R) (origin : Z) (n : glif_lif.Node) (steps : Z) (w : R)
    (from to : Z) :
  let r := glif_lif.update h origin n from to in
  let r' := glif_lif.update h origin (glif_lif.handle_spike n steps w) from to in
  r' = (glif_lif.handle_spike r.1 steps w, r.2)
  /\ glif_lif.S_ r'.1 = glif_lif.S_ r.1
  /\ glif_lif.V_ r'.1 = glif_lif.V_ r.1
  /\ glif_lif.logger_ (glif_lif.B_ r'.1) = glif_lif.logger_ (glif_lif.B_ r.1)
  /\ glif_lif.currents_ (glif_lif.B_ r'.1)
     = glif_lif.currents_ (glif_lif.B_ r.1).
Proof.
  intros r r'.
  assert (E : r' = (glif_lif.handle_spike r.1 steps w, r.2)).
  { subst r r'. unfold glif_lif.update.
    change (glif_lif.V_m_ (glif_lif.S_ (glif_lif.handle_spike n steps w)))
      with (glif_lif.V_m_ (glif_lif.S_ n)).
    apply lif_update_loop_handle_spike. }
  rewrite E. auto.
Qed.

(** *** What a slice leaves alone *)

Lemma psc_coefficients_kept_trans v1 v2 v3 :
  psc_coefficients_kept v1 v2 -> psc_coefficients_kept v2 v3 ->
  psc_coefficients_kept v1 v3.
Proof.
  unfold psc_coefficients_kept.
  intros (A1 & A2 & A3 & A4 & A5 & A6 & A7 & A8 & A9 & A10)
         (B1 & B2 & B3 & B4 & B5 & B6 & B7 & B8 & B9 & B10).
  repeat split; congruence.
Qed.

(** X10.  A slice changes neither the parameters nor what [calibrate]
    computed.  In the plain model [update] leaves [P_] and [t_ref_total_]
    as they are; in the psc model it leaves [P_], [t_ref_total_], the
    method flag and every propagator coefficient as they are, and the
    per-receptor vectors keep one cell per receptor.  Only the voltage, the
    current, the synaptic state, the refractory timer and the buffers
    move. *)
Theorem update_keeps_parameters
    (h : R) (origin : Z) (n : glif_lif.Node) (m : glif_lif_psc.Node)
    (from to : Z) :
  psc_sized m ->
  let r := glif_lif.update h origin n from to in
  let q := glif_lif_psc.update h origin m from to in
  (glif_lif.P_ r.1 = glif_lif.P_ n
   /\ glif_lif.t_ref_total_ (glif_lif.V_ r.1)
      = glif_lif.t_ref_total_ (glif_lif.V_ n))
  /\ (glif_lif_psc.P_ q.1 = glif_lif_psc.P_ m
      /\ psc_coefficients_kept (glif_lif_psc.V_ m) (glif_lif_psc.V_ q.1)
      /\ psc_sized q.1).
Proof.
  intros Hsz r q. split.
  - subst r. unfold glif_lif.update.
    apply (lif_update_loop_invariant h origin
             (fun x => glif_lif.P_ x = glif_lif.P_ n
                       /\ glif_lif.t_ref_total_ (glif_lif.V_ x)
                          = glif_lif.t_ref_total_ (glif_lif.V_ n)));
      [| auto].
    intros x v lag [HP HT].
    destruct (lif_update_step_timer h origin x v lag) as (-> & -> & _).
    auto.
  - subst q. unfold glif_lif_psc.update.
    apply (psc_update_loop_invariant h origin
             (fun x => glif_lif_psc.P_ x = glif_lif_psc.P_ m
                       /\ psc_coefficients_kept (glif_lif_psc.V_ m)
                            (glif_lif_psc.V_ x)
                       /\ psc_sized x));
      [| auto using psc_coefficients_kept_refl].
    intros x v lag (HP & Hk & Hs).
    destruct (psc_update_step_frame h origin x v lag)
      as (HP' & Hk' & L1 & L2 & L3 & _).
    split; [congruence |]. split.
    + eapply psc_coefficients_kept_trans; eassumption.
    + destruct Hk' as (_ & _ & K1 & K2 & K3 & K4 & K5 & _ & _ & K6).
      unfold psc_sized in *.
      rewrite HP', L1, L2, L3, K1, K2, K3, K4, K5, K6. exact Hs.
Qed.

Lemma update_keeps_parameters_witness :
  glif_lif_psc.P_
    (glif_lif_psc.update 1 0 (psc_sample 0 0 0) 0 3).1
  = psc_sample_parameters.
Proof.
  pose proof (update_keeps_parameters 1 0 (lif_sample 0 0 0)
                (psc_sample 0 0 0) 0 3) as H.
  cbv zeta in H.
  destruct H as (_ & HP & _).
  - unfold psc_sized. simpl. auto 10.
  - exact HP.
Defined.

(** *** The membrane equation *)

Section glif_lif_membrane.
Import nest glif_lif.
Variables (h : R) (origin : Z).

(** An integrating step ends at the voltage the dynamics computed, and
    with the current the buffer held at its lag; it keeps the
    parameters. *)
Lemma lif_integrating_step_voltage n v_old lag :
  t_ref_remaining_ (V_ n) <= 0 ->
  V_m_ (S_ (update_step h origin n v_old lag).1.1)
  = V_m_ (S_ (voltage_dynamics (h * 1.0e-03) n v_old)).
Proof.
  intros Hint. rewrite lif_step_integrating by exact Hint.
  cbn zeta. cbn [fst snd].
  rewrite lif_drain_and_record_eq. simpl.
  unfold threshold_test. destruct (Rgt_dec _ _); reflexivity.
Qed.
End glif_lif_membrane.

(** X12.  What an integrating step of the plain model does to the
    distance from the resting point [E_l_ + I_ / G_] of the membrane
    equation [C_m_ * V' = I_ - G_ * (V - E_l_)], for non-zero [G_] and
    [C_m_] and the step [dt = h * 1.0e-03]: the forward Euler scheme
    multiplies it by [1 - dt * G_ / C_m_], the exact scheme by
    [exp (- dt * G_ / C_m_)], so the resting point is a fixed point of
    both; with any other method string the step leaves the voltage of the
    node as it finds it, whatever [v_old] is. *)
Theorem lif_integration_relaxes_to_rest
    (h : R) (origin : Z) (n : glif_lif.Node) (v_old : R) (lag : Z) :
  let p := glif_lif.P_ n in
  let dt := h * 1.0e-03 in
  let rest := glif_lif.E_l_ p + glif_lif.I_ (glif_lif.S_ n) / glif_lif.G_ p in
  let v_new :=
    glif_lif.V_m_ (glif_lif.S_ (glif_lif.update_step h origin n v_old lag).1.1)
  in
  glif_lif.G_ p <> 0 -> glif_lif.C_m_ p <> 0 ->
  glif_lif.t_ref_remaining_ (glif_lif.V_ n) <= 0 ->
  (glif_lif.V_dynamics_method_ p = "linear_forward_euler"%string ->
   v_new - rest
   = (1 - dt * glif_lif.G_ p / glif_lif.C_m_ p) * (v_old - rest))
  /\ (glif_lif.V_dynamics_method_ p = "linear_exact"%string ->
      v_new - rest
      = exp (- dt * glif_lif.G_ p / glif_lif.C_m_ p) * (v_old - rest))
  /\ (glif_lif.V_dynamics_method_ p <> "linear_forward_euler"%string ->
      glif_lif.V_dynamics_method_ p <> "linear_exact"%string ->
      v_new = glif_lif.V_m_ (glif_lif.S_ n)).
Proof.
  intros p dt rest v_new HG HC Hint.
  assert (Hv : v_new
               = glif_lif.V_m_
                   (glif_lif.S_ (glif_lif.voltage_dynamics dt n v_old))).
  { apply lif_integrating_step_voltage. exact Hint. }
  rewrite Hv. unfold glif_lif.voltage_dynamics. fold p.
  split; [| split].
  - intros ->. simpl. subst rest. field. auto.
  - intros ->. simpl. subst rest.
    replace (- (glif_lif.G_ p / glif_lif.C_m_ p) * dt)
      with (- dt * (glif_lif.G_ p / glif_lif.C_m_ p)) by ring.
    replace (- dt * glif_lif.G_ p / glif_lif.C_m_ p)
      with (- dt * (glif_lif.G_ p / glif_lif.C_m_ p)) by (field; auto).
    field. auto.
  - intros H1 H2.
    apply String.eqb_neq in H1, H2. rewrite H1, H2. reflexivity.
Qed.

Lemma lif_integration_relaxes_to_rest_witness :
  glif_lif.V_m_
    (glif_lif.S_ (glif_lif.update_step 1 0 (lif_sample 1 0 0) 1 0).1.1) = 1.
Proof.
  pose proof (lif_integration_relaxes_to_rest 1 0 (lif_sample 1 0 0) 1 0)
    as H.
  cbv zeta in H.
  destruct H as (H & _); [simpl; lra | simpl; lra | simpl; lra |].
  specialize (H eq_refl). simpl in H. simpl. lra.
Defined.

(** *** The alpha shape *)

(** A slot that is empty stays empty when another one is read. *)
Lemma get_value_stays_empty (b : nest.RingBuffer) (l l' : Z) :
  (nest.get_value b l').1 = 0 ->
  (nest.get_value (nest.get_value b l).2 l').1 = 0.
Proof.
  unfold nest.get_value.
  destruct (Z.leb_spec 0 l) as [Hl | Hl]; cbn [fst snd]; [| auto].
  destruct (Z.leb_spec 0 l') as [Hl' | Hl']; cbn [fst snd]; [| auto].
  intros H0. unfold nest.RingBuffer in *.
  destruct (decide (Z.to_nat l = Z.to_nat l')) as [-> | Hne].
  - destruct (decide (Z.to_nat l' < length b)%nat) as [Hin | Hout].
    + by rewrite list_lookup_insert_eq.
    + rewrite list_insert_ge by lia. exact H0.
  - rewrite list_lookup_insert_ne by done. exact H0.
Qed.

Section glif_lif_psc_alpha.
Import nest glif_lif_psc.
Variables (h : R) (origin : Z).
Variables p31 p32 : R -> R -> R -> R -> R.

(** [k] steps of a receptor that receives nothing. *)
Lemma psc_free_decay_loop i k : forall n v lag,
  psc_calibrated p31 p32 h n ->
  (i < n_receptors_ (P_ n))%nat ->
  (forall j, (j < k)%nat ->
     (get_value (at_ [] (spikes_ (B_ n)) i) (lag + Z.of_nat j)).1 = 0) ->
  let tau := at_ 0 (tau_syn_ (P_ n)) i in
  let r := (update_loop h origin k n v lag).1 in
  at_ 0 (y1_ (S_ r)) i
  = exp (- (INR k * h) / tau) * at_ 0 (y1_ (S_ n)) i
  /\ at_ 0 (y2_ (S_ r)) i
     = exp (- (INR k * h) / tau)
       * (at_ 0 (y2_ (S_ n)) i + INR k * h * at_ 0 (y1_ (S_ n)) i).
Proof.
  induction k as [| k IH]; intros n v lag Hcal Hi Hquiet; cbn zeta.
  - cbn [update_loop fst INR].
    replace (- (0 * h) / at_ 0 (tau_syn_ (P_ n)) i) with 0
      by (unfold Rdiv; ring).
    rewrite exp_0. split; ring.
  - rewrite psc_update_loop_S. cbn zeta. cbn [fst].
    set (n1 := (update_step h origin n v lag).1.1).
    assert (Hcal1 : psc_calibrated p31 p32 h n1)
      by (apply psc_update_step_calibrated; exact Hcal).
    destruct (psc_update_step_frame h origin n v lag) as (HP & _).
    fold n1 in HP.
    destruct Hcal as [Hsz Hco].
    destruct (Hco i Hi) as (C11 & C22 & C21 & _).
    destruct (psc_update_step_filter h origin n v lag i Hsz Hi)
      as (F2 & F1 & Fs).
    fold n1 in F2, F1, Fs.
    assert (H0 : (get_value (at_ [] (spikes_ (B_ n)) i) lag).1 = 0).
    { specialize (Hquiet 0%nat ltac:(lia)).
      replace (lag + Z.of_nat 0)%Z with lag in Hquiet by lia.
      exact Hquiet. }
    rewrite H0, C11 in F1. rewrite C21, C22 in F2.
    destruct (IH n1 ((update_step h origin n v lag).1.2) (lag + 1)%Z Hcal1)
      as (I1 & I2).
    { rewrite HP. exact Hi. }
    { intros j Hj. rewrite Fs. apply get_value_stays_empty.
      specialize (Hquiet (S j) ltac:(lia)).
      replace (lag + 1 + Z.of_nat j)%Z with (lag + Z.of_nat (S j))%Z by lia.
      exact Hquiet. }
    rewrite HP in I1, I2. rewrite I1, I2, F1, F2.
    set (tau := at_ 0 (tau_syn_ (P_ n)) i).
    rewrite S_INR.
    replace (- ((INR k + 1) * h) / tau)
      with (- (INR k * h) / tau + - h / tau) by (unfold Rdiv; ring).
    rewrite exp_plus. split; ring.
Qed.
End glif_lif_psc_alpha.

(** X13.  The synaptic filter of the psc model is the alpha function.
    During a run at resolution [h], a slice of [k] steps in which receptor
    [i] finds nothing in its spike buffer takes its pair [(y1, y2)] to
    [exp (- k * h / tau) * y1] and
    [exp (- k * h / tau) * (y2 + k * h * y1)], whatever the voltage and the
    refractory timer do meanwhile.  So when a spike of weight [w] has just
    set [y1 = w * e / tau] with [y2 = 0], the current [y2] is
    [w * (t / tau) * exp (1 - t / tau)] after the time [t = k * h], and it
    equals [w] at [t = tau]. *)
Theorem psc_alpha_function
    (p31 p32 : R -> R -> R -> R -> R) (slots : nat) (h : R)
    (n : glif_lif_psc.Node) (origin from : Z) (k i : nat) :
  glif_lif_psc.running p31 p32 slots h n ->
  (i < glif_lif_psc.n_receptors_ (glif_lif_psc.P_ n))%nat ->
  (forall j, (j < k)%nat ->
     (nest.get_value
        (nest.at_ [] (glif_lif_psc.spikes_ (glif_lif_psc.B_ n)) i)
        (from + Z.of_nat j)).1 = 0) ->
  let tau := nest.at_ 0 (glif_lif_psc.tau_syn_ (glif_lif_psc.P_ n)) i in
  let y1 := nest.at_ 0 (glif_lif_psc.y1_ (glif_lif_psc.S_ n)) i in
  let y2 := nest.at_ 0 (glif_lif_psc.y2_ (glif_lif_psc.S_ n)) i in
  let t := INR k * h in
  let r := (glif_lif_psc.update h origin n from (from + Z.of_nat k)).1 in
  nest.at_ 0 (glif_lif_psc.y1_ (glif_lif_psc.S_ r)) i = exp (- t / tau) * y1
  /\ nest.at_ 0 (glif_lif_psc.y2_ (glif_lif_psc.S_ r)) i
     = exp (- t / tau) * (y2 + t * y1)
  /\ (forall w, tau <> 0 -> y1 = w * nest.numerics_e / tau -> y2 = 0 ->
      nest.at_ 0 (glif_lif_psc.y2_ (glif_lif_psc.S_ r)) i
      = w * (t / tau) * exp (1 - t / tau)
      /\ (t = tau ->
          nest.at_ 0 (glif_lif_psc.y2_ (glif_lif_psc.S_ r)) i = w)).
Proof.
  intros Hrun Hi Hquiet tau y1 y2 t r.
  pose proof (psc_running_calibrated p31 p32 slots h n Hrun) as Hcal.
  destruct (psc_free_decay_loop h origin p31 p32 i k n
              (glif_lif_psc.V_m_ (glif_lif_psc.S_ n)) from Hcal Hi Hquiet)
    as (H1 & H2).
  assert (Hr : r = (glif_lif_psc.update_loop h origin k n
                      (glif_lif_psc.V_m_ (glif_lif_psc.S_ n)) from).1).
  { subst r. unfold glif_lif_psc.update.
    replace (Z.to_nat (from + Z.of_nat k - from)) with k by lia.
    reflexivity. }
  rewrite <- Hr in H1, H2. fold tau y1 y2 t in H1, H2.
  split; [exact H1 |]. split; [exact H2 |].
  intros w Htau Hy1 Hy2.
  assert (Hshape : nest.at_ 0 (glif_lif_psc.y2_ (glif_lif_psc.S_ r)) i
                   = w * (t / tau) * exp (1 - t / tau)).
  { rewrite H2, Hy1, Hy2. unfold nest.numerics_e.
    replace (1 - t / tau) with (- t / tau + 1) by (unfold Rdiv; ring).
    rewrite exp_plus. field. exact Htau. }
  split; [exact Hshape |].
  intros Ht. rewrite Hshape, Ht.
  replace (1 - tau / tau) with 0 by (field; exact Htau).
  rewrite exp_0. field. exact Htau.
Qed.

Lemma psc_alpha_function_witness :
  let n0 :=
    glif_lif_psc.calibrate (fun _ _ _ _ => 0) (fun _ _ _ _ => 0) 4 1
      (psc_sample 0 0 0) in
  let n1 := glif_lif_psc.handle_spike n0 1 0 3 1 in
  let n2 := (glif_lif_psc.update 1 0 n1 0 1).1 in
  let r := (glif_lif_psc.update 1 0 n2 1 3).1 in
  nest.at_ 0 (glif_lif_psc.y1_ (glif_lif_psc.S_ n2)) 0
  = 3 * nest.numerics_e / 2
  /\ nest.at_ 0 (glif_lif_psc.y2_ (glif_lif_psc.S_ n2)) 0 = 0
  /\ nest.at_ 0 (glif_lif_psc.y2_ (glif_lif_psc.S_ r)) 0 = 3.
Proof.
  cbv zeta.
  set (n0 := glif_lif_psc.calibrate (fun _ _ _ _ => 0) (fun _ _ _ _ => 0)
               4 1 (psc_sample 0 0 0)).
  set (n1 := glif_lif_psc.handle_spike n0 1 0 3 1).
  assert (Hrun1 : glif_lif_psc.running (fun _ _ _ _ => 0)
                    (fun _ _ _ _ => 0) 4 1 n1).
  { apply glif_lif_psc.running_handle_spike,
      glif_lif_psc.running_calibrate. }
  assert (HP1 : glif_lif_psc.P_ n1 = psc_sample_parameters).
  { destruct (psc_calibrate_spec (fun _ _ _ _ => 0) (fun _ _ _ _ => 0) 4 1
                (psc_sample 0 0 0)) as (HP & _).
    exact HP. }
  destruct (psc_running_calibrated _ _ _ _ _ Hrun1) as [Hsz1 Hco1].
  assert (Hi1 : (0 < glif_lif_psc.n_receptors_ (glif_lif_psc.P_ n1))%nat).
  { rewrite HP1. unfold glif_lif_psc.n_receptors_. simpl. lia. }
  set (s := glif_lif_psc.update_step 1 0 n1
              (glif_lif_psc.V_m_ (glif_lif_psc.S_ n1)) 0).
  assert (Hn2 : (glif_lif_psc.update 1 0 n1 0 1).1 = s.1.1).
  { unfold glif_lif_psc.update. change (Z.to_nat (1 - 0)) with 1%nat.
    rewrite psc_update_loop_S. reflexivity. }
  destruct (psc_update_step_filter 1 0 n1
              (glif_lif_psc.V_m_ (glif_lif_psc.S_ n1)) 0 0%nat Hsz1 Hi1)
    as (F2 & F1 & Fs).
  destruct (psc_update_step_frame 1 0 n1
              (glif_lif_psc.V_m_ (glif_lif_psc.S_ n1)) 0) as (HPs & _).
  fold s in F2, F1, Fs, HPs.
  destruct (Hco1 0%nat Hi1) as (_ & _ & _ & _ & _ & Cpsc).
  rewrite HP1 in Cpsc.
  assert (E1 : nest.at_ 0 (glif_lif_psc.y1_ (glif_lif_psc.S_ n1)) 0 = 0)
    by reflexivity.
  assert (E2 : nest.at_ 0 (glif_lif_psc.y2_ (glif_lif_psc.S_ n1)) 0 = 0)
    by reflexivity.
  assert (E3 : nest.get_value
                 (nest.at_ [] (glif_lif_psc.spikes_ (glif_lif_psc.B_ n1)) 0)
                 0
               = (0 + 3 * 1, [0; 0; 0; 0])) by reflexivity.
  rewrite E1, Cpsc, E3 in F1. rewrite E1, E2 in F2. rewrite E3 in Fs.
  cbn [fst snd] in F1, Fs.
  assert (Htau : nest.at_ 0 (glif_lif_psc.tau_syn_ psc_sample_parameters) 0
                 = 2) by reflexivity.
  rewrite Htau in F1.
  assert (Hy1 : nest.at_ 0 (glif_lif_psc.y1_ (glif_lif_psc.S_ s.1.1)) 0
                = 3 * nest.numerics_e / 2) by (rewrite F1; lra).
  assert (Hy2 : nest.at_ 0 (glif_lif_psc.y2_ (glif_lif_psc.S_ s.1.1)) 0 = 0)
    by (rewrite F2; lra).
  pose proof (psc_alpha_function (fun _ _ _ _ => 0) (fun _ _ _ _ => 0) 4 1
                (glif_lif_psc.update 1 0 n1 0 1).1 0 1 2 0) as H.
  cbv zeta in H.
  destruct H as (_ & _ & H3).
  - apply glif_lif_psc.running_update. exact Hrun1.
  - rewrite Hn2, HPs. exact Hi1.
  - intros j Hj. rewrite Hn2, Fs.
    destruct j as [| [| j]]; [reflexivity | reflexivity | lia].
  - rewrite Hn2 in H3 |- *. rewrite HPs, HP1, Htau in H3.
    destruct (H3 3) as (_ & Hpeak).
    + lra.
    + exact Hy1.
    + exact Hy2.
    + split; [exact Hy1 |]. split; [exact Hy2 |].
      apply Hpeak. simpl. lra.
Defined.

(** *** The input buffers *)

Lemma get_value_read_slots (b : nest.RingBuffer) (l : Z) :
  (0 <= l)%Z -> (nest.get_value b l).2 = read_slots b l (l + 1).
Proof.
  intros Hl. unfold nest.get_value, read_slots, nest.RingBuffer in *.
  rewrite (proj2 (Z.leb_le 0 l) Hl). cbn [snd].
  apply list_eq. intros j. rewrite list_lookup_imap.
  destruct (decide (Z.to_nat l = j)) as [<- | Hne].
  - destruct (b !! Z.to_nat l) as [x |] eqn:E.
    + apply lookup_lt_Some in E as Hlt.
      rewrite list_lookup_insert_eq by exact Hlt. simpl.
      rewrite bool_decide_eq_true_2 by lia. reflexivity.
    + apply lookup_ge_None in E as Hge.
      rewrite list_insert_ge by exact Hge. rewrite E. reflexivity.
  - rewrite list_lookup_insert_ne by exact Hne.
    destruct (b !! j) as [x |]; simpl; [| reflexivity].
    rewrite bool_decide_eq_false_2 by lia. reflexivity.
Qed.

Lemma read_slots_compose (b : nest.RingBuffer) (from mid to : Z) :
  (from <= mid <= to)%Z ->
  read_slots (read_slots b from mid) mid to = read_slots b from to.
Proof.
  intros Hm. unfold read_slots, nest.RingBuffer in *.
  apply list_eq. intros j.
  rewrite !list_lookup_imap. destruct (b !! j) as [x |]; simpl; [| done].
  repeat case_bool_decide; try reflexivity; lia.
Qed.

Lemma read_slots_none (b : nest.RingBuffer) (from to : Z) :
  (to <= from)%Z -> read_slots b from to = b.
Proof.
  intros Hm. unfold read_slots, nest.RingBuffer in *.
  apply list_eq. intros j.
  rewrite list_lookup_imap. destruct (b !! j) as [x |]; simpl; [| done].
  rewrite bool_decide_eq_false_2 by lia. reflexivity.
Qed.

Lemma get_value_read_slots_outside (b : nest.RingBuffer) (from to l : Z) :
  (0 <= l)%Z -> ~ (from <= l < to)%Z ->
  (nest.get_value (read_slots b from to) l).1 = (nest.get_value b l).1.
Proof.
  intros Hl Hout. unfold nest.get_value, read_slots, nest.RingBuffer in *.
  rewrite (proj2 (Z.leb_le 0 l) Hl). cbn [fst].
  rewrite list_lookup_imap.
  destruct (b !! Z.to_nat l) as [x |]; simpl; [| reflexivity].
  rewrite bool_decide_eq_false_2 by lia. reflexivity.
Qed.

Section glif_lif_buffers.
Import nest glif_lif.
Variables (h : R) (origin : Z).

Lemma lif_update_step_buffer n v lag :
  let n' := (update_step h origin n v lag).1.1 in
  currents_ (B_ n') = (get_value (currents_ (B_ n)) lag).2
  /\ I_ (S_ n') = (get_value (currents_ (B_ n)) lag).1.
Proof.
  cbn zeta. rewrite lif_update_step_unfold. cbn zeta. cbn [fst snd].
  rewrite lif_drain_and_record_eq.
  destruct (Rgt_dec _ _); cbn [fst snd].
  - destruct (lif_refractory_branch_spec (h * 1.0e-03) n v)
      as (_ & _ & _ & -> & _). auto.
  - destruct (lif_voltage_dynamics_frame (h * 1.0e-03) n v)
      as (_ & _ & HB & _).
    unfold threshold_test. destruct (Rgt_dec _ _); simpl; rewrite HB; auto.
Qed.

Lemma lif_update_loop_buffer count : forall n v lag,
  (0 <= lag)%Z ->
  let r := (update_loop h origin count n v lag).1 in
  currents_ (B_ r)
  = read_slots (currents_ (B_ n)) lag (lag + Z.of_nat count)
  /\ (count <> 0%nat ->
      I_ (S_ r)
      = (get_value (currents_ (B_ n)) (lag + Z.of_nat count - 1)).1).
Proof.
  induction count as [| count IH]; intros n v lag Hlag; cbn zeta.
  - cbn [update_loop fst]. rewrite read_slots_none by lia. split; [done |].
    intros H0. contradiction.
  - rewrite lif_update_loop_S. cbn zeta. cbn [fst].
    destruct (lif_update_step_buffer n v lag) as (Hb & HI).
    destruct (IH (update_step h origin n v lag).1.1
                 (update_step h origin n v lag).1.2 (lag + 1)%Z
                 ltac:(lia)) as (I1 & I2).
    rewrite Hb, get_value_read_slots in I1 by exact Hlag.
    rewrite read_slots_compose in I1 by lia.
    split.
    + rewrite I1. f_equal. lia.
    + intros _. destruct count as [| count].
      * cbn [update_loop fst]. rewrite HI.
        replace (lag + Z.of_nat 1 - 1)%Z with lag by lia. reflexivity.
      * rewrite I2 by discriminate.
        rewrite Hb, get_value_read_slots by exact Hlag.
        rewrite get_value_read_slots_outside by lia.
        replace (lag + 1 + Z.of_nat (S count) - 1)%Z
          with (lag + Z.of_nat (S (S count)) - 1)%Z by lia.
        reflexivity.
Qed.
End glif_lif_buffers.

Section glif_lif_psc_buffers.
Import nest glif_lif_psc.
Variables (h : R) (origin : Z).

Lemma psc_update_step_buffer n v lag :
  let n' := (update_step h origin n v lag).1.1 in
  currents_ (B_ n') = (get_value (currents_ (B_ n)) lag).2
  /\ I_ (S_ n') = (get_value (currents_ (B_ n)) lag).1.
Proof.
  cbn zeta. rewrite psc_update_step_unfold. cbn zeta. cbn [fst snd].
  rewrite psc_drain_and_record_eq.
  match goal with
  | |- context [psc_loop ?c ?x ?l ?i] =>
      destruct (psc_loop_frame c x l i) as (_ & _ & _ & _ & HB & _)
  end.
  destruct (psc_voltage_part_frame h origin n v lag) as (_ & HB' & _).
  simpl. rewrite HB, HB'. auto.
Qed.

Lemma psc_update_loop_buffer count : forall n v lag,
  (0 <= lag)%Z ->
  let r := (update_loop h origin count n v lag).1 in
  currents_ (B_ r)
  = read_slots (currents_ (B_ n)) lag (lag + Z.of_nat count)
  /\ (count <> 0%nat ->
      I_ (S_ r)
      = (get_value (currents_ (B_ n)) (lag + Z.of_nat count - 1)).1).
Proof.
  induction count as [| count IH]; intros n v lag Hlag; cbn zeta.
  - cbn [update_loop fst]. rewrite read_slots_none by lia. split; [done |].
    intros H0. contradiction.
  - rewrite psc_update_loop_S. cbn zeta. cbn [fst].
    destruct (psc_update_step_buffer n v lag) as (Hb & HI).
    destruct (IH (update_step h origin n v lag).1.1
                 (update_step h origin n v lag).1.2 (lag + 1)%Z
                 ltac:(lia)) as (I1 & I2).
    rewrite Hb, get_value_read_slots in I1 by exact Hlag.
    rewrite read_slots_compose in I1 by lia.
    split.
    + rewrite I1. f_equal. lia.
    + intros _. destruct count as [| count].
      * cbn [update_loop fst]. rewrite HI.
        replace (lag + Z.of_nat 1 - 1)%Z with lag by lia. reflexivity.
      * rewrite I2 by discriminate.
        rewrite Hb, get_value_read_slots by exact Hlag.
        rewrite get_value_read_slots_outside by lia.
        replace (lag + 1 + Z.of_nat (S count) - 1)%Z
          with (lag + Z.of_nat (S (S count)) - 1)%Z by lia.
        reflexivity.
Qed.

Lemma psc_update_step_sized n v lag :
  psc_sized n -> psc_sized (update_step h origin n v lag).1.1.
Proof.
  intros Hsz.
  destruct (psc_update_step_frame h origin n v lag)
    as (HP & Hk & L1 & L2 & L3 & _).
  destruct Hk as (_ & _ & K1 & K2 & K3 & K4 & K5 & _ & _ & K6).
  unfold psc_sized in *.
  rewrite HP, L1, L2, L3, K1, K2, K3, K4, K5, K6. exact Hsz.
Qed.

Lemma psc_update_loop_spikes i count : forall n v lag,
  psc_sized n -> (i < n_receptors_ (P_ n))%nat -> (0 <= lag)%Z ->
  at_ [] (spikes_ (B_ (update_loop h origin count n v lag).1)) i
  = read_slots (at_ [] (spikes_ (B_ n)) i) lag (lag + Z.of_nat count).
Proof.
  induction count as [| count IH]; intros n v lag Hsz Hi Hlag.
  - cbn [update_loop fst]. rewrite read_slots_none by lia. reflexivity.
  - rewrite psc_update_loop_S. cbn zeta. cbn [fst].
    destruct (psc_update_step_filter h origin n v lag i Hsz Hi)
      as (_ & _ & Fs).
    destruct (psc_update_step_frame h origin n v lag) as (HP & _).
    rewrite IH; [| apply psc_update_step_sized; exact Hsz
                 | rewrite HP; exact Hi | lia].
    rewrite Fs, get_value_read_slots by exact Hlag.
    rewrite read_slots_compose by lia. f_equal. lia.
Qed.
End glif_lif_psc_buffers.

(** X14.  Every queued input is read once.  A slice [update( origin, from,
    to )] with [0 <= from] leaves the current buffer with [0] in the slots
    [from], ..., [to - 1] and the other slots as they were, in both models;
    when the slice is not empty, [I_] ends as the value that was queued
    for its last lag [to - 1], which is the current the first step of the
    next slice integrates.  In the psc model the spike buffer of every
    receptor is read in the same way. *)
Theorem update_reads_each_slot_once
    (h : R) (origin : Z) (n : glif_lif.Node) (m : glif_lif_psc.Node)
    (from to : Z) :
  (0 <= from)%Z ->
  let r := (glif_lif.update h origin n from to).1 in
  let q := (glif_lif_psc.update h origin m from to).1 in
  (glif_lif.currents_ (glif_lif.B_ r)
   = read_slots (glif_lif.currents_ (glif_lif.B_ n)) from to
   /\ ((from < to)%Z ->
       glif_lif.I_ (glif_lif.S_ r)
       = (nest.get_value (glif_lif.currents_ (glif_lif.B_ n)) (to - 1)).1))
  /\ (glif_lif_psc.currents_ (glif_lif_psc.B_ q)
      = read_slots (glif_lif_psc.currents_ (glif_lif_psc.B_ m)) from to
      /\ ((from < to)%Z ->
          glif_lif_psc.I_ (glif_lif_psc.S_ q)
          = (nest.get_value (glif_lif_psc.currents_ (glif_lif_psc.B_ m))
               (to - 1)).1))
  /\ (psc_sized m ->
      forall i, (i < glif_lif_psc.n_receptors_ (glif_lif_psc.P_ m))%nat ->
        nest.at_ [] (glif_lif_psc.spikes_ (glif_lif_psc.B_ q)) i
        = read_slots
            (nest.at_ [] (glif_lif_psc.spikes_ (glif_lif_psc.B_ m)) i)
            from to).
Proof.
  intros Hfrom r q. subst r q. unfold glif_lif.update, glif_lif_psc.update.
  assert (Hto : forall b : nest.RingBuffer,
             read_slots b from (from + Z.of_nat (Z.to_nat (to - from)))
             = read_slots b from to).
  { intros b. destruct (Z.le_gt_cases from to) as [Hle | Hgt].
    - replace (from + Z.of_nat (Z.to_nat (to - from)))%Z with to by lia.
      reflexivity.
    - rewrite !read_slots_none by lia. reflexivity. }
  split; [| split].
  - destruct (lif_update_loop_buffer h origin (Z.to_nat (to - from)) n
                (glif_lif.V_m_ (glif_lif.S_ n)) from Hfrom) as (H1 & H2).
    rewrite Hto in H1. split; [exact H1 |].
    intros Hlt. rewrite H2 by lia.
    replace (from + Z.of_nat (Z.to_nat (to - from)) - 1)%Z with (to - 1)%Z
      by lia.
    reflexivity.
  - destruct (psc_update_loop_buffer h origin (Z.to_nat (to - from)) m
                (glif_lif_psc.V_m_ (glif_lif_psc.S_ m)) from Hfrom)
      as (H1 & H2).
    rewrite Hto in H1. split; [exact H1 |].
    intros Hlt. rewrite H2 by lia.
    replace (from + Z.of_nat (Z.to_nat (to - from)) - 1)%Z with (to - 1)%Z
      by lia.
    reflexivity.
  - intros Hsz i Hi.
    rewrite psc_update_loop_spikes by assumption. apply Hto.
Qed.

Lemma update_reads_each_slot_once_witness :
  glif_lif.currents_
    (glif_lif.B_
       (glif_lif.update 1 0 (with_current (lif_sample 0 0 0) 1 5) 0 2).1)
  = [0; 0; 0; 0]
  /\ glif_lif.I_
       (glif_lif.S_
          (glif_lif.update 1 0 (with_current (lif_sample 0 0 0) 1 5) 0 2).1)
     = 5.
Proof.
  pose proof (update_reads_each_slot_once 1 0
                (with_current (lif_sample 0 0 0) 1 5) (psc_sample 0 0 0)
                0 2) as H.
  cbv zeta in H.
  destruct H as ((H1 & H2) & _); [lia |].
  split; [rewrite H1; reflexivity | rewrite H2 by lia; reflexivity].
Defined.

(** *** The two models side by side *)

(** During a run the method flag and the two membrane coefficients are
    those [calibrate] computed from the parameters. *)
Lemma psc_running_scalars p31 p32 slots h n :
  glif_lif_psc.running p31 p32 slots h n ->
  let p := glif_lif_psc.P_ n in
  let Tau_ := glif_lif_psc.C_m_ p / glif_lif_psc.G_ p in
  glif_lif_psc.method_ (glif_lif_psc.V_ n)
  = (if String.eqb (glif_lif_psc.V_dynamics_method_ p) "linear_exact"
     then 1%Z else 0%Z)
  /\ glif_lif_psc.P33_ (glif_lif_psc.V_ n) = exp (- h / Tau_)
  /\ glif_lif_psc.P30_ (glif_lif_psc.V_ n)
     = 1 / glif_lif_psc.C_m_ p * (1 - exp (- h / Tau_)) * Tau_.
Proof.
  intros Hrun. cbn zeta.
  induction Hrun as [n | n origin from to _ IH
                     | n rport steps w mult _ IH | n steps w c _ IH].
  - destruct (psc_calibrate_spec p31 p32 slots h n)
      as (HP & _ & _ & _ & _ & Hm & H33 & H30 & _).
    cbn zeta in *. rewrite HP. auto.
  - unfold glif_lif_psc.update.
    apply (psc_update_loop_invariant h origin
             (fun x =>
                glif_lif_psc.method_ (glif_lif_psc.V_ x)
                = (if String.eqb
                        (glif_lif_psc.V_dynamics_method_ (glif_lif_psc.P_ x))
                        "linear_exact"
                   then 1%Z else 0%Z)
                /\ glif_lif_psc.P33_ (glif_lif_psc.V_ x)
                   = exp (- h / (glif_lif_psc.C_m_ (glif_lif_psc.P_ x)
                                 / glif_lif_psc.G_ (glif_lif_psc.P_ x)))
                /\ glif_lif_psc.P30_ (glif_lif_psc.V_ x)
                   = 1 / glif_lif_psc.C_m_ (glif_lif_psc.P_ x)
                     * (1 - exp (- h / (glif_lif_psc.C_m_ (glif_lif_psc.P_ x)
                                        / glif_lif_psc.G_ (glif_lif_psc.P_ x))))
                     * (glif_lif_psc.C_m_ (glif_lif_psc.P_ x)
                        / glif_lif_psc.G_ (glif_lif_psc.P_ x))));
      [| exact IH].
    intros x v lag (Hm & H33 & H30).
    destruct (psc_update_step_frame h origin x v lag) as (HP & Hk & _).
    destruct Hk as (_ & Km & _ & _ & _ & _ & _ & K30 & K33 & _).
    rewrite HP, Km, K30, K33. auto.
  - exact IH.
  - exact IH.
Qed.

(** X15.  The two models integrate the same membrane equation.  During a
    run of the psc model whose resolution is the step [dt = h * 1.0e-03]
    of the plain model at resolution [h], with one of the two method names
    and non-zero [G_] and [C_m_], an integrating step of the psc node ends
    at the voltage the plain node with the same membrane parameters, voltage
    and current reaches in its integrating step, plus the synaptic drive
    [P31_[i] * y1_[i] + P32_[i] * y2_[i]] summed over the receptors: the
    coefficients [P33_] and [P30_] of [calibrate] are those of the exact
    formula of the plain model. *)
Theorem psc_integrates_like_plain
    (p31 p32 : R -> R -> R -> R -> R) (slots : nat) (h : R)
    (m : glif_lif_psc.Node) (origin origin' : Z) (v_old : R) (lag lag' : Z) :
  let p := glif_lif_psc.P_ m in
  let dt := h * 1.0e-03 in
  glif_lif_psc.running p31 p32 slots dt m ->
  glif_lif_psc.G_ p <> 0 -> glif_lif_psc.C_m_ p <> 0 ->
  glif_lif_psc.V_dynamics_method_ p = "linear_forward_euler"%string
  \/ glif_lif_psc.V_dynamics_method_ p = "linear_exact"%string ->
  glif_lif_psc.t_ref_remaining_ (glif_lif_psc.V_ m) <= 0 ->
  glif_lif_psc.V_m_
    (glif_lif_psc.S_ (glif_lif_psc.update_step dt origin m v_old lag).1.1)
  = glif_lif.V_m_
      (glif_lif.S_
         (glif_lif.update_step h origin' (plain_of m) v_old lag').1.1)
    + syn_sum (glif_lif_psc.P31_ (glif_lif_psc.V_ m))
        (glif_lif_psc.y1_ (glif_lif_psc.S_ m))
        (glif_lif_psc.P32_ (glif_lif_psc.V_ m))
        (glif_lif_psc.y2_ (glif_lif_psc.S_ m))
        (glif_lif_psc.n_receptors_ p) 0.
Proof.
  intros p dt Hrun HG HC Hmethod Hint.
  rewrite psc_update_step_voltage by exact Hint.
  rewrite lif_integrating_step_voltage by exact Hint.
  fold dt p. f_equal.
  destruct (psc_running_scalars p31 p32 slots dt m Hrun) as (Hm & H33 & H30).
  fold p in Hm, H33, H30.
  unfold glif_lif_psc.voltage_dynamics, glif_lif.voltage_dynamics.
  fold p. cbn [glif_lif.P_ plain_of glif_lif.V_dynamics_method_].
  fold p.
  destruct Hmethod as [E | E]; rewrite E in Hm |- *; simpl in Hm; rewrite Hm.
  - reflexivity.
  - cbn. fold p. rewrite H33, H30.
    replace (- dt / (glif_lif_psc.C_m_ p / glif_lif_psc.G_ p))
      with (- dt * (glif_lif_psc.G_ p / glif_lif_psc.C_m_ p))
      by (field; auto).
    replace (- (glif_lif_psc.G_ p / glif_lif_psc.C_m_ p) * dt)
      with (- dt * (glif_lif_psc.G_ p / glif_lif_psc.C_m_ p)) by ring.
    field. auto.
Qed.

Lemma psc_integrates_like_plain_witness :
  let m :=
    glif_lif_psc.calibrate (fun _ _ _ _ => 0) (fun _ _ _ _ => 0) 4
      (1 * 1.0e-03) (psc_sample 0 0 7) in
  glif_lif_psc.V_m_
    (glif_lif_psc.S_
       (glif_lif_psc.update_step (1 * 1.0e-03) 0 m 0 0).1.1)
  = glif_lif.V_m_
      (glif_lif.S_ (glif_lif.update_step 1 0 (plain_of m) 0 0).1.1)
    + syn_sum (glif_lif_psc.P31_ (glif_lif_psc.V_ m))
        (glif_lif_psc.y1_ (glif_lif_psc.S_ m))
        (glif_lif_psc.P32_ (glif_lif_psc.V_ m))
        (glif_lif_psc.y2_ (glif_lif_psc.S_ m))
        (glif_lif_psc.n_receptors_ (glif_lif_psc.P_ m)) 0.
Proof.
  cbv zeta.
  destruct (psc_calibrate_spec (fun _ _ _ _ => 0) (fun _ _ _ _ => 0) 4
              (1 * 1.0e-03) (psc_sample 0 0 7))
    as (HP & _ & _ & Hrem & _).
  apply (psc_integrates_like_plain (fun _ _ _ _ => 0) (fun _ _ _ _ => 0) 4 1
           (glif_lif_psc.calibrate (fun _ _ _ _ => 0) (fun _ _ _ _ => 0) 4
              (1 * 1.0e-03) (psc_sample 0 0 7))
           0 0 0 0 0).
  - apply glif_lif_psc.running_calibrate.
  - rewrite HP. simpl. lra.
  - rewrite HP. simpl. lra.
  - left. rewrite HP. reflexivity.
  - rewrite Hrem. lra.
Defined.

(** *** Calibrating again *)

Lemma resize_same {T} (d : T) (k : nat) (v : list T) :
  length v = k -> nest.resize d k v = v.
Proof.
  intros <-. unfold nest.resize.
  rewrite firstn_all, Nat.sub_diag. simpl. apply app_nil_r.
Qed.

Lemma insert_at_id {T} (d : T) (v : list T) (i : nat) (x : T) :
  nest.at_ d v i = x -> <[i := x]> v = v.
Proof.
  unfold nest.at_. intros E.
  destruct (v !! i) as [y |] eqn:Ei; simpl in E.
  - subst y. apply list_insert_id. exact Ei.
  - apply list_insert_ge. apply lookup_ge_None. exact Ei.
Qed.

Lemma length_RingBuffer_resize (slots : nat) (b : nest.RingBuffer) :
  length (nest.RingBuffer_resize slots b) = slots.
Proof.
  unfold nest.RingBuffer_resize.
  destruct (decide (length b = slots)); [assumption |].
  apply length_replicate.
Qed.

Lemma length_get_value (b : nest.RingBuffer) (l : Z) :
  length (nest.get_value b l).2 = length b.
Proof.
  unfold nest.get_value. destruct (0 <=? l)%Z; cbn [snd]; [| reflexivity].
  unfold nest.RingBuffer in *. apply length_insert.
Qed.

Lemma length_add_value (b : nest.RingBuffer) (l : Z) (w : R) :
  length (nest.add_value b l w) = length b.
Proof.
  unfold nest.add_value. destruct (0 <=? l)%Z; [| reflexivity].
  unfold nest.RingBuffer in *. apply length_insert.
Qed.

Section glif_lif_psc_recalibrate.
Import nest glif_lif_psc.
Variables propagator_31 propagator_32 : R -> R -> R -> R -> R.
Variable slots : nat.
Variable h : R.

Lemma calibrate_loop_spikes Tau_ count : forall n i,
  (i + count <= length (spikes_ (B_ n)))%nat ->
  (forall j, (j < i)%nat -> length (at_ [] (spikes_ (B_ n)) j) = slots) ->
  forall j, (j < i + count)%nat ->
    length
      (at_ []
         (spikes_
            (B_ (calibrate_loop propagator_31 propagator_32 slots h Tau_
                   count n i))) j) = slots.
Proof.
  induction count as [| count IH]; intros n i Hlen Hbelow j Hj.
  - cbn [calibrate_loop]. apply Hbelow. lia.
  - cbn [calibrate_loop].
    assert (Hsp : spikes_
                    (B_ (calibrate_receptor propagator_31 propagator_32
                           slots h Tau_ n i))
                  = <[i := RingBuffer_resize slots
                             (at_ [] (spikes_ (B_ n)) i)]>
                      (spikes_ (B_ n))) by reflexivity.
    apply IH.
    + rewrite Hsp, length_insert. lia.
    + intros j' Hj'. rewrite Hsp.
      destruct (decide (j' = i)) as [-> | Hne].
      * unfold RingBuffer in *.
        rewrite at_insert_eq by lia. apply length_RingBuffer_resize.
      * rewrite at_insert_ne by done. apply Hbelow. lia.
    + lia.
Qed.

Lemma psc_calibrate_buffers_sized n :
  psc_buffers_sized slots
    (calibrate propagator_31 propagator_32 slots h n).
Proof.
  destruct (psc_calibrate_spec propagator_31 propagator_32 slots h n)
    as (HP & _).
  unfold psc_buffers_sized. rewrite HP. intros j Hj.
  unfold calibrate.
  apply (calibrate_loop_spikes _ (n_receptors_ (P_ n)) _ 0%nat).
  - simpl. rewrite length_resize. lia.
  - intros j' Hj'. lia.
  - simpl. exact Hj.
Qed.

Lemma psc_update_step_buffers_sized origin n v lag :
  psc_sized n -> psc_buffers_sized slots n ->
  psc_buffers_sized slots (update_step h origin n v lag).1.1.
Proof.
  intros Hsz Hb j Hj.
  destruct (psc_update_step_frame h origin n v lag) as (HP & _).
  rewrite HP in Hj.
  destruct (psc_update_step_filter h origin n v lag j Hsz Hj)
    as (_ & _ & ->).
  rewrite length_get_value. apply Hb. exact Hj.
Qed.

Lemma psc_running_buffers_sized n :
  running propagator_31 propagator_32 slots h n ->
  psc_sized n /\ psc_buffers_sized slots n.
Proof.
  intros Hrun.
  induction Hrun as [n | n origin from to _ IH
                     | n rport steps w mult _ IH | n steps w c _ IH].
  - split; [| apply psc_calibrate_buffers_sized].
    destruct (psc_calibrate_spec propagator_31 propagator_32 slots h n)
      as (_ & _ & _ & _ & _ & _ & _ & _ & Hsz & _).
    exact Hsz.
  - unfold update.
    apply (psc_update_loop_invariant h origin
             (fun x => psc_sized x /\ psc_buffers_sized slots x));
      [| exact IH].
    intros x v lag [Hs Hb]. split.
    + apply psc_update_step_sized. exact Hs.
    + apply psc_update_step_buffers_sized; assumption.
  - destruct IH as [Hsz Hb]. split.
    + unfold psc_sized in *. simpl. rewrite length_insert. exact Hsz.
    + intros j Hj. simpl in Hj |- *.
      destruct (decide (j = Z.to_nat (rport - 1))) as [-> | Hne].
      * destruct (decide (Z.to_nat (rport - 1)
                          < length (spikes_ (B_ n)))%nat) as [Hin | Hout].
        -- rewrite at_insert_eq by exact Hin.
           rewrite length_add_value. apply Hb. exact Hj.
        -- rewrite list_insert_ge by lia. apply Hb. exact Hj.
      * rewrite at_insert_ne by done. apply Hb. exact Hj.
  - exact IH.
Qed.

Lemma calibrate_receptor_id Tau_ n i :
  coefficients_at propagator_31 propagator_32 h Tau_ (P_ n) (V_ n) i ->
  length (at_ [] (spikes_ (B_ n)) i) = slots ->
  calibrate_receptor propagator_31 propagator_32 slots h Tau_ n i = n.
Proof.
  intros (C11 & C22 & C21 & C31 & C32 & Cpsc) Hlen.
  unfold calibrate_receptor, set_spikes, set_V, set_B. cbn zeta. simpl.
  rewrite (insert_at_id 0 (P11_ (V_ n)) i _ C11).
  rewrite (insert_at_id 0 (P22_ (V_ n)) i _ C22).
  rewrite (insert_at_id 0 (P21_ (V_ n)) i _ C21).
  rewrite (insert_at_id 0 (P31_ (V_ n)) i _ C31).
  rewrite (insert_at_id 0 (P32_ (V_ n)) i _ C32).
  rewrite (insert_at_id 0 (PSCInitialValues_ (V_ n)) i _ Cpsc).
  assert (Hb : RingBuffer_resize slots (at_ [] (spikes_ (B_ n)) i)
               = at_ [] (spikes_ (B_ n)) i).
  { unfold RingBuffer_resize. destruct (decide _); [reflexivity | done]. }
  rewrite Hb. unfold RingBuffer in *.
  rewrite (insert_at_id [] (spikes_ (B_ n)) i _ eq_refl).
  destruct n as [p s v b]. destruct v, b. reflexivity.
Qed.

Lemma calibrate_loop_id Tau_ count : forall n i,
  (forall j, (i <= j < i + count)%nat ->
     coefficients_at propagator_31 propagator_32 h Tau_ (P_ n) (V_ n) j
     /\ length (at_ [] (spikes_ (B_ n)) j) = slots) ->
  calibrate_loop propagator_31 propagator_32 slots h Tau_ count n i = n.
Proof.
  induction count as [| count IH]; intros n i Hall; [reflexivity |].
  simpl. destruct (Hall i ltac:(lia)) as [Hc Hl].
  rewrite calibrate_receptor_id by assumption.
  apply IH. intros j Hj. apply Hall. lia.
Qed.
End glif_lif_psc_recalibrate.

(** X16.  Calibrating again during a run changes nothing but the
    refractory timer.  At every point of a run at resolution [h > 0],
    [calibrate] returns the node as it is with [t_ref_remaining_] set to
    [0]: in the psc model the synaptic state, every coefficient and every
    queued spike and current survive it, and in both models a refractory
    period in progress ends there, the next step being an integrating
    one. *)
Theorem calibrate_again_resets_only_the_timer
    (p31 p32 : R -> R -> R -> R -> R) (slots : nat) (h : R)
    (n : glif_lif.Node) (m : glif_lif_psc.Node) :
  0 < h ->
  glif_lif.running h n ->
  glif_lif_psc.running p31 p32 slots h m ->
  glif_lif.calibrate n = glif_lif.set_t_ref_remaining n 0.0
  /\ glif_lif_psc.calibrate p31 p32 slots h m
     = glif_lif_psc.set_t_ref_remaining m 0.0.
Proof.
  intros Hh Hn Hm. split.
  - destruct (lif_running_timer_ok h n Hh Hn) as [Htot _].
    unfold glif_lif.calibrate, glif_lif.set_t_ref_remaining.
    rewrite Htot. reflexivity.
  - destruct (psc_running_timer_ok p31 p32 slots h m Hh Hm) as [Htot _].
    destruct (psc_running_scalars p31 p32 slots h m Hm) as (Hmeth & H33 & H30).
    destruct (psc_running_calibrated p31 p32 slots h m Hm) as [Hsz Hco].
    destruct (psc_running_buffers_sized p31 p32 slots h m Hm) as [_ Hb].
    pose proof Hsz as (L1 & L2 & L3 & L4 & L5 & L6 & L7 & L8 & L9).
    unfold glif_lif_psc.calibrate.
    rewrite !resize_same by assumption.
    rewrite <- H30, <- H33, <- Hmeth, <- Htot.
    rewrite calibrate_loop_id.
    + unfold glif_lif_psc.set_t_ref_remaining, glif_lif_psc.set_V.
      destruct m as [p s v b]. destruct s, b. reflexivity.
    + intros j Hj. cbn [glif_lif_psc.P_ glif_lif_psc.V_ glif_lif_psc.B_
                        glif_lif_psc.spikes_].
      split.
      * apply Hco. lia.
      * apply Hb. lia.
Qed.

Lemma calibrate_again_resets_only_the_timer_witness :
  let m :=
    glif_lif_psc.calibrate (fun _ _ _ _ => 0) (fun _ _ _ _ => 0) 4 1
      (psc_sample 0 0 7) in
  glif_lif_psc.calibrate (fun _ _ _ _ => 0) (fun _ _ _ _ => 0) 4 1
    (glif_lif_psc.update 1 0 m 0 2).1
  = glif_lif_psc.set_t_ref_remaining (glif_lif_psc.update 1 0 m 0 2).1 0.0.
Proof.
  cbv zeta.
  apply (calibrate_again_resets_only_the_timer
           (fun _ _ _ _ => 0) (fun _ _ _ _ => 0) 4 1
           (glif_lif.calibrate (lif_sample 0 0 7))).
  - lra.
  - apply glif_lif.running_calibrate.
  - apply glif_lif_psc.running_update. apply glif_lif_psc.running_calibrate.
Defined.
